(** * Agenda Mover: the scheduling core and the time codec

    A shallow embedding of [src/utils/schedule.ts], [src/utils/time.ts] and
    [src/models.ts], followed by the CSV export and import of
    [src/utils/storage.ts], the editing operations and the undo history of
    [App.tsx] and the grouping of the rows in the views.

    Conventions of the embedding.
    - A JavaScript [number] that holds minutes, an order or a day number is a
      [Z]: a whole number. The code computes on doubles, which add, subtract
      and compare whole numbers exactly as long as every value stays below
      2^53 in magnitude; a statement about the exact value of a difference,
      a quotient or a printed number carries that bound as a hypothesis.
    - A JavaScript string is the sequence of its UTF-16 code units, each
      below 256: the characters of [ascii]. White space and letter case
      follow JavaScript on these code units.
    - An optional field ([x?: T]) is an [option]; [undefined] is [None].
    - [!!x] on an optional number is [truthy]: present and non-zero.
    - A [for] loop with an early [return] is a [Fixpoint] over the list that
      yields an [outcome]: [Continue] with the loop state or [Return] with
      the value returned.
    - [rows.push(r)] is [rows ++ [r]].
    - A [Map] keyed by ids is a [gmap]. *)

From Stdlib Require Import ZArith List String Ascii Bool Lia.
From stdpp Require Import gmap strings list fin_maps pretty sorting.

Local Open Scope Z_scope.

(** ** Data model ([src/models.ts]) *)

Definition ID := string.

Record Activity := mkActivity {
  activity_id : ID;
  title : string;
  owner : string;
  slideNumber : option string;
  durationMin : Z;
  files : option string;
  details : option string;
  notes : option string;
  sectionId : ID;
  isSystem : option bool;
  systemKey : option string;
  completed : option bool
}.

Record AgendaSection := mkSection {
  section_id : ID;
  name : string;
  order : Z;
  dayNumber : option Z
}.

Record DayConfig := mkDayConfig {
  dayStartMin : Z;
  dayEndMin : Z;
  numberOfDays : option Z;
  breakIntervalMin : option Z;
  breakDurationMin : option Z;
  lunchTargetMin : option Z;
  lunchDurationMin : option Z
}.

Inductive RowType := TActivity | TBreak | TLunch | TOverflow.

(** [ComputedActivityRow] carries the activity, the other two variants a
    label. *)
Inductive RowPayload :=
| PActivity (activity : Activity)
| PLabel (label : string).

Record ComputedRow := mkRow {
  row_id : ID;
  row_type : RowType;
  row_sectionId : option ID;
  startMin : Z;
  endMin : Z;
  computed : bool;
  payload : RowPayload
}.

Inductive InjType := IBreak | ILunch.

(** [sectionId] is an [ID] in the interface; the planner's last fallback
    ([activities[0]?.sectionId as ID]) can store [undefined] there, hence
    the [option]. *)
Record Injection := mkInjection {
  inj_id : ID;
  inj_type : InjType;
  inj_label : string;
  inj_sectionId : option ID;
  inj_durationMin : Z;
  anchorBeforeActivityId : ID
}.

Definition rowTypeOfInj (t : InjType) : RowType :=
  match t with IBreak => TBreak | ILunch => TLunch end.

#[global] Instance RowType_eq_dec : EqDecision RowType.
Proof. solve_decision. Defined.
#[global] Instance InjType_eq_dec : EqDecision InjType.
Proof. solve_decision. Defined.

(** ** JavaScript helpers *)

(** [!!x] for an optional number. *)
Definition truthy (x : option Z) : bool :=
  match x with
  | Some z => negb (z =? 0)
  | None => false
  end.

(** [x!] and the reads of an optional number that the code guards by
    [truthy]. *)
Definition get (x : option Z) : Z := default 0 x.

(** [!!s] for an id that may be [null]: present and not the empty string. *)
Definition truthyId (x : option ID) : bool :=
  match x with
  | Some EmptyString => false
  | Some _ => true
  | None => false
  end.

(** The lower case of a code unit below 256: the letters A to Z and the
    Latin-1 capitals (192 to 222, but not the multiplication sign 215) move
    up by 32; every other code unit is its own lower case. *)
Definition lowerCodeUnit (c : ascii) : ascii :=
  let n := N_of_ascii c in
  if ((65 <=? n) && (n <=? 90) ||
      (192 <=? n) && (n <=? 222) && negb (n =? 215))%N
  then ascii_of_N (n + 32) else c.

(** [s.toLowerCase()] *)
Fixpoint toLowerCase (s : string) : string :=
  match s with
  | EmptyString => EmptyString
  | String c s' => String (lowerCodeUnit c) (toLowerCase s')
  end.

(** A loop body or loop that may [return] early. *)
Inductive outcome (S R : Type) :=
| Continue (st : S)
| Return (r : R).
Arguments Continue {S R} st.
Arguments Return {S R} r.

(** [for (const x of l) body], where the body may [return]. *)
Fixpoint forEach {X S R : Type} (body : X -> S -> outcome S R) (l : list X)
  (st : S) : outcome S R :=
  match l with
  | [] => Continue st
  | x :: l' =>
      match body x st with
      | Continue st' => forEach body l' st'
      | Return r => Return r
      end
  end.

(** ** Section/Activity orderer *)

(** [Array.prototype.sort] is stable: an element is placed before the first
    later element that does not compare below it. *)
Fixpoint insertBy {A : Type} (cmp : A -> A -> Z) (x : A) (l : list A) : list A :=
  match l with
  | [] => [x]
  | y :: l' => if cmp x y <=? 0 then x :: y :: l' else y :: insertBy cmp x l'
  end.

Definition sortBy {A : Type} (cmp : A -> A -> Z) (l : list A) : list A :=
  foldr (insertBy cmp) [] l.

(** [[...sections].sort((a, b) => a.order - b.order)] *)
Definition orderSections (sections : list AgendaSection) : list AgendaSection :=
  sortBy (fun a b => order a - order b) sections.

(** [new Map(orderedSections.map((s) => [s.id, []]))] *)
Definition emptyGroups (orderedSections : list AgendaSection)
  : gmap ID (list Activity) :=
  foldl (fun m s => <[section_id s := []]> m) ∅ orderedSections.

(** [bySection.get(a.sectionId)?.push(a)] *)
Definition pushGrouped (m : gmap ID (list Activity)) (a : Activity)
  : gmap ID (list Activity) :=
  match m !! sectionId a with
  | Some l => <[sectionId a := l ++ [a]]> m
  | None => m
  end.

Definition groupBySection (orderedSections : list AgendaSection)
  (activities : list Activity) : gmap ID (list Activity) :=
  foldl pushGrouped (emptyGroups orderedSections) activities.

(** [bySection.get(section.id) || []] *)
Definition listOf (bySection : gmap ID (list Activity)) (s : AgendaSection)
  : list Activity :=
  default [] (bySection !! section_id s).

Definition activityRow (s : AgendaSection) (a : Activity) (startMin : Z)
  : ComputedRow :=
  {| row_id := activity_id a;
     row_type := TActivity;
     row_sectionId := Some (section_id s);
     startMin := startMin;
     endMin := startMin + durationMin a;
     computed := false;
     payload := PActivity a |}.

(** ** Direct Walker: [computeSchedule] *)

Module Direct.

Record state := mkState {
  rows : list ComputedRow;
  clock : Z;
  minutesSinceBreak : Z;
  lunchInserted : bool
}.

Definition pushBreak (label : string) (sid : option ID) (dur : Z)
  (st : state) : state :=
  let startMin := clock st in
  let endMin := clock st + dur in
  {| rows := rows st ++
       [ {| row_id := label +:+ "-" +:+ pretty startMin;
            row_type := if String.eqb (toLowerCase label) "lunch"
                        then TLunch else TBreak;
            row_sectionId := sid;
            startMin := startMin;
            endMin := endMin;
            computed := true;
            payload := PLabel label |} ];
     clock := endMin;
     minutesSinceBreak := 0;
     lunchInserted := lunchInserted st |}.

Definition needBreak (cfg : DayConfig) (st : state) (a : Activity) : bool :=
  truthy (breakIntervalMin cfg) && truthy (breakDurationMin cfg) &&
  (get (breakIntervalMin cfg) <? minutesSinceBreak st + durationMin a).

Definition crossesLunch (cfg : DayConfig) (st : state) (a : Activity) : bool :=
  truthy (lunchTargetMin cfg) && truthy (lunchDurationMin cfg) &&
  negb (lunchInserted st) &&
  (clock st <? get (lunchTargetMin cfg)) &&
  (get (lunchTargetMin cfg) <? clock st + durationMin a).

Definition setLunchInserted (st : state) : state :=
  {| rows := rows st; clock := clock st;
     minutesSinceBreak := minutesSinceBreak st; lunchInserted := true |}.

(** Lines 55-72: the break or lunch that goes before the activity. *)
Definition beforeActivity (cfg : DayConfig) (s : AgendaSection) (a : Activity)
  (st : state) : state :=
  if crossesLunch cfg st a then
    setLunchInserted
      (pushBreak "Lunch" (Some (section_id s)) (get (lunchDurationMin cfg)) st)
  else if needBreak cfg st a then
    pushBreak "Break" (Some (section_id s)) (get (breakDurationMin cfg)) st
  else st.

(** Lines 74-91. *)
Definition placeActivity (s : AgendaSection) (a : Activity) (st : state)
  : state :=
  {| rows := rows st ++ [activityRow s a (clock st)];
     clock := clock st + durationMin a;
     minutesSinceBreak := minutesSinceBreak st + durationMin a;
     lunchInserted := lunchInserted st |}.

Definition overflowRow (cfg : DayConfig) (s : AgendaSection) (clock : Z)
  : ComputedRow :=
  {| row_id := "overflow-" +:+ pretty clock;
     row_type := TOverflow;
     row_sectionId := Some (section_id s);
     startMin := dayEndMin cfg;
     endMin := clock;
     computed := true;
     payload := PLabel "Runs past end of day" |}.

(** One turn of the inner loop. *)
Definition step (cfg : DayConfig) (s : AgendaSection) (a : Activity)
  (st : state) : outcome state (list ComputedRow) :=
  let st' := placeActivity s a (beforeActivity cfg s a st) in
  if dayEndMin cfg <? clock st' then
    Return (rows st' ++ [overflowRow cfg s (clock st')])
  else Continue st'.

(** Lines 50-108: the two nested loops. *)
Definition walkSections (cfg : DayConfig)
  (bySection : gmap ID (list Activity)) (ss : list AgendaSection)
  (st : state) : outcome state (list ComputedRow) :=
  forEach (fun s => forEach (step cfg s) (listOf bySection s)) ss st.

Definition init (cfg : DayConfig) : state :=
  {| rows := []; clock := dayStartMin cfg;
     minutesSinceBreak := 0; lunchInserted := false |}.

(** Lines 110-120: the guard of the closing lunch. *)
Definition lunchAtEnd (cfg : DayConfig) (st : state) : bool :=
  truthy (lunchTargetMin cfg) && truthy (lunchDurationMin cfg) &&
  negb (lunchInserted st) &&
  (clock st <=? dayEndMin cfg) &&
  (dayStartMin cfg <=? get (lunchTargetMin cfg)).

Definition finish (cfg : DayConfig) (orderedSections : list AgendaSection)
  (st : state) : list ComputedRow :=
  if lunchAtEnd cfg st then
    rows (pushBreak "Lunch" (section_id <$> last orderedSections)
            (get (lunchDurationMin cfg)) st)
  else rows st.

Definition computeSchedule (cfg : DayConfig) (sections : list AgendaSection)
  (activities : list Activity) : list ComputedRow :=
  let orderedSections := orderSections sections in
  let activitiesBySection := groupBySection orderedSections activities in
  match walkSections cfg activitiesBySection orderedSections (init cfg) with
  | Return r => r
  | Continue st => finish cfg orderedSections st
  end.

End Direct.

(** ** Injection Planner: [planInjections] *)

Module Planner.

(** The locals of [planInjections]. [days] is a ghost log, absent from the
    source: the value of [dayIndex] at each [injections.push]. *)
Record state := mkState {
  injections : list Injection;
  days : list Z;
  dayIndex : Z;
  clockWithinDay : Z;
  minutesSinceBreak : Z;
  lunchPlanned : bool;
  preLunchBreakPlanned : bool;
  afterLunchStarted : bool;
  postLunchBreakPlanned : bool;
  lastActivityIdAfterLunch : option ID
}.

Definition numDays (cfg : DayConfig) : Z :=
  Z.max 1 (default 1 (numberOfDays cfg)).

Definition dayLen (cfg : DayConfig) : Z :=
  Z.max 1 (dayEndMin cfg - dayStartMin cfg).

(** [injections.push(inj)] *)
Definition push (inj : Injection) (st : state) : state :=
  {| injections := injections st ++ [inj];
     days := days st ++ [dayIndex st];
     dayIndex := dayIndex st;
     clockWithinDay := clockWithinDay st;
     minutesSinceBreak := minutesSinceBreak st;
     lunchPlanned := lunchPlanned st;
     preLunchBreakPlanned := preLunchBreakPlanned st;
     afterLunchStarted := afterLunchStarted st;
     postLunchBreakPlanned := postLunchBreakPlanned st;
     lastActivityIdAfterLunch := lastActivityIdAfterLunch st |}.

Definition breakInj (prefix : string) (sid : option ID) (cfg : DayConfig)
  (anchor : ID) : Injection :=
  {| inj_id := prefix +:+ anchor;
     inj_type := IBreak;
     inj_label := "Break";
     inj_sectionId := sid;
     inj_durationMin := get (breakDurationMin cfg);
     anchorBeforeActivityId := anchor |}.

Definition lunchInj (sid : ID) (cfg : DayConfig) (anchor : ID) : Injection :=
  {| inj_id := "inj-lunch-" +:+ anchor;
     inj_type := ILunch;
     inj_label := "Lunch";
     inj_sectionId := Some sid;
     inj_durationMin := get (lunchDurationMin cfg);
     anchorBeforeActivityId := anchor |}.

(** The guard of lines 155 and 257. *)
Definition postBreakOwed (cfg : DayConfig) (st : state) : bool :=
  afterLunchStarted st && negb (postLunchBreakPlanned st) &&
  truthyId (lastActivityIdAfterLunch st) &&
  truthy (breakDurationMin cfg) && truthy (breakIntervalMin cfg).

Definition setPostPlanned (st : state) : state :=
  {| injections := injections st;
     days := days st;
     dayIndex := dayIndex st;
     clockWithinDay := clockWithinDay st;
     minutesSinceBreak := minutesSinceBreak st;
     lunchPlanned := lunchPlanned st;
     preLunchBreakPlanned := preLunchBreakPlanned st;
     afterLunchStarted := afterLunchStarted st;
     postLunchBreakPlanned := true;
     lastActivityIdAfterLunch := lastActivityIdAfterLunch st |}.

(** Lines 155-165. *)
Definition backfill (cfg : DayConfig) (sid : option ID) (st : state) : state :=
  if postBreakOwed cfg st then
    setPostPlanned
      (push (breakInj "inj-break-post-" sid cfg
               (default EmptyString (lastActivityIdAfterLunch st))) st)
  else st.

(** Lines 170-177. *)
Definition nextDay (st : state) : state :=
  {| injections := injections st;
     days := days st;
     dayIndex := dayIndex st + 1;
     clockWithinDay := 0;
     minutesSinceBreak := 0;
     lunchPlanned := false;
     preLunchBreakPlanned := false;
     afterLunchStarted := false;
     postLunchBreakPlanned := false;
     lastActivityIdAfterLunch := None |}.

(** Lines 153-178: the day rollover before an activity. [Return] is the
    [return injections] of line 168. *)
Definition rollover (cfg : DayConfig) (s : AgendaSection) (a : Activity)
  (st : state) : outcome state state :=
  if dayLen cfg <? clockWithinDay st + durationMin a then
    let st1 := backfill cfg (Some (section_id s)) st in
    if numDays cfg <=? dayIndex st1 + 1 then Return st1
    else Continue (nextDay st1)
  else Continue st.

Definition crossesBreak (cfg : DayConfig) (st : state) (a : Activity) : bool :=
  truthy (breakIntervalMin cfg) && truthy (breakDurationMin cfg) &&
  (get (breakIntervalMin cfg) <? minutesSinceBreak st + durationMin a).

(** [config.lunchTargetMin - config.dayStartMin] *)
Definition lunchOffset (cfg : DayConfig) : Z :=
  get (lunchTargetMin cfg) - dayStartMin cfg.

Definition crossesLunch (cfg : DayConfig) (st : state) (a : Activity) : bool :=
  truthy (lunchTargetMin cfg) && truthy (lunchDurationMin cfg) &&
  negb (lunchPlanned st) &&
  (0 <? lunchOffset cfg) &&
  (clockWithinDay st <? lunchOffset cfg) &&
  (lunchOffset cfg <? clockWithinDay st + durationMin a).

(** Lines 195-205. *)
Definition preLunchBreak (cfg : DayConfig) (s : AgendaSection) (a : Activity)
  (st : state) : state :=
  if negb (preLunchBreakPlanned st) && truthy (breakDurationMin cfg) &&
     truthy (breakIntervalMin cfg) then
    let st1 :=
      push (breakInj "inj-break-pre-" (Some (section_id s)) cfg
              (activity_id a)) st in
    {| injections := injections st1;
       days := days st1;
       dayIndex := dayIndex st1;
       clockWithinDay := clockWithinDay st1;
       minutesSinceBreak := minutesSinceBreak st1;
       lunchPlanned := lunchPlanned st1;
       preLunchBreakPlanned := true;
       afterLunchStarted := afterLunchStarted st1;
       postLunchBreakPlanned := postLunchBreakPlanned st1;
       lastActivityIdAfterLunch := lastActivityIdAfterLunch st1 |}
  else st.

(** Lines 206-218. *)
Definition planLunch (cfg : DayConfig) (s : AgendaSection) (a : Activity)
  (st : state) : state :=
  let st1 := push (lunchInj (section_id s) cfg (activity_id a)) st in
  {| injections := injections st1;
     days := days st1;
     dayIndex := dayIndex st1;
     clockWithinDay := clockWithinDay st1 + get (lunchDurationMin cfg);
     minutesSinceBreak := 0;
     lunchPlanned := true;
     preLunchBreakPlanned := preLunchBreakPlanned st1;
     afterLunchStarted := true;
     postLunchBreakPlanned := postLunchBreakPlanned st1;
     lastActivityIdAfterLunch := None |}.

(** Lines 219-231. *)
Definition planBreak (cfg : DayConfig) (s : AgendaSection) (a : Activity)
  (st : state) : state :=
  let st1 :=
    push (breakInj "inj-break-" (Some (section_id s)) cfg (activity_id a)) st in
  {| injections := injections st1;
     days := days st1;
     dayIndex := dayIndex st1;
     clockWithinDay := clockWithinDay st1 + get (breakDurationMin cfg);
     minutesSinceBreak := 0;
     lunchPlanned := lunchPlanned st1;
     preLunchBreakPlanned := preLunchBreakPlanned st1;
     afterLunchStarted := afterLunchStarted st1;
     postLunchBreakPlanned :=
       if afterLunchStarted st1 then true else postLunchBreakPlanned st1;
     lastActivityIdAfterLunch := lastActivityIdAfterLunch st1 |}.

(** Lines 180-231; both tests read the state before either branch runs. *)
Definition planBefore (cfg : DayConfig) (s : AgendaSection) (a : Activity)
  (st : state) : state :=
  if crossesLunch cfg st a then planLunch cfg s a (preLunchBreak cfg s a st)
  else if crossesBreak cfg st a then planBreak cfg s a st
  else st.

(** Lines 233-236. *)
Definition advance (a : Activity) (st : state) : state :=
  {| injections := injections st;
     days := days st;
     dayIndex := dayIndex st;
     clockWithinDay := clockWithinDay st + durationMin a;
     minutesSinceBreak := minutesSinceBreak st + durationMin a;
     lunchPlanned := lunchPlanned st;
     preLunchBreakPlanned := preLunchBreakPlanned st;
     afterLunchStarted := afterLunchStarted st;
     postLunchBreakPlanned := postLunchBreakPlanned st;
     lastActivityIdAfterLunch :=
       if afterLunchStarted st then Some (activity_id a)
       else lastActivityIdAfterLunch st |}.

(** One turn of the inner loop. *)
Definition step (cfg : DayConfig) (s : AgendaSection) (a : Activity)
  (st : state) : outcome state state :=
  match rollover cfg s a st with
  | Return r => Return r
  | Continue st1 => Continue (advance a (planBefore cfg s a st1))
  end.

(** Lines 149-238: the two nested loops. *)
Definition walkSections (cfg : DayConfig)
  (bySection : gmap ID (list Activity)) (ss : list AgendaSection)
  (st : state) : outcome state state :=
  forEach (fun s => forEach (step cfg s) (listOf bySection s)) ss st.

Definition init : state :=
  {| injections := []; days := []; dayIndex := 0; clockWithinDay := 0;
     minutesSinceBreak := 0; lunchPlanned := false;
     preLunchBreakPlanned := false; afterLunchStarted := false;
     postLunchBreakPlanned := false; lastActivityIdAfterLunch := None |}.

(** Lines 240-254. *)
Definition forcedLunch (cfg : DayConfig) (orderedSections : list AgendaSection)
  (bySection : gmap ID (list Activity)) (st : state) : state :=
  if truthy (lunchTargetMin cfg) && truthy (lunchDurationMin cfg) &&
     negb (lunchPlanned st) &&
     (0 <? Z.of_nat (length orderedSections)) &&
     (dayIndex st <? numDays cfg) then
    match last orderedSections with
    | Some lastS =>
        match listOf bySection lastS with
        | a0 :: _ => push (lunchInj (section_id lastS) cfg (activity_id a0)) st
        | [] => st
        end
    | None => st
    end
  else st.

(** Lines 256-266. *)
Definition finalPostBreak (cfg : DayConfig)
  (orderedSections : list AgendaSection) (activities : list Activity)
  (st : state) : state :=
  if postBreakOwed cfg st then
    push (breakInj "inj-break-post-"
            (match last orderedSections with
             | Some s => Some (section_id s)
             | None => sectionId <$> head activities
             end) cfg
            (default EmptyString (lastActivityIdAfterLunch st))) st
  else st.

(** The whole run, as the final state of the locals. *)
Definition plan (cfg : DayConfig) (sections : list AgendaSection)
  (activities : list Activity) : state :=
  let orderedSections := orderSections sections in
  let bySection := groupBySection orderedSections activities in
  match walkSections cfg bySection orderedSections init with
  | Return r => r
  | Continue st =>
      finalPostBreak cfg orderedSections activities
        (forcedLunch cfg orderedSections bySection st)
  end.

Definition planInjections (cfg : DayConfig) (sections : list AgendaSection)
  (activities : list Activity) : list Injection :=
  injections (plan cfg sections activities).


End Planner.

(** ** Injection Renderer: [buildScheduleWithInjections] *)

Module Renderer.

Section WithCompare.

(** [String.prototype.localeCompare] belongs to the host's locale. *)
Variable localeCompare : string -> string -> Z.

(** Lines 284-287. *)
Definition pushInjection (m : gmap (option ID) (list Injection))
  (inj : Injection) : gmap (option ID) (list Injection) :=
  let m1 :=
    match m !! inj_sectionId inj with
    | Some _ => m
    | None => <[inj_sectionId inj := []]> m
    end in
  <[inj_sectionId inj := default [] (m1 !! inj_sectionId inj) ++ [inj]]> m1.

(** Lines 283-288. *)
Definition buildInjMap (injections : list Injection)
  : gmap (option ID) (list Injection) :=
  sortBy (fun a b => localeCompare (anchorBeforeActivityId a)
                                   (anchorBeforeActivityId b))
    <$> foldl pushInjection ∅ injections.

Record state := mkState {
  rows : list ComputedRow;
  dayIndex : Z;
  clock : Z
}.

Definition numDays (cfg : DayConfig) : Z :=
  Z.max 1 (default 1 (numberOfDays cfg)).

Definition overflowRow (cfg : DayConfig) (s : AgendaSection) (clock dur : Z)
  : ComputedRow :=
  {| row_id := "overflow-" +:+ pretty clock;
     row_type := TOverflow;
     row_sectionId := Some (section_id s);
     startMin := dayEndMin cfg;
     endMin := clock + dur;
     computed := true;
     payload := PLabel "Runs past end of schedule" |}.

(** Lines 303-320 and 325-340: the same test before an activity and before
    an injection of duration [dur]. *)
Definition rollOrStop (cfg : DayConfig) (s : AgendaSection) (dur : Z)
  (st : state) : outcome state (list ComputedRow) :=
  if dayEndMin cfg <? clock st + dur then
    if numDays cfg <=? dayIndex st + 1 then
      Return (rows st ++ [overflowRow cfg s (clock st) dur])
    else
      Continue {| rows := rows st; dayIndex := dayIndex st + 1;
                  clock := dayStartMin cfg |}
  else Continue st.

Definition injectionRow (s : AgendaSection) (inj : Injection) (startMin : Z)
  : ComputedRow :=
  {| row_id := inj_id inj;
     row_type := rowTypeOfInj (inj_type inj);
     row_sectionId := Some (section_id s);
     startMin := startMin;
     endMin := startMin + inj_durationMin inj;
     computed := true;
     payload := PLabel (inj_label inj) |}.

(** Lines 324-353: one turn of the loop over the anchored injections. *)
Definition placeInjection (cfg : DayConfig) (s : AgendaSection)
  (inj : Injection) (st : state) : outcome state (list ComputedRow) :=
  match rollOrStop cfg s (inj_durationMin inj) st with
  | Return r => Return r
  | Continue st1 =>
      Continue {| rows := rows st1 ++ [injectionRow s inj (clock st1)];
                  dayIndex := dayIndex st1;
                  clock := clock st1 + inj_durationMin inj |}
  end.

Definition placeActivity (s : AgendaSection) (a : Activity) (st : state)
  : state :=
  {| rows := rows st ++ [activityRow s a (clock st)];
     dayIndex := dayIndex st;
     clock := clock st + durationMin a |}.

(** [sectionInj.filter((inj) => inj.anchorBeforeActivityId === activity.id)] *)
Definition anchoredTo (sectionInj : list Injection) (a : Activity)
  : list Injection :=
  filter (fun inj => anchorBeforeActivityId inj = activity_id a) sectionInj.

(** One turn of the inner loop. *)
Definition step (cfg : DayConfig) (s : AgendaSection)
  (sectionInj : list Injection) (a : Activity) (st : state)
  : outcome state (list ComputedRow) :=
  match rollOrStop cfg s (durationMin a) st with
  | Return r => Return r
  | Continue st1 =>
      match forEach (placeInjection cfg s) (anchoredTo sectionInj a) st1 with
      | Return r => Return r
      | Continue st2 => Continue (placeActivity s a st2)
      end
  end.

(** [injMap.get(section.id) || []] *)
Definition sectionInjOf (injMap : gmap (option ID) (list Injection))
  (s : AgendaSection) : list Injection :=
  default [] (injMap !! Some (section_id s)).

(** Lines 296-370: the two nested loops. *)
Definition walkSections (cfg : DayConfig)
  (bySection : gmap ID (list Activity))
  (injMap : gmap (option ID) (list Injection)) (ss : list AgendaSection)
  (st : state) : outcome state (list ComputedRow) :=
  forEach
    (fun s => forEach (step cfg s (sectionInjOf injMap s)) (listOf bySection s))
    ss st.

Definition init (cfg : DayConfig) : state :=
  {| rows := []; dayIndex := 0; clock := dayStartMin cfg |}.

Definition buildScheduleWithInjections (cfg : DayConfig)
  (sections : list AgendaSection) (activities : list Activity)
  (injections : list Injection) : list ComputedRow :=
  let orderedSections := orderSections sections in
  let bySection := groupBySection orderedSections activities in
  let injMap := buildInjMap injections in
  match walkSections cfg bySection injMap orderedSections (init cfg) with
  | Return r => r
  | Continue st => rows st
  end.

End WithCompare.

End Renderer.

(** ** Day-Partitioned Walker: [buildScheduleFromActivities] *)

Module DayWalk.

Record state := mkState {
  rows : list ComputedRow;
  dayIndex : Z;
  clock : Z;
  minutesSinceBreak : Z;
  currentDayNumber : Z
}.

(** Lines 383-388. *)
Definition orderSectionsByDay (sections : list AgendaSection)
  : list AgendaSection :=
  sortBy (fun a b =>
            let ad := default 1 (dayNumber a) in
            let bd := default 1 (dayNumber b) in
            if decide (ad <> bd) then ad - bd else order a - order b)
         sections.

(** Lines 401-408. *)
Definition enterSection (cfg : DayConfig) (s : AgendaSection) (st : state)
  : state :=
  let secDay := default (currentDayNumber st) (dayNumber s) in
  if decide (secDay <> currentDayNumber st) then
    {| rows := rows st;
       dayIndex := secDay - 1;
       clock := dayStartMin cfg;
       minutesSinceBreak := 0;
       currentDayNumber := secDay |}
  else st.

(** [activity.isSystem && activity.systemKey?.startsWith('lunch:day')] *)
Definition isLunchEntry (a : Activity) : bool :=
  default false (isSystem a) &&
  match systemKey a with
  | Some k => String.prefix "lunch:day" k
  | None => false
  end.

(** Lines 413-431. *)
Definition placeActivity (s : AgendaSection) (st : state) (a : Activity)
  : state :=
  {| rows := rows st ++ [activityRow s a (clock st)];
     dayIndex := dayIndex st;
     clock := clock st + durationMin a;
     minutesSinceBreak :=
       if isLunchEntry a then 0 else minutesSinceBreak st + durationMin a;
     currentDayNumber := currentDayNumber st |}.

(** One turn of the outer loop. *)
Definition walkSection (cfg : DayConfig)
  (bySection : gmap ID (list Activity)) (st : state) (s : AgendaSection)
  : state :=
  foldl (placeActivity s) (enterSection cfg s st) (listOf bySection s).

Definition init (cfg : DayConfig) (orderedSections : list AgendaSection)
  : state :=
  {| rows := [];
     dayIndex := 0;
     clock := dayStartMin cfg;
     minutesSinceBreak := 0;
     currentDayNumber :=
       match orderedSections with
       | s :: _ => default 1 (dayNumber s)
       | [] => 1
       end |}.

Definition buildScheduleFromActivities (cfg : DayConfig)
  (sections : list AgendaSection) (activities : list Activity)
  : list ComputedRow :=
  let orderedSections := orderSectionsByDay sections in
  let bySection := groupBySection orderedSections activities in
  rows (foldl (walkSection cfg bySection) (init cfg orderedSections)
          orderedSections).

End DayWalk.

(** ** Time codec: [parseTimeToMin] ([src/utils/time.ts]) *)

Module TimeCodec.

(** A string is read as its sequence of code units, each below 256.

    The result of the built-in [Number(text)], as far as the parser needs it:
    [NaN], an integer that a double holds exactly, or some other number
    (a fraction, an exponent form, a radix literal, an infinity, an integer
    beyond 2^53), whose value is not computed here. The sign of zero is not
    kept. *)
Inductive JSNumber :=
| NaN
| Exact (z : Z)
| OtherNumber.

(** What [parseTimeToMin] returns: [null], a number of minutes, or a number
    whose value is outside this model. *)
Inductive result :=
| Null
| Minutes (z : Z)
| Unmodelled.

Definition inRange (lo hi : N) (c : ascii) : bool :=
  ((lo <=? N_of_ascii c) && (N_of_ascii c <=? hi))%N.

(** The members of [StrWhiteSpaceChar] below 256: TAB, LF, VT, FF, CR, SP
    and the no-break space U+00A0. [String.prototype.trim] strips the same
    code units. *)
Definition isWhite (c : ascii) : bool :=
  inRange 9 13 c || (N_of_ascii c =? 32)%N || (N_of_ascii c =? 160)%N.

Definition isDigit (c : ascii) : bool := inRange 48 57 c.

Definition isHexDigit (c : ascii) : bool :=
  isDigit c || inRange 65 70 c || inRange 97 102 c.

Definition digitVal (c : ascii) : Z := Z.of_N (N_of_ascii c) - 48.

Definition isEmpty (s : string) : bool :=
  match s with EmptyString => true | _ => false end.

Fixpoint trimStart (s : string) : string :=
  match s with
  | String c s' => if isWhite c then trimStart s' else s
  | EmptyString => EmptyString
  end.

Fixpoint trimEnd (s : string) : string :=
  match s with
  | String c s' =>
      let t := trimEnd s' in
      if isWhite c && isEmpty t then EmptyString else String c t
  | EmptyString => EmptyString
  end.

Definition trim (s : string) : string := trimEnd (trimStart s).

Fixpoint allOf (p : ascii -> bool) (s : string) : bool :=
  match s with
  | String c s' => p c && allOf p s'
  | EmptyString => true
  end.

(** One or more characters, all in the class [p]. *)
Definition someOf (p : ascii -> bool) (s : string) : bool :=
  negb (isEmpty s) && allOf p s.

(** The longest prefix of decimal digits, and the rest. *)
Fixpoint spanDigits (s : string) : string * string :=
  match s with
  | String c s' =>
      if isDigit c then
        let (d, r) := spanDigits s' in (String c d, r)
      else (EmptyString, s)
  | EmptyString => (EmptyString, EmptyString)
  end.

Fixpoint digitsValue (acc : Z) (s : string) : Z :=
  match s with
  | String c s' => digitsValue (10 * acc + digitVal c) s'
  | EmptyString => acc
  end.

(** An integer is kept only when a double holds it exactly. *)
Definition safe (z : Z) : JSNumber :=
  if Z.abs z <=? 2 ^ 53 then Exact z else OtherNumber.

(** [ExponentPart], optional: nothing, or [e]/[E], an optional sign and
    digits. *)
Definition exponentOpt (s : string) : bool :=
  match s with
  | EmptyString => true
  | String c r =>
      (Ascii.eqb c "e" || Ascii.eqb c "E") &&
      match r with
      | String c' r' =>
          if Ascii.eqb c' "+" || Ascii.eqb c' "-" then someOf isDigit r'
          else someOf isDigit r
      | EmptyString => false
      end
  end.

(** [StrUnsignedDecimalLiteral]. *)
Definition unsignedDecimal (s : string) : JSNumber :=
  if String.eqb s "Infinity" then OtherNumber
  else
    let (ip, r1) := spanDigits s in
    match r1 with
    | EmptyString => if isEmpty ip then NaN else safe (digitsValue 0 ip)
    | String c r2 =>
        if Ascii.eqb c "." then
          let (fp, r3) := spanDigits r2 in
          if negb (isEmpty ip && isEmpty fp) && exponentOpt r3
          then OtherNumber else NaN
        else if negb (isEmpty ip) && exponentOpt r1 then OtherNumber
        else NaN
    end.

(** [NonDecimalIntegerLiteral]: [0b], [0o] or [0x] and digits of the radix. *)
Definition nonDecimal (s : string) : bool :=
  match s with
  | String z (String k r) =>
      Ascii.eqb z "0" &&
      (((Ascii.eqb k "x" || Ascii.eqb k "X") && someOf isHexDigit r) ||
       ((Ascii.eqb k "o" || Ascii.eqb k "O") && someOf (inRange 48 55) r) ||
       ((Ascii.eqb k "b" || Ascii.eqb k "B") && someOf (inRange 48 49) r))
  | _ => false
  end.

Definition negate (n : JSNumber) : JSNumber :=
  match n with
  | Exact z => Exact (- z)
  | other => other
  end.

(** [Number(text)]: the text is trimmed; blank text is 0; otherwise it must
    be a [StrNumericLiteral]. *)
Definition Number (text : string) : JSNumber :=
  match trim text with
  | EmptyString => Exact 0
  | String c u as t =>
      if Ascii.eqb c "+" then unsignedDecimal u
      else if Ascii.eqb c "-" then negate (unsignedDecimal u)
      else if nonDecimal t then OtherNumber
      else unsignedDecimal t
  end.

(** [value.split(':')] *)
Fixpoint split (value : string) : list string :=
  match value with
  | EmptyString => [EmptyString]
  | String c s' =>
      if Ascii.eqb c ":" then EmptyString :: split s'
      else
        match split s' with
        | p :: ps => String c p :: ps
        | [] => [String c EmptyString]
        end
  end.

(** [h * 60 + m] on exact integers. *)
Definition minutes (h m : Z) : result :=
  match safe (h * 60) with
  | Exact hm =>
      match safe (hm + m) with
      | Exact r => Minutes r
      | _ => Unmodelled
      end
  | _ => Unmodelled
  end.

Definition parseTimeToMin (value : string) : result :=
  if isEmpty value then Null
  else
    match split value with
    | p0 :: p1 :: _ =>
        match Number p0, Number p1 with
        | NaN, _ => Null
        | _, NaN => Null
        | Exact h, Exact m => minutes h m
        | _, _ => Unmodelled
        end
    | _ => Null
    end.

End TimeCodec.

(** ** Concrete inputs used by the examples *)

Definition act (id : ID) (dur : Z) (sid : ID) : Activity :=
  {| activity_id := id; title := id; owner := "host"; slideNumber := None;
     durationMin := dur; files := None; details := None; notes := None;
     sectionId := sid; isSystem := None; systemKey := None;
     completed := None |}.

Definition sec (id : ID) (ord : Z) (day : option Z) : AgendaSection :=
  {| section_id := id; name := id; order := ord; dayNumber := day |}.

(** A compact view of a row: its type and its interval. *)
Definition span (r : ComputedRow) : RowType * Z * Z :=
  (row_type r, startMin r, endMin r).

Definition cfgBreaks : DayConfig :=
  {| dayStartMin := 540; dayEndMin := 960; numberOfDays := None;
     breakIntervalMin := Some 60; breakDurationMin := Some 15;
     lunchTargetMin := None; lunchDurationMin := None |}.

(** * Properties *)

(** ** Ordering and grouping *)

Section Ordering.

Context {A : Type} (cmp : A -> A -> Z).

Lemma insertBy_perm (x : A) (l : list A) : insertBy cmp x l ≡ₚ x :: l.
Proof.
  induction l as [|y l IH]; simpl; [done|].
  destruct (cmp x y <=? 0); [done|].
  rewrite IH. apply Permutation_swap.
Qed.

Lemma sortBy_perm (l : list A) : sortBy cmp l ≡ₚ l.
Proof.
  induction l as [|x l IH]; simpl; [done|].
  unfold sortBy in *. simpl. rewrite insertBy_perm. by f_equiv.
Qed.

Lemma sortBy_elem_of (x : A) (l : list A) : x ∈ sortBy cmp l <-> x ∈ l.
Proof. by rewrite sortBy_perm. Qed.

Lemma sortBy_nil_inv (l : list A) : sortBy cmp l = [] -> l = [].
Proof.
  intros H. apply Permutation_nil_r. rewrite <- H. symmetry.
  apply sortBy_perm.
Qed.

(** A stable sort keeps the order of the elements selected by [P] when
    these compare equal to one another. *)
Lemma filter_insertBy (P : A -> Prop) `{!forall x, Decision (P x)}
  (x : A) (l : list A) :
  (forall y, P x -> P y -> cmp x y <= 0) ->
  filter P (insertBy cmp x l) = filter P (x :: l).
Proof.
  intros Hle. induction l as [|y l IH]; simpl; [done|].
  destruct (Z.leb_spec (cmp x y) 0) as [Hc|Hc]; [done|].
  rewrite filter_cons, IH, !filter_cons.
  destruct (decide (P y)) as [Hy|Hy]; [|done].
  destruct (decide (P x)) as [Hx|Hx]; [|done].
  specialize (Hle y Hx Hy). lia.
Qed.

Lemma filter_sortBy (P : A -> Prop) `{!forall x, Decision (P x)}
  (l : list A) :
  (forall x y, P x -> P y -> cmp x y <= 0) ->
  filter P (sortBy cmp l) = filter P l.
Proof.
  intros Hle. induction l as [|x l IH]; [done|].
  unfold sortBy in *. simpl. rewrite filter_insertBy by eauto.
  by rewrite !filter_cons, IH.
Qed.

End Ordering.

(** Sections of equal order keep their given order. *)
Example orderSections_stable :
  section_id <$>
    orderSections [sec "b" 2 None; sec "a" 1 None; sec "c" 2 None;
                   sec "d" 1 None] =
  ["a"; "d"; "b"; "c"]%string.
Proof. reflexivity. Qed.

Definition ids (ss : list AgendaSection) : list ID := section_id <$> ss.

Lemma orderSections_ids (k : ID) (ss : list AgendaSection) :
  k ∈ ids (orderSections ss) <-> k ∈ ids ss.
Proof.
  unfold ids, orderSections.
  by rewrite (fmap_Permutation _ _ _ (sortBy_perm _ ss)).
Qed.

Lemma foldl_emptyGroups (ss : list AgendaSection)
  (m : gmap ID (list Activity)) (k : ID) :
  foldl (fun m s => <[section_id s := []]> m) m ss !! k =
  if decide (k ∈ ids ss) then Some [] else m !! k.
Proof.
  revert m. induction ss as [|s ss IH]; intros m; simpl.
  - done.
  - rewrite IH. repeat case_decide; try done.
    + exfalso. match goal with H : _ ∉ _ :: _ |- _ => apply H end. by right.
    + destruct (decide (k = section_id s)) as [->|Hne].
      * apply lookup_insert_eq.
      * exfalso.
        match goal with H : _ ∈ _ :: _ |- _ => apply elem_of_cons in H as [?|?] end;
          done.
    + rewrite lookup_insert_ne; [done|]. intros <-.
      match goal with H : _ ∉ _ :: _ |- _ => apply H end. by left.
Qed.

Lemma emptyGroups_lookup (ss : list AgendaSection) (k : ID) :
  emptyGroups ss !! k = if decide (k ∈ ids ss) then Some [] else None.
Proof. unfold emptyGroups. by rewrite foldl_emptyGroups, lookup_empty. Qed.

Lemma foldl_pushGrouped (acts : list Activity) (m : gmap ID (list Activity))
  (k : ID) :
  foldl pushGrouped m acts !! k =
  (fun l => l ++ filter (fun a => sectionId a = k) acts) <$> m !! k.
Proof.
  revert m. induction acts as [|a acts IH]; intros m; simpl.
  - destruct (m !! k); simpl; [by rewrite app_nil_r|done].
  - rewrite IH. unfold pushGrouped. rewrite filter_cons.
    destruct (decide (sectionId a = k)) as [<-|Hne].
    + destruct (m !! sectionId a) as [l|] eqn:E.
      * rewrite lookup_insert_eq. simpl. by rewrite <- app_assoc.
      * by rewrite E.
    + destruct (m !! sectionId a) as [l|] eqn:E; [|done].
      by rewrite lookup_insert_ne.
Qed.

(** The list that the [Map] holds for a section id: the activities of that
    section, in their given order. *)
Lemma groupBySection_lookup (ss : list AgendaSection) (acts : list Activity)
  (k : ID) :
  groupBySection ss acts !! k =
  if decide (k ∈ ids ss) then Some (filter (fun a => sectionId a = k) acts)
  else None.
Proof.
  unfold groupBySection. rewrite foldl_pushGrouped, emptyGroups_lookup.
  by destruct (decide (k ∈ ids ss)).
Qed.

Lemma listOf_groupBySection (ss : list AgendaSection) (acts : list Activity)
  (s : AgendaSection) :
  s ∈ ss ->
  listOf (groupBySection ss acts) s =
  filter (fun a => sectionId a = section_id s) acts.
Proof.
  intros Hin. unfold listOf. rewrite groupBySection_lookup.
  rewrite decide_True; [done|]. unfold ids. by apply list_elem_of_fmap_2.
Qed.

(** An activity of no listed section never enters the [Map]. *)
Lemma groupBySection_orphan (ss : list AgendaSection) (l1 l2 : list Activity)
  (a : Activity) :
  sectionId a ∉ ids ss ->
  groupBySection ss (l1 ++ a :: l2) = groupBySection ss (l1 ++ l2).
Proof.
  intros Hno. apply map_eq. intros k. rewrite !groupBySection_lookup.
  destruct (decide (k ∈ ids ss)) as [Hin|]; [|done].
  rewrite !filter_app, filter_cons, decide_False; [done|].
  intros Heq. by subst k.
Qed.

(** ** Loops *)

Section Loops.

Context {X S R : Type} (body : X -> S -> outcome S R).

Lemma forEach_app (l1 l2 : list X) (st : S) :
  forEach body (l1 ++ l2) st =
  match forEach body l1 st with
  | Continue st' => forEach body l2 st'
  | Return r => Return r
  end.
Proof.
  revert st. induction l1 as [|x l1 IH]; intros st; simpl; [done|].
  destruct (body x st); [apply IH|done].
Qed.

(** An invariant indexed by the part of the list already walked. When the
    loop returns, the invariant holds of the state in which the returning
    turn started. *)
Lemma forEach_prefix_inv (J : list X -> S -> Prop) (l : list X) :
  (forall l1 x st st',
     x ∈ l -> J l1 st -> body x st = Continue st' -> J (l1 ++ [x]) st') ->
  forall p st, J p st ->
    match forEach body l st with
    | Continue st' => J (p ++ l) st'
    | Return r =>
        exists l1 x l2 st1,
          l = l1 ++ x :: l2 /\ J (p ++ l1) st1 /\ body x st1 = Return r
    end.
Proof.
  induction l as [|x l IH]; intros Hstep p st HJ; simpl.
  - by rewrite app_nil_r.
  - destruct (body x st) as [st'|r] eqn:E.
    + assert (HJ' : J (p ++ [x]) st').
      { eapply Hstep; eauto. by left. }
      specialize (IH (fun l1 y st1 st2 Hy => Hstep l1 y st1 st2
                        (list_elem_of_further _ _ _ Hy)) _ _ HJ').
      destruct (forEach body l st') as [st''|r].
      * by rewrite <- app_assoc in IH.
      * destruct IH as (l1 & y & l2 & st1 & -> & HJ1 & Hy).
        exists (x :: l1), y, l2, st1. rewrite <- app_assoc in HJ1. done.
    + exists [], x, l, st. by rewrite app_nil_r.
Qed.

(** The plain form: an invariant of the state alone. *)
Lemma forEach_inv (I : S -> Prop) (l : list X) (st : S) :
  (forall x st st', x ∈ l -> I st -> body x st = Continue st' -> I st') ->
  I st ->
  match forEach body l st with
  | Continue st' => I st'
  | Return r => exists x st1, x ∈ l /\ I st1 /\ body x st1 = Return r
  end.
Proof.
  intros Hstep HI.
  pose proof (forEach_prefix_inv (fun _ => I) l
                (fun _ x st st' => Hstep x st st') [] st HI) as H.
  destruct (forEach body l st) as [st'|r]; [done|].
  destruct H as (l1 & x & l2 & st1 & -> & HI1 & Hx).
  exists x, st1. split; [|done]. apply elem_of_app. right. by left.
Qed.

(** A postcondition of the loop: [I] of the state when it runs to its end,
    [Q] of the value when it returns. *)
Lemma forEach_post (I : S -> Prop) (Q : R -> Prop) (l : list X) (st : S) :
  (forall x st, x ∈ l -> I st ->
     match body x st with Continue st' => I st' | Return r => Q r end) ->
  I st ->
  match forEach body l st with Continue st' => I st' | Return r => Q r end.
Proof.
  revert st. induction l as [|x l IH]; intros st Hstep HI; simpl; [done|].
  pose proof (Hstep x st ltac:(by left) HI) as Hx.
  destruct (body x st) as [st'|r]; [|done].
  apply IH; [|done]. intros y st1 Hy. apply Hstep. by right.
Qed.

End Loops.

Lemma forEach_ext {X S R : Type} (body1 body2 : X -> S -> outcome S R)
  (l : list X) (st : S) :
  (forall x st, x ∈ l -> body1 x st = body2 x st) ->
  forEach body1 l st = forEach body2 l st.
Proof.
  revert st. induction l as [|x l IH]; intros st Hext; simpl; [done|].
  rewrite <- (Hext x st) by by left.
  destruct (body1 x st); [|done].
  apply IH. intros y st1 Hy. apply Hext. by right.
Qed.

(** Two nested loops walk the pairs (outer element, inner element) in
    order. *)
Definition pairs {X Y : Type} (f : X -> list Y) (l : list X) : list (X * Y) :=
  x ← l; pair x <$> f x.

Lemma forEach_fmap {X Y S R : Type} (g : Y -> X)
  (body : X -> S -> outcome S R) (l : list Y) (st : S) :
  forEach body (g <$> l) st = forEach (fun y => body (g y)) l st.
Proof.
  revert st. induction l as [|y l IH]; intros st; simpl; [done|].
  destruct (body (g y) st); [apply IH|done].
Qed.

Lemma forEach_nested {X Y S R : Type} (f : X -> list Y)
  (inner : X -> Y -> S -> outcome S R) (l : list X) (st : S) :
  forEach (fun x => forEach (inner x) (f x)) l st =
  forEach (fun p => inner p.1 p.2) (pairs f l) st.
Proof.
  revert st. induction l as [|x l IH]; intros st; [done|].
  unfold pairs in *. rewrite bind_cons, forEach_app. simpl.
  rewrite forEach_fmap. simpl.
  destruct (forEach (inner x) (f x) st); [apply IH|done].
Qed.

Lemma pairs_elem_of {X Y : Type} (f : X -> list Y) (l : list X) (x : X)
  (y : Y) :
  (x, y) ∈ pairs f l <-> x ∈ l /\ y ∈ f x.
Proof.
  unfold pairs. rewrite list_elem_of_bind. split.
  - intros (x' & Hin & Hx').
    apply list_elem_of_fmap in Hin as (y' & [= -> ->] & Hy). done.
  - intros [Hx Hy]. exists x. split; [|done].
    by apply (list_elem_of_fmap_2 (pair x)).
Qed.

(** The order in which a walker over [ss] visits the activities. *)
Definition walkOrder (ss : list AgendaSection) (acts : list Activity)
  : list (AgendaSection * Activity) :=
  pairs (listOf (groupBySection ss acts)) ss.

Lemma walkOrder_elem_of (ss : list AgendaSection) (acts : list Activity)
  (s : AgendaSection) (a : Activity) :
  (s, a) ∈ walkOrder ss acts ->
  s ∈ ss /\ a ∈ acts /\ sectionId a = section_id s.
Proof.
  unfold walkOrder. rewrite pairs_elem_of. intros [Hs Ha].
  rewrite listOf_groupBySection in Ha by done.
  apply list_elem_of_filter in Ha as [? ?]. done.
Qed.

(** ** Rows *)

(** The section and activity that an activity row shows. *)
Definition placed (r : ComputedRow) : option (option ID * Activity) :=
  match row_type r, payload r with
  | TActivity, PActivity a => Some (row_sectionId r, a)
  | _, _ => None
  end.

Definition visit (p : AgendaSection * Activity) : option ID * Activity :=
  (Some (section_id p.1), p.2).

Lemma omap_placed_other (r : ComputedRow) :
  row_type r <> TActivity -> omap placed [r] = [].
Proof.
  intros Hr. cbn. unfold placed. by destruct (row_type r).
Qed.

Lemma omap_placed_activityRow s a c :
  omap placed [activityRow s a c] = [visit (s, a)].
Proof. done. Qed.

(** An activity row spans exactly the duration of its activity. *)
Definition durationOk (r : ComputedRow) : Prop :=
  row_type r = TActivity ->
  exists a, payload r = PActivity a /\ endMin r - startMin r = durationMin a.

Lemma durationOk_activityRow s a c : durationOk (activityRow s a c).
Proof. intros _. exists a. simpl. split; [done|lia]. Qed.

Lemma durationOk_other (r : ComputedRow) :
  row_type r <> TActivity -> durationOk r.
Proof. intros H1 H2. done. Qed.

(** A whole number below 2^53 in magnitude: the doubles of the code hold
    these and add and subtract them without rounding. *)
Definition exact (z : Z) : Prop := Z.abs z < 2 ^ 53.

(** A row whose two times are such numbers. *)
Definition exactRow (r : ComputedRow) : Prop :=
  exact (startMin r) /\ exact (endMin r).

Lemma filter_all {A : Type} (P : A -> Prop) `{!forall x, Decision (P x)}
  (l : list A) :
  Forall P l -> filter P l = l.
Proof.
  induction 1 as [|x l Hx _ IH]; [done|].
  by rewrite filter_cons_True, IH.
Qed.

(** Rows in non-decreasing order of [startMin]. *)
Definition nonDecreasing (l : list ComputedRow) : Prop :=
  forall (i j : nat) (r1 r2 : ComputedRow),
    (i <= j)%nat -> l !! i = Some r1 -> l !! j = Some r2 ->
    startMin r1 <= startMin r2.

Lemma nonDecreasing_nil : nonDecreasing [].
Proof. intros i j r1 r2 _ H. done. Qed.

Lemma nonDecreasing_snoc (l : list ComputedRow) (x : ComputedRow) :
  nonDecreasing l ->
  Forall (fun r => startMin r <= startMin x) l ->
  nonDecreasing (l ++ [x]).
Proof.
  intros Hl Hx i j r1 r2 Hij H1 H2.
  destruct (decide (j < length l)%nat) as [Hj|Hj].
  - rewrite lookup_app_l in H1, H2 by lia. eauto.
  - rewrite lookup_app_r in H2 by lia.
    destruct (j - length l)%nat as [|k] eqn:Ek; [|done].
    simpl in H2. injection H2 as <-.
    destruct (decide (i < length l)%nat) as [Hi|Hi].
    + rewrite lookup_app_l in H1 by lia.
      rewrite Forall_forall in Hx. apply Hx.
      by eapply list_elem_of_lookup_2.
    + rewrite lookup_app_r in H1 by lia.
      destruct (i - length l)%nat as [|k] eqn:Ek'; [|done].
      simpl in H1. injection H1 as <-. lia.
Qed.

(** The invariant of a walker whose clock never goes back: the rows are in
    order and none starts after the clock. *)
Definition behind (c : Z) (l : list ComputedRow) : Prop :=
  nonDecreasing l /\ Forall (fun r => startMin r <= c) l.

Lemma behind_nil c : behind c [].
Proof. split; [apply nonDecreasing_nil|done]. Qed.

Lemma behind_later c c' l : c <= c' -> behind c l -> behind c' l.
Proof.
  intros Hc [Hm Hb]. split; [done|].
  eapply Forall_impl; [exact Hb|]. simpl. intros. lia.
Qed.

Lemma behind_snoc c c' l x :
  behind c l -> startMin x = c -> c <= c' -> behind c' (l ++ [x]).
Proof.
  intros [Hm Hb] Hx Hc. split.
  - apply nonDecreasing_snoc; [done|]. by rewrite Hx.
  - rewrite Forall_app, Forall_singleton. split; [|lia].
    eapply Forall_impl; [exact Hb|]. simpl. intros. lia.
Qed.

(** ** Direct Walker *)

Module DirectFacts.

Import Direct.

Definition breakRow (label : string) (t : RowType) (sid : option ID)
  (startMin endMin : Z) : ComputedRow :=
  {| row_id := label +:+ "-" +:+ pretty startMin;
     row_type := t;
     row_sectionId := sid;
     startMin := startMin;
     endMin := endMin;
     computed := true;
     payload := PLabel label |}.

(** C2 (as amended): with day 540-960, one section, activities of 20, 45 and
    30 minutes, a break of 15 every 60 and no lunch, [computeSchedule]
    returns activity 1 at [540,560), a break at [560,575), activity 2 at
    [575,620), a second break at [620,635) (45 + 30 > 60) and activity 3 at
    [635,665). *)
Theorem computeSchedule_scenario (s : AgendaSection) (a1 a2 a3 : Activity)
  (n : option Z) :
  sectionId a1 = section_id s -> sectionId a2 = section_id s ->
  sectionId a3 = section_id s ->
  durationMin a1 = 20 -> durationMin a2 = 45 -> durationMin a3 = 30 ->
  computeSchedule
    {| dayStartMin := 540; dayEndMin := 960; numberOfDays := n;
       breakIntervalMin := Some 60; breakDurationMin := Some 15;
       lunchTargetMin := None; lunchDurationMin := None |}
    [s] [a1; a2; a3] =
  [ activityRow s a1 540;
    breakRow "Break" TBreak (Some (section_id s)) 560 575;
    activityRow s a2 575;
    breakRow "Break" TBreak (Some (section_id s)) 620 635;
    activityRow s a3 635 ].
Proof.
  intros H1 H2 H3 D1 D2 D3. unfold computeSchedule.
  change (orderSections [s]) with [s].
  unfold walkSections. cbn [forEach].
  rewrite listOf_groupBySection by apply list_elem_of_singleton, eq_refl.
  rewrite !filter_cons, filter_nil, !decide_True by done.
  unfold forEach, step, placeActivity, beforeActivity, crossesLunch, needBreak,
    finish, lunchAtEnd, pushBreak, init, activityRow, breakRow; simpl.
  rewrite D1. simpl. rewrite D2. simpl. rewrite D3. simpl.
  reflexivity.
Qed.

Lemma computeSchedule_scenario_witness :
  let s := sec "s1" 1 None in
  let a1 := act "a1" 20 "s1" in
  let a2 := act "a2" 45 "s1" in
  let a3 := act "a3" 30 "s1" in
  (sectionId a1 = section_id s /\ durationMin a1 = 20) /\
  map span (computeSchedule cfgBreaks [s] [a1; a2; a3]) =
  [ (TActivity, 540, 560); (TBreak, 560, 575); (TActivity, 575, 620);
    (TBreak, 620, 635); (TActivity, 635, 665) ].
Proof.
  intros s a1 a2 a3. split; [split; reflexivity|].
  unfold cfgBreaks.
  rewrite (computeSchedule_scenario s a1 a2 a3 None);
    reflexivity.
Defined.

(** The scenario as the specification words it, with no break before
    activity 3, is not what [computeSchedule] returns. *)
Lemma computeSchedule_scenario_counterexample :
  map span
    (computeSchedule cfgBreaks [sec "s1" 1 None]
       [act "a1" 20 "s1"; act "a2" 45 "s1"; act "a3" 30 "s1"]) <>
  [ (TActivity, 540, 560); (TBreak, 560, 575); (TActivity, 575, 620);
    (TActivity, 620, 650) ].
Proof. vm_compute. discriminate. Qed.


(** *** One turn of the walk *)

(** The rows that [beforeActivity] puts in front of an activity. *)
Definition inserted (cfg : DayConfig) (s : AgendaSection) (a : Activity)
  (st : state) : list ComputedRow :=
  if crossesLunch cfg st a then
    [breakRow "Lunch" TLunch (Some (section_id s)) (clock st)
       (clock st + get (lunchDurationMin cfg))]
  else if needBreak cfg st a then
    [breakRow "Break" TBreak (Some (section_id s)) (clock st)
       (clock st + get (breakDurationMin cfg))]
  else [].

(** The minutes that [beforeActivity] adds to the clock. *)
Definition pause (cfg : DayConfig) (a : Activity) (st : state) : Z :=
  if crossesLunch cfg st a then get (lunchDurationMin cfg)
  else if needBreak cfg st a then get (breakDurationMin cfg)
  else 0.

Lemma beforeActivity_rows cfg s a st :
  rows (beforeActivity cfg s a st) = rows st ++ inserted cfg s a st.
Proof.
  unfold beforeActivity, inserted.
  destruct (crossesLunch cfg st a); [done|].
  destruct (needBreak cfg st a); [done|]. by rewrite app_nil_r.
Qed.

Lemma beforeActivity_clock cfg s a st :
  clock (beforeActivity cfg s a st) = clock st + pause cfg a st.
Proof.
  unfold beforeActivity, pause.
  destruct (crossesLunch cfg st a); [done|].
  destruct (needBreak cfg st a); simpl; [done|lia].
Qed.

Lemma beforeActivity_lunchInserted cfg s a st :
  lunchInserted (beforeActivity cfg s a st) =
  lunchInserted st || crossesLunch cfg st a.
Proof.
  unfold beforeActivity.
  destruct (crossesLunch cfg st a) eqn:E; simpl.
  - by rewrite orb_true_r.
  - rewrite orb_false_r. by destruct (needBreak cfg st a).
Qed.

Lemma step_Continue cfg s a st st' :
  step cfg s a st = Continue st' ->
  st' = placeActivity s a (beforeActivity cfg s a st) /\
  clock st' <= dayEndMin cfg.
Proof.
  unfold step.
  destruct (Z.ltb_spec (dayEndMin cfg)
              (clock (placeActivity s a (beforeActivity cfg s a st))));
    [done|].
  intros [= <-]. done.
Qed.

Lemma step_Return cfg s a st r :
  step cfg s a st = Return r ->
  let st' := placeActivity s a (beforeActivity cfg s a st) in
  r = rows st' ++ [overflowRow cfg s (clock st')] /\
  dayEndMin cfg < clock st'.
Proof.
  unfold step.
  destruct (Z.ltb_spec (dayEndMin cfg)
              (clock (placeActivity s a (beforeActivity cfg s a st))));
    [|done].
  intros [= <-]. done.
Qed.

Lemma placed_rows cfg s a st :
  rows (placeActivity s a (beforeActivity cfg s a st)) =
  rows st ++ inserted cfg s a st ++
    [activityRow s a (clock st + pause cfg a st)].
Proof.
  simpl. by rewrite beforeActivity_rows, beforeActivity_clock, <- app_assoc.
Qed.

Lemma crossesLunch_true cfg st a :
  crossesLunch cfg st a = true <->
  truthy (lunchTargetMin cfg) = true /\ truthy (lunchDurationMin cfg) = true /\
  lunchInserted st = false /\
  clock st < get (lunchTargetMin cfg) < clock st + durationMin a.
Proof.
  unfold crossesLunch.
  rewrite !andb_true_iff, negb_true_iff, !Z.ltb_lt. tauto.
Qed.

(** *** The walk as one loop *)

Definition turn (cfg : DayConfig) (p : AgendaSection * Activity)
  : state -> outcome state (list ComputedRow) :=
  step cfg p.1 p.2.

Lemma walkSections_turns cfg (bySection : gmap ID (list Activity)) ss st :
  walkSections cfg bySection ss st =
  forEach (turn cfg) (pairs (listOf bySection) ss) st.
Proof. unfold walkSections. apply forEach_nested. Qed.

(** What holds of the state after the pairs [l] have been walked without a
    [return]. *)
Record walked (cfg : DayConfig) (l : list (AgendaSection * Activity))
  (st : state) : Prop := mkWalked {
  walked_placed : omap placed (rows st) = visit <$> l;
  walked_no_overflow : Forall (fun r => row_type r <> TOverflow) (rows st);
  walked_in_day :
    Forall (fun r => row_type r = TActivity -> endMin r <= dayEndMin cfg)
      (rows st);
  walked_no_lunch :
    lunchInserted st = false ->
    Forall (fun r => row_type r <> TLunch) (rows st);
  walked_durations : Forall durationOk (rows st);
  walked_behind :
    0 <= get (breakDurationMin cfg) -> 0 <= get (lunchDurationMin cfg) ->
    Forall (fun p => 0 <= durationMin p.2) l ->
    behind (clock st) (rows st)
}.

Lemma walked_init cfg : walked cfg [] (init cfg).
Proof. split; first [done | intros; apply behind_nil]. Qed.

Lemma inserted_cases cfg s a st :
  (inserted cfg s a st = [] /\ crossesLunch cfg st a = false) \/
  (exists r, inserted cfg s a st = [r] /\ row_type r = TBreak /\
             crossesLunch cfg st a = false) \/
  (exists r, inserted cfg s a st = [r] /\ row_type r = TLunch /\
             crossesLunch cfg st a = true).
Proof.
  unfold inserted. destruct (crossesLunch cfg st a).
  - right. right. eexists. done.
  - destruct (needBreak cfg st a); [|by left].
    right. left. eexists. done.
Qed.

(** The rows in front of the activity row of a turn keep the invariant. *)
Lemma walked_before cfg l s a st :
  walked cfg l st ->
  omap placed (rows st ++ inserted cfg s a st) = visit <$> l /\
  Forall (fun r => row_type r <> TOverflow) (rows st ++ inserted cfg s a st) /\
  Forall (fun r => row_type r = TActivity -> endMin r <= dayEndMin cfg)
    (rows st ++ inserted cfg s a st) /\
  (lunchInserted st || crossesLunch cfg st a = false ->
   Forall (fun r => row_type r <> TLunch) (rows st ++ inserted cfg s a st)) /\
  Forall durationOk (rows st ++ inserted cfg s a st).
Proof.
  intros [Hp Ho Hd Hl Hdur _].
  destruct (inserted_cases cfg s a st)
    as [[-> E]|[(r & -> & Hr & E)|(r & -> & Hr & E)]].
  - rewrite app_nil_r, E, orb_false_r. done.
  - rewrite omap_app, !Forall_app, !Forall_singleton, E, orb_false_r.
    rewrite omap_placed_other, app_nil_r by congruence.
    unfold durationOk. rewrite Hr.
    repeat split; auto; congruence.
  - rewrite omap_app, !Forall_app, !Forall_singleton, E, orb_true_r.
    rewrite omap_placed_other, app_nil_r by congruence.
    unfold durationOk. rewrite Hr.
    repeat split; auto; congruence.
Qed.

Lemma pause_nonneg cfg a st :
  0 <= get (breakDurationMin cfg) -> 0 <= get (lunchDurationMin cfg) ->
  0 <= pause cfg a st.
Proof.
  intros. unfold pause.
  destruct (crossesLunch cfg st a); [done|].
  by destruct (needBreak cfg st a).
Qed.

Lemma behind_before cfg s a st :
  0 <= pause cfg a st ->
  behind (clock st) (rows st) ->
  behind (clock st + pause cfg a st) (rows st ++ inserted cfg s a st).
Proof.
  intros Hp Hb. unfold inserted, pause in *.
  destruct (crossesLunch cfg st a).
  - eapply behind_snoc; [done|done|lia].
  - destruct (needBreak cfg st a).
    + eapply behind_snoc; [done|done|lia].
    + rewrite app_nil_r. eapply behind_later; [|done]. lia.
Qed.

Lemma walked_turn cfg l p st st' :
  walked cfg l st -> turn cfg p st = Continue st' -> walked cfg (l ++ [p]) st'.
Proof.
  intros Hw Hstep. destruct p as [s a]. unfold turn in Hstep. simpl in Hstep.
  apply step_Continue in Hstep as [-> Hclock].
  destruct (walked_before cfg l s a st Hw) as (Hp & Ho & Hd & Hl & Hdur).
  simpl in Hclock. rewrite beforeActivity_clock in Hclock.
  split.
  - rewrite placed_rows, app_assoc, omap_app, Hp, fmap_app.
    by rewrite omap_placed_activityRow.
  - rewrite placed_rows, app_assoc, Forall_app. split; [done|].
    by repeat constructor.
  - rewrite placed_rows, app_assoc, Forall_app. split; [done|].
    repeat constructor. simpl. lia.
  - simpl. rewrite beforeActivity_lunchInserted, beforeActivity_rows.
    intros E. rewrite Forall_app. split; [auto|]. by repeat constructor.
  - rewrite placed_rows, app_assoc, Forall_app. split; [done|].
    repeat constructor. apply durationOk_activityRow.
  - intros Hb Hlu Hall. rewrite Forall_app, Forall_singleton in Hall.
    destruct Hall as [Hall Ha]. simpl in Ha.
    pose proof (pause_nonneg cfg a st Hb Hlu).
    rewrite placed_rows, app_assoc. simpl. rewrite beforeActivity_clock.
    eapply behind_snoc; [apply behind_before; [done|]|done|lia].
    by apply Hw.
Qed.

(** The two ways in which [computeSchedule] ends. *)
Lemma computeSchedule_cases cfg secs acts :
  let ordered := orderSections secs in
  (exists st,
     walkSections cfg (groupBySection ordered acts) ordered (init cfg)
       = Continue st /\
     walked cfg (walkOrder ordered acts) st /\
     computeSchedule cfg secs acts = finish cfg ordered st) \/
  (exists l1 s a l2 st1,
     walkSections cfg (groupBySection ordered acts) ordered (init cfg)
       = Return (computeSchedule cfg secs acts) /\
     walkOrder ordered acts = l1 ++ (s, a) :: l2 /\
     walked cfg l1 st1 /\
     let before := rows st1 ++ inserted cfg s a st1 in
     let start := clock st1 + pause cfg a st1 in
     dayEndMin cfg < start + durationMin a /\
     computeSchedule cfg secs acts =
       before ++ [activityRow s a start;
                  overflowRow cfg s (start + durationMin a)]).
Proof.
  intros ordered. unfold computeSchedule. fold ordered.
  rewrite !walkSections_turns. fold (walkOrder ordered acts).
  pose proof (forEach_prefix_inv (turn cfg) (walked cfg)
                (walkOrder ordered acts)
                (fun l1 x st st' _ => walked_turn cfg l1 x st st')
                [] (init cfg) (walked_init cfg)) as H.
  destruct (forEach (turn cfg) (walkOrder ordered acts) (init cfg))
    as [st|r].
  - left. exists st. done.
  - right. destruct H as (l1 & [s a] & l2 & st1 & Heq & Hw & Hret).
    exists l1, s, a, l2, st1. split; [done|]. split; [done|].
    split; [done|].
    apply step_Return in Hret as [-> Hlt]. simpl in Hlt.
    rewrite beforeActivity_clock in Hlt. split; [done|].
    rewrite placed_rows. simpl. rewrite beforeActivity_clock.
    rewrite <- !app_assoc. done.
Qed.

(** *** The walk from one of its turns on *)

(** The activity [a] of section [s] is the one considered at turn [k] of
    the walk of [computeSchedule], and [st] holds the locals [rows],
    [clock], [minutesSinceBreak] and [lunchInserted] when that turn
    starts. *)
Definition considered (cfg : DayConfig) (secs : list AgendaSection)
  (acts : list Activity) (k : nat) (s : AgendaSection) (a : Activity)
  (st : state) : Prop :=
  let walk := walkOrder (orderSections secs) acts in
  walk !! k = Some (s, a) /\
  forEach (turn cfg) (take k walk) (init cfg) = Continue st.

(** What [computeSchedule] returns when the walk goes on from [st] over the
    pairs [l]. *)
Definition goesOn (cfg : DayConfig) (ordered : list AgendaSection)
  (l : list (AgendaSection * Activity)) (st : state) : list ComputedRow :=
  match forEach (turn cfg) l st with
  | Continue st' => finish cfg ordered st'
  | Return r => r
  end.

Lemma finish_prefix cfg ordered st :
  exists more, finish cfg ordered st = rows st ++ more.
Proof.
  unfold finish. destruct (lunchAtEnd cfg st).
  - eexists. done.
  - exists []. by rewrite app_nil_r.
Qed.

Lemma goesOn_prefix cfg ordered l st :
  exists more, goesOn cfg ordered l st = rows st ++ more.
Proof.
  unfold goesOn. revert st. induction l as [|[s a] l IH]; intros st.
  - apply finish_prefix.
  - cbn [forEach]. unfold turn at 1. cbn [fst snd]. unfold step.
    destruct (_ <? _).
    + rewrite placed_rows, <- !app_assoc. eexists. done.
    + destruct (IH (placeActivity s a (beforeActivity cfg s a st)))
        as [more Hmore].
      rewrite Hmore, placed_rows, <- !app_assoc. eexists. done.
Qed.

Lemma considered_goesOn cfg secs acts k s a st :
  considered cfg secs acts k s a st ->
  let walk := walkOrder (orderSections secs) acts in
  computeSchedule cfg secs acts =
  goesOn cfg (orderSections secs) ((s, a) :: drop (S k) walk) st.
Proof.
  intros [Hk Hst] walk. unfold computeSchedule, goesOn.
  rewrite walkSections_turns. fold (walkOrder (orderSections secs) acts).
  fold walk in Hk, Hst |- *.
  rewrite <- (take_drop_middle walk k (s, a)) at 1 by done.
  by rewrite forEach_app, Hst.
Qed.

Lemma considered_next cfg secs acts k s a st :
  considered cfg secs acts k s a st ->
  forEach (turn cfg) (take (S k) (walkOrder (orderSections secs) acts))
    (init cfg) = step cfg s a st.
Proof.
  intros [Hk Hst]. erewrite take_S_r by done.
  rewrite forEach_app, Hst. cbn [forEach]. unfold turn. cbn [fst snd].
  by destruct (step cfg s a st).
Qed.

(** C4 (as amended): in [computeSchedule], take any turn of the walk, the
    activity [a] of section [s] it considers and the locals [st] at its
    start, with lunch configured (target and duration present and non-zero)
    and not yet inserted. When clock < lunchTargetMin < clock + durationMin
    (both strict), the rows returned are the rows so far, then the lunch row
    from the clock for [lunchDurationMin], then at once the row of the
    activity, which starts where the lunch ends, whether or not a break is
    due as well; if the activity then ends within the day, the next turn
    starts with the flag set and the clock [lunchDurationMin] and the
    duration later, and otherwise the overflow row follows and ends the
    rows. When the condition fails, the rows so far are followed by the
    break row, if one is due, and the row of the activity, with no lunch
    row between, and the flag stays unset. *)
Theorem lunch_before_activity (cfg : DayConfig) (secs : list AgendaSection)
  (acts : list Activity) (k : nat) (s : AgendaSection) (a : Activity)
  (st : state) :
  truthy (lunchTargetMin cfg) = true ->
  truthy (lunchDurationMin cfg) = true ->
  considered cfg secs acts k s a st ->
  lunchInserted st = false ->
  let target := get (lunchTargetMin cfg) in
  let len := get (lunchDurationMin cfg) in
  let pause := if needBreak cfg st a then get (breakDurationMin cfg) else 0 in
  let out := computeSchedule cfg secs acts in
  let next :=
    forEach (turn cfg) (take (S k) (walkOrder (orderSections secs) acts))
      (init cfg) in
  (clock st < target < clock st + durationMin a ->
     (exists more,
        out = rows st ++
          breakRow "Lunch" TLunch (Some (section_id s)) (clock st)
            (clock st + len) ::
          activityRow s a (clock st + len) :: more) /\
     (clock st + len + durationMin a <= dayEndMin cfg ->
      exists st', next = Continue st' /\
        lunchInserted st' = true /\
        clock st' = clock st + len + durationMin a) /\
     (dayEndMin cfg < clock st + len + durationMin a ->
      next = Return out /\
      out = rows st ++
        [ breakRow "Lunch" TLunch (Some (section_id s)) (clock st)
            (clock st + len);
          activityRow s a (clock st + len);
          overflowRow cfg s (clock st + len + durationMin a) ])) /\
  (~ (clock st < target < clock st + durationMin a) ->
     (exists more,
        out = rows st ++
          (if needBreak cfg st a
           then [breakRow "Break" TBreak (Some (section_id s)) (clock st)
                   (clock st + pause)]
           else []) ++
          activityRow s a (clock st + pause) :: more) /\
     (forall st', next = Continue st' ->
        lunchInserted st' = false /\
        clock st' = clock st + pause + durationMin a)).
Proof.
  intros Ht Hd Hcons Hl target len pause out next.
  pose proof (considered_goesOn cfg secs acts k s a st Hcons) as Hout.
  pose proof (considered_next cfg secs acts k s a st Hcons) as Hnext.
  fold out in Hout. fold next in Hnext. cbn zeta in Hout.
  unfold goesOn in Hout. cbn [forEach] in Hout.
  unfold turn at 1 in Hout. cbn [fst snd] in Hout.
  set (st1 := placeActivity s a (beforeActivity cfg s a st)).
  assert (Hstep : step cfg s a st =
                  if dayEndMin cfg <? clock st1
                  then Return (rows st1 ++ [overflowRow cfg s (clock st1)])
                  else Continue st1) by done.
  rewrite Hstep in Hout, Hnext.
  assert (Hrows : rows st1 = rows st ++ inserted cfg s a st ++
                    [activityRow s a (clock st + DirectFacts.pause cfg a st)])
    by apply placed_rows.
  assert (Hclock : clock st1 =
                   clock st + DirectFacts.pause cfg a st + durationMin a).
  { subst st1. cbn [placeActivity clock].
    by rewrite beforeActivity_clock. }
  assert (Hflag : lunchInserted st1 = crossesLunch cfg st a).
  { subst st1. cbn [placeActivity lunchInserted].
    by rewrite beforeActivity_lunchInserted, Hl. }
  assert (Hmore : exists more, out = rows st1 ++ more).
  { destruct (dayEndMin cfg <? clock st1); [by eexists|].
    rewrite Hout. apply (goesOn_prefix cfg (orderSections secs)). }
  split; intros Hx.
  - assert (E : crossesLunch cfg st a = true) by by apply crossesLunch_true.
    unfold inserted, DirectFacts.pause in Hrows, Hclock. rewrite E in *.
    fold len in Hrows, Hclock.
    split; [|split].
    + destruct Hmore as [more ->]. exists more.
      by rewrite Hrows, <- !app_assoc.
    + intros Hin. exists st1.
      destruct (Z.ltb_spec (dayEndMin cfg) (clock st1)); [lia|]. done.
    + intros Hover.
      destruct (Z.ltb_spec (dayEndMin cfg) (clock st1)); [|lia].
      rewrite Hout. split; [done|].
      by rewrite Hrows, Hclock, <- !app_assoc.
  - assert (E : crossesLunch cfg st a = false).
    { apply not_true_is_false. rewrite crossesLunch_true. tauto. }
    unfold inserted, DirectFacts.pause in Hrows, Hclock. rewrite E in *.
    fold pause in Hclock.
    split.
    + destruct Hmore as [more ->]. exists more.
      rewrite Hrows, <- !app_assoc. subst pause.
      by destruct (needBreak cfg st a).
    + intros st' Hst'. rewrite Hnext in Hst'.
      destruct (dayEndMin cfg <? clock st1); [done|].
      injection Hst' as <-. by rewrite Hflag, Hclock.
Qed.

Definition cfgLunch (target : Z) : DayConfig :=
  {| dayStartMin := 540; dayEndMin := 960; numberOfDays := None;
     breakIntervalMin := None; breakDurationMin := None;
     lunchTargetMin := Some target; lunchDurationMin := Some 60 |}.

Definition cfgLunchAndBreak : DayConfig :=
  {| dayStartMin := 540; dayEndMin := 1020; numberOfDays := None;
     breakIntervalMin := Some 60; breakDurationMin := Some 15;
     lunchTargetMin := Some 720; lunchDurationMin := Some 60 |}.

(** The second turn of a walk: a break and the lunch are both due. *)
Lemma lunch_before_activity_witness :
  let cfg := cfgLunchAndBreak in
  let s := sec "s1" 1 None in
  let a1 := act "a1" 100 "s1" in
  let a2 := act "a2" 100 "s1" in
  let st := placeActivity s a1 (beforeActivity cfg s a1 (init cfg)) in
  (considered cfg [s] [a1; a2] 1 s a2 st /\
   lunchInserted st = false /\ needBreak cfg st a2 = true /\
   clock st < 720 < clock st + durationMin a2 /\
   clock st + 60 + durationMin a2 <= dayEndMin cfg) /\
  (exists more,
     computeSchedule cfg [s] [a1; a2] =
     rows st ++
       breakRow "Lunch" TLunch (Some "s1"%string) 655 715 ::
       activityRow s a2 715 :: more) /\
  (exists st',
     forEach (turn cfg) (take 2 (walkOrder (orderSections [s]) [a1; a2]))
       (init cfg) = Continue st' /\
     lunchInserted st' = true /\ clock st' = 815) /\
  map span (computeSchedule cfg [s] [a1; a2]) =
  [(TBreak, 540, 555); (TActivity, 555, 655); (TLunch, 655, 715);
   (TActivity, 715, 815)].
Proof.
  intros cfg s a1 a2 st.
  assert (Hcons : considered cfg [s] [a1; a2] 1 s a2 st)
    by (split; reflexivity).
  assert (Hx : clock st < 720 < clock st + durationMin a2)
    by (vm_compute; split; reflexivity).
  assert (Hin : clock st + 60 + durationMin a2 <= dayEndMin cfg)
    by (vm_compute; discriminate).
  split; [by repeat split|].
  destruct (lunch_before_activity cfg [s] [a1; a2] 1 s a2 st
              eq_refl eq_refl Hcons eq_refl) as [Hyes _].
  destruct (Hyes Hx) as (Hout & Hnext & _).
  split; [exact Hout|]. split; [exact (Hnext Hin)|]. reflexivity.
Defined.

(** An activity that ends exactly at the lunch target:
    [clock < lunchTargetMin <= clock + durationMin] holds when it is
    considered, yet no lunch row goes before the activity; the closing lunch
    of the walk follows it. *)
Lemma lunch_before_activity_counterexample :
  let cfg := cfgLunch 720 in
  let s := sec "s1" 1 None in
  let a := act "a1" 180 "s1" in
  (truthy (lunchTargetMin cfg) = true /\
   truthy (lunchDurationMin cfg) = true /\
   considered cfg [s] [a] 0 s a (init cfg) /\
   lunchInserted (init cfg) = false /\
   clock (init cfg) < 720 <= clock (init cfg) + durationMin a) /\
  map span (rows (placeActivity s a (beforeActivity cfg s a (init cfg)))) =
  [(TActivity, 540, 720)] /\
  map span (computeSchedule cfg [s] [a]) =
  [(TActivity, 540, 720); (TLunch, 720, 780)].
Proof. vm_compute. repeat split; congruence. Qed.

(** In a list with exactly one element of a kind, a split at such an element
    is the split at that one. *)
Lemma split_at_only {A : Type} (Q : A -> Prop) (front tail pre post : list A)
  (x r : A) :
  Forall (fun y => ~ Q y) front -> Forall (fun y => ~ Q y) tail -> Q r ->
  pre ++ r :: post = front ++ x :: tail ->
  pre = front /\ r = x /\ post = tail.
Proof.
  intros Hfront Htail Hr. revert pre.
  induction front as [|y front IH]; intros pre Heq.
  - destruct pre as [|z pre]; simplify_eq/=; [done|].
    exfalso. rewrite Forall_forall in Htail.
    apply (Htail r); [|done]. apply elem_of_app. right. by left.
  - apply Forall_cons in Hfront as [Hy Hfront].
    destruct pre as [|z pre]; simplify_eq/=; [done|].
    destruct (IH Hfront pre) as (-> & -> & ->); done.
Qed.

Definition pastDayEnd (cfg : DayConfig) (r : ComputedRow) : Prop :=
  row_type r = TActivity /\ dayEndMin cfg < endMin r.

Lemma in_day_not_past cfg (l : list ComputedRow) :
  Forall (fun r => row_type r = TActivity -> endMin r <= dayEndMin cfg) l ->
  Forall (fun r => ~ pastDayEnd cfg r) l.
Proof.
  intros Hall. eapply Forall_impl; [exact Hall|].
  intros r H [Ht Hlt]. specialize (H Ht). simpl in *. lia.
Qed.

(** C3: when the clock passes [dayEndMin] after an activity is placed, that
    is, when some activity row ends after [dayEndMin], the row that follows
    it is the single overflow row, from [dayEndMin] to the clock, and it is
    the last row. No other row is an overflow row, and the activity rows are
    those of an initial part of the walk order that ends with the triggering
    activity: nothing ordered after it is shown. *)
Theorem overflow_ends_walk (cfg : DayConfig) (secs : list AgendaSection)
  (acts : list Activity) (pre post : list ComputedRow) (r : ComputedRow) :
  computeSchedule cfg secs acts = pre ++ r :: post ->
  row_type r = TActivity ->
  dayEndMin cfg < endMin r ->
  post = [ {| row_id := "overflow-" +:+ pretty (endMin r);
              row_type := TOverflow;
              row_sectionId := row_sectionId r;
              startMin := dayEndMin cfg;
              endMin := endMin r;
              computed := true;
              payload := PLabel "Runs past end of day" |} ] /\
  Forall (fun x => row_type x <> TOverflow) (pre ++ [r]) /\
  exists visited rest,
    walkOrder (orderSections secs) acts = visited ++ rest /\
    omap placed (pre ++ [r]) = visit <$> visited.
Proof.
  intros Heq Ht Hlt.
  destruct (computeSchedule_cases cfg secs acts)
    as [(st & _ & Hw & Hfin)|
        (l1 & s & a & l2 & st1 & _ & Hord & Hw & _ & Hres)].
  - exfalso. rewrite Hfin in Heq.
    assert (Hall : Forall (fun r => ~ pastDayEnd cfg r)
                     (finish cfg (orderSections secs) st)).
    { apply in_day_not_past. unfold finish.
      destruct (lunchAtEnd cfg st); [|apply Hw].
      simpl. rewrite Forall_app, Forall_singleton. split; [apply Hw|].
      simpl. done. }
    rewrite Heq, Forall_forall in Hall. apply (Hall r); [|done].
    apply elem_of_app. right. by left.
  - rewrite Hres in Heq.
    destruct (walked_before cfg l1 s a st1 Hw) as (Hp & Ho & Hd & _ & _).
    symmetry in Heq.
    apply (split_at_only (pastDayEnd cfg)) in Heq as (-> & -> & ->).
    + split; [done|]. split.
      * rewrite Forall_app, Forall_singleton. done.
      * exists (l1 ++ [(s, a)]), l2. split.
        { by rewrite <- app_assoc. }
        by rewrite omap_app, Hp, fmap_app, omap_placed_activityRow.
    + by apply in_day_not_past.
    + rewrite Forall_singleton. by intros [? _].
    + done.
Qed.

Lemma overflow_ends_walk_witness :
  let cfg := cfgBreaks in
  let s := sec "s1" 1 None in
  let a1 := act "a1" 400 "s1" in
  let a2 := act "a2" 30 "s1" in
  let a3 := act "a3" 30 "s1" in
  exists pre r post,
    computeSchedule cfg [s] [a1; a2; a3] = pre ++ r :: post /\
    row_type r = TActivity /\ dayEndMin cfg < endMin r /\
    map span (pre ++ r :: post) =
    [(TBreak, 540, 555); (TActivity, 555, 955); (TBreak, 955, 970);
     (TActivity, 970, 1000); (TOverflow, 960, 1000)].
Proof.
  intros cfg s a1 a2 a3. subst cfg s a1 a2 a3.
  eexists (firstn 3 (computeSchedule cfgBreaks [sec "s1" 1 None]
             [act "a1" 400 "s1"; act "a2" 30 "s1"; act "a3" 30 "s1"])),
          (activityRow (sec "s1" 1 None) (act "a2" 30 "s1") 970), _.
  assert (Heq : computeSchedule cfgBreaks [sec "s1" 1 None]
             [act "a1" 400 "s1"; act "a2" 30 "s1"; act "a3" 30 "s1"] =
           firstn 3 (computeSchedule cfgBreaks [sec "s1" 1 None]
             [act "a1" 400 "s1"; act "a2" 30 "s1"; act "a3" 30 "s1"]) ++
           activityRow (sec "s1" 1 None) (act "a2" 30 "s1") 970 ::
           [overflowRow cfgBreaks (sec "s1" 1 None) 1000])
    by reflexivity.
  destruct (overflow_ends_walk _ _ _ _ _ _ Heq) as (Hpost & _);
    [reflexivity|simpl; lia|].
  split; [exact Heq|]. split; [reflexivity|]. split; [simpl; lia|].
  reflexivity.
Defined.

(** C6 (as amended): with lunch configured, when the walk runs to its end
    and has inserted no lunch, no row so far is a lunch row, and a closing
    lunch row is appended after the last row, under the last section in
    display order (under none when there is no section), exactly when the
    clock is not past [dayEndMin] and [lunchTargetMin] is not before
    [dayStartMin]. The target is not compared with [dayEndMin]. *)
Theorem closing_lunch (cfg : DayConfig) (secs : list AgendaSection)
  (acts : list Activity) (st : state) :
  truthy (lunchTargetMin cfg) = true ->
  truthy (lunchDurationMin cfg) = true ->
  walkSections cfg (groupBySection (orderSections secs) acts)
    (orderSections secs) (init cfg) = Continue st ->
  lunchInserted st = false ->
  Forall (fun r => row_type r <> TLunch) (rows st) /\
  (clock st <= dayEndMin cfg /\ dayStartMin cfg <= get (lunchTargetMin cfg) ->
   computeSchedule cfg secs acts =
   rows st ++
     [breakRow "Lunch" TLunch (section_id <$> last (orderSections secs))
        (clock st) (clock st + get (lunchDurationMin cfg))]) /\
  (~ (clock st <= dayEndMin cfg /\
      dayStartMin cfg <= get (lunchTargetMin cfg)) ->
   computeSchedule cfg secs acts = rows st).
Proof.
  intros Ht Hd Hwalk Hl.
  destruct (computeSchedule_cases cfg secs acts)
    as [(st' & Hwalk' & Hw & Hfin)|(l1 & s & a & l2 & st1 & Hret & _)].
  - rewrite Hwalk in Hwalk'. injection Hwalk' as <-.
    split; [by apply Hw|]. rewrite Hfin. unfold finish, lunchAtEnd.
    rewrite Ht, Hd, Hl. simpl. split.
    + intros [H1 H2].
      apply Z.leb_le in H1. apply Z.leb_le in H2. by rewrite H1, H2.
    + intros Hn.
      destruct (Z.leb_spec (clock st) (dayEndMin cfg)); [|done].
      destruct (Z.leb_spec (dayStartMin cfg) (get (lunchTargetMin cfg)));
        [|done].
      exfalso. apply Hn. done.
  - rewrite Hwalk in Hret. done.
Qed.

Lemma closing_lunch_witness :
  let cfg := cfgLunch 900 in
  let s := sec "s1" 1 None in
  let a := act "a1" 30 "s1" in
  (truthy (lunchTargetMin cfg) = true /\
   truthy (lunchDurationMin cfg) = true) /\
  map span (computeSchedule cfg [s] [a]) =
  [(TActivity, 540, 570); (TLunch, 570, 630)].
Proof.
  intros cfg s a. subst cfg s a. split; [split; reflexivity|].
  destruct (closing_lunch (cfgLunch 900) [sec "s1" 1 None]
              [act "a1" 30 "s1"]
              {| rows := [activityRow (sec "s1" 1 None) (act "a1" 30 "s1") 540];
                 clock := 570; minutesSinceBreak := 30;
                 lunchInserted := false |})
    as (_ & Hyes & _); [reflexivity..|].
  rewrite Hyes; [reflexivity|]. simpl. lia.
Defined.

(** A lunch target after the end of the day: the target is outside the day
    bounds, the walk ends without a lunch, and the closing lunch row is
    appended all the same. *)
Lemma closing_lunch_counterexample :
  let cfg := cfgLunch 1000 in
  let s := sec "s1" 1 None in
  let a := act "a1" 30 "s1" in
  ~ (dayStartMin cfg <= get (lunchTargetMin cfg) <= dayEndMin cfg) /\
  (exists st,
     walkSections cfg (groupBySection (orderSections [s]) [a])
       (orderSections [s]) (init cfg) = Continue st /\
     lunchInserted st = false) /\
  map span (computeSchedule cfg [s] [a]) =
  [(TActivity, 540, 570); (TLunch, 570, 630)].
Proof.
  intros cfg s a. split; [simpl; lia|]. split; [|reflexivity].
  eexists. split; reflexivity.
Qed.

(** *** Durations and order of the rows *)

Lemma computeSchedule_durations cfg secs acts :
  Forall durationOk (computeSchedule cfg secs acts).
Proof.
  destruct (computeSchedule_cases cfg secs acts)
    as [(st & _ & Hw & ->)|(l1 & s & a & l2 & st1 & _ & _ & Hw & _ & ->)].
  - unfold finish. destruct (lunchAtEnd cfg st); [|apply Hw].
    simpl. rewrite Forall_app, Forall_singleton. split; [apply Hw|].
    apply durationOk_other. simpl. done.
  - destruct (walked_before cfg l1 s a st1 Hw) as (_ & _ & _ & _ & Hdur).
    rewrite Forall_app. split; [done|].
    repeat constructor; [apply durationOk_activityRow|].
    by apply durationOk_other.
Qed.

(** No duration is negative. *)
Definition sound (cfg : DayConfig) (acts : list Activity) : Prop :=
  Forall (fun a => 0 <= durationMin a) acts /\
  0 <= get (breakDurationMin cfg) /\ 0 <= get (lunchDurationMin cfg).

(** With no negative duration, the rows other than the overflow row are in
    non-decreasing order of [startMin]. *)
Lemma computeSchedule_order cfg secs acts :
  sound cfg acts ->
  nonDecreasing
    (filter (fun r => row_type r <> TOverflow) (computeSchedule cfg secs acts)).
Proof.
  intros (Hacts & Hb & Hl).
  assert (Hin : Forall (fun p => 0 <= durationMin p.2)
                  (walkOrder (orderSections secs) acts)).
  { apply Forall_forall. intros [s a] Hp.
    apply walkOrder_elem_of in Hp as (_ & Ha & _).
    rewrite Forall_forall in Hacts. by apply Hacts. }
  destruct (computeSchedule_cases cfg secs acts)
    as [(st & _ & Hw & ->)|
        (l1 & s & a & l2 & st1 & _ & Hord & Hw & _ & ->)].
  - pose proof (walked_behind _ _ _ Hw Hb Hl Hin) as Hbehind.
    unfold finish. destruct (lunchAtEnd cfg st).
    + simpl. rewrite filter_all.
      * eapply (behind_snoc _ (clock st + get (lunchDurationMin cfg)));
          [done|done|lia].
      * rewrite Forall_app, Forall_singleton. split; [apply Hw|done].
    + rewrite filter_all; [apply Hbehind|apply Hw].
  - rewrite Hord, Forall_app, Forall_cons in Hin.
    destruct Hin as (Hin1 & Ha & _). simpl in Ha.
    pose proof (walked_behind _ _ _ Hw Hb Hl Hin1) as Hbehind.
    destruct (walked_before cfg l1 s a st1 Hw) as (_ & Ho & _).
    pose proof (pause_nonneg cfg a st1 Hb Hl).
    rewrite filter_app, filter_cons_True, filter_cons_False, filter_nil
      by (simpl; auto).
    rewrite filter_all by done.
    eapply (behind_snoc _ (clock st1 + pause cfg a st1 + durationMin a));
      [by apply behind_before|done|lia].
Qed.

(** An activity of no listed section changes nothing. *)
Lemma computeSchedule_orphan cfg secs l1 a l2 :
  sectionId a ∉ ids secs ->
  computeSchedule cfg secs (l1 ++ a :: l2) = computeSchedule cfg secs (l1 ++ l2).
Proof.
  intros Hno. unfold computeSchedule.
  rewrite groupBySection_orphan; [done|]. by rewrite orderSections_ids.
Qed.

End DirectFacts.

(** ** Day-Partitioned Walker *)

Module DayWalkFacts.

Import DayWalk.

(** The rows of the activities [l] of one section, placed back to back from
    the minute [c]. *)
Fixpoint chain (s : AgendaSection) (c : Z) (l : list Activity)
  : list ComputedRow :=
  match l with
  | [] => []
  | a :: l' => activityRow s a c :: chain s (c + durationMin a) l'
  end.

Fixpoint total (l : list Activity) : Z :=
  match l with
  | [] => 0
  | a :: l' => durationMin a + total l'
  end.

Lemma foldl_placeActivity s l st :
  let st' := foldl (placeActivity s) st l in
  rows st' = rows st ++ chain s (clock st) l /\
  clock st' = clock st + total l /\
  currentDayNumber st' = currentDayNumber st.
Proof.
  revert st. induction l as [|a l IH]; intros st; simpl.
  - rewrite app_nil_r. split; [done|]. split; [lia|done].
  - destruct (IH (placeActivity s st a)) as (-> & -> & ->). simpl.
    rewrite <- app_assoc. split; [done|]. split; [lia|done].
Qed.

(** The minute at which the walk of a section starts. *)
Definition sectionStart (cfg : DayConfig) (s : AgendaSection) (st : state)
  : Z :=
  if decide (default (currentDayNumber st) (dayNumber s) <> currentDayNumber st)
  then dayStartMin cfg else clock st.

Lemma enterSection_clock cfg s st :
  clock (enterSection cfg s st) = sectionStart cfg s st.
Proof. unfold enterSection, sectionStart. by case_decide. Qed.

Lemma enterSection_rows cfg s st : rows (enterSection cfg s st) = rows st.
Proof. unfold enterSection. by case_decide. Qed.

Lemma walkSection_rows cfg bySection st s :
  rows (walkSection cfg bySection st s) =
  rows st ++ chain s (sectionStart cfg s st) (listOf bySection s).
Proof.
  unfold walkSection.
  destruct (foldl_placeActivity s (listOf bySection s) (enterSection cfg s st))
    as (-> & _). by rewrite enterSection_rows, enterSection_clock.
Qed.

Lemma walkSection_clock cfg bySection st s :
  clock (walkSection cfg bySection st s) =
  sectionStart cfg s st + total (listOf bySection s).
Proof.
  unfold walkSection.
  destruct (foldl_placeActivity s (listOf bySection s) (enterSection cfg s st))
    as (_ & -> & _). by rewrite enterSection_clock.
Qed.

Lemma chain_lookup s c l i :
  chain s c l !! i =
  (fun a => activityRow s a (c + total (take i l))) <$> l !! i.
Proof.
  revert c i. induction l as [|a l IH]; intros c i; [done|].
  destruct i as [|i]; simpl.
  - f_equal. f_equal. lia.
  - rewrite IH. destruct (l !! i); simpl; [|done]. do 2 f_equal. lia.
Qed.

Lemma total_take_S l i a :
  l !! i = Some a -> total (take (S i) l) = total (take i l) + durationMin a.
Proof.
  revert i. induction l as [|b l IH]; intros i H; [done|].
  destruct i as [|i]; simpl in *.
  - injection H as ->. lia.
  - rewrite (IH i H). lia.
Qed.

(** In a chain every row starts where the row before it ended. *)
Lemma chain_adjacent s c l i r1 r2 :
  chain s c l !! i = Some r1 -> chain s c l !! S i = Some r2 ->
  startMin r2 = endMin r1.
Proof.
  rewrite !chain_lookup. intros H1 H2.
  destruct (l !! i) as [a1|] eqn:E1; [|done].
  destruct (l !! S i) as [a2|] eqn:E2; [|done].
  simpl in *. injection H1 as <-. injection H2 as <-. simpl.
  rewrite (total_take_S _ _ _ E1). lia.
Qed.

Lemma chain_rows s c l :
  Forall (fun r => row_type r = TActivity /\ computed r = false /\
                   durationOk r) (chain s c l) /\
  omap placed (chain s c l) = (fun a => visit (s, a)) <$> l.
Proof.
  revert c. induction l as [|a l IH]; intros c; [done|].
  destruct (IH (c + durationMin a)) as [H1 H2]. cbn [chain]. split.
  - constructor; [|done]. repeat split. apply durationOk_activityRow.
  - change (activityRow s a c :: chain s (c + durationMin a) l)
      with ([activityRow s a c] ++ chain s (c + durationMin a) l).
    by rewrite fmap_cons, omap_app, omap_placed_activityRow, H2.
Qed.

(** The rows and the final clock of the whole walk, section by section. *)
Lemma walk_rows cfg bySection ss st :
  let st' := foldl (walkSection cfg bySection) st ss in
  Forall (fun r => row_type r = TActivity /\ computed r = false /\
                   durationOk r) (rows st) ->
  Forall (fun r => row_type r = TActivity /\ computed r = false /\
                   durationOk r) (rows st') /\
  omap placed (rows st') =
  omap placed (rows st) ++ (visit <$> pairs (listOf bySection) ss).
Proof.
  revert st. induction ss as [|s ss IH]; intros st; cbn [foldl].
  - intros H. by rewrite app_nil_r.
  - intros H.
    destruct (IH (walkSection cfg bySection st s)) as [H1 H2].
    + rewrite walkSection_rows, Forall_app. split; [done|]. apply chain_rows.
    + split; [done|]. rewrite H2, walkSection_rows, omap_app, <- app_assoc.
      f_equal. unfold pairs. rewrite bind_cons, fmap_app. f_equal.
      rewrite (proj2 (chain_rows _ _ _)). by rewrite <- list_fmap_compose.
Qed.

Lemma orderSectionsByDay_ids (k : ID) (ss : list AgendaSection) :
  k ∈ ids (orderSectionsByDay ss) <-> k ∈ ids ss.
Proof.
  unfold ids, orderSectionsByDay.
  by rewrite (fmap_Permutation _ _ _ (sortBy_perm _ ss)).
Qed.

(** *** The rows, day by day *)

(** The day that the walk tracks at its start. *)
Definition firstDay (ordered : list AgendaSection) : Z :=
  match ordered with
  | s :: _ => default 1 (dayNumber s)
  | [] => 1
  end.

(** The rows of the sections [ss] when the walk reaches them at the minute
    [c] with the tracked day [day]: a section of another day starts at
    [dayStartMin] and becomes the tracked day, a section of the tracked day
    or of no day starts at [c]; the activities of a section follow one
    another, whatever the end of the day. *)
Fixpoint sectionsRows (cfg : DayConfig) (bySection : gmap ID (list Activity))
  (day c : Z) (ss : list AgendaSection) : list ComputedRow :=
  match ss with
  | [] => []
  | s :: ss' =>
      let secDay := default day (dayNumber s) in
      let start := if decide (secDay <> day) then dayStartMin cfg else c in
      chain s start (listOf bySection s) ++
      sectionsRows cfg bySection secDay (start + total (listOf bySection s))
        ss'
  end.

Lemma walkSection_day cfg bySection st s :
  currentDayNumber (walkSection cfg bySection st s) =
  default (currentDayNumber st) (dayNumber s).
Proof.
  unfold walkSection.
  destruct (foldl_placeActivity s (listOf bySection s) (enterSection cfg s st))
    as (_ & _ & ->).
  unfold enterSection. case_decide as H; [done|]. congruence.
Qed.

Lemma walk_sectionsRows cfg bySection ss st :
  rows (foldl (walkSection cfg bySection) st ss) =
  rows st ++ sectionsRows cfg bySection (currentDayNumber st) (clock st) ss.
Proof.
  revert st. induction ss as [|s ss IH]; intros st; cbn [foldl sectionsRows].
  - by rewrite app_nil_r.
  - rewrite IH, walkSection_rows, walkSection_clock, walkSection_day.
    by rewrite <- app_assoc.
Qed.

Lemma chain_sectionId s c l :
  Forall (fun r => row_sectionId r = Some (section_id s)) (chain s c l).
Proof.
  revert c. induction l as [|a l IH]; intros c; cbn [chain]; [done|].
  constructor; [done|apply IH].
Qed.

Lemma sectionsRows_sectionId cfg bySection day c ss :
  Forall (fun r => exists k, row_sectionId r = Some k /\ k ∈ ids ss)
         (sectionsRows cfg bySection day c ss).
Proof.
  revert day c. induction ss as [|s ss IH]; intros day c;
    cbn [sectionsRows]; [done|].
  apply Forall_app. split.
  - eapply Forall_impl; [apply chain_sectionId|]. intros r Hr.
    exists (section_id s). split; [done|]. by left.
  - eapply Forall_impl; [apply IH|]. intros r (k & Hr & Hk).
    exists k. split; [done|]. by right.
Qed.

(** With distinct section ids, two rows in a row of the same section are
    back to back. *)
Lemma sectionsRows_adjacent cfg bySection day c ss i r1 r2 :
  NoDup (ids ss) ->
  sectionsRows cfg bySection day c ss !! i = Some r1 ->
  sectionsRows cfg bySection day c ss !! S i = Some r2 ->
  row_sectionId r1 = row_sectionId r2 ->
  startMin r2 = endMin r1.
Proof.
  revert day c i. induction ss as [|s ss IH]; intros day c i Hnd H1 H2 Hsame;
    cbn [sectionsRows] in *; [done|].
  apply NoDup_cons in Hnd as [Hs Hnd].
  set (start := if decide (default day (dayNumber s) <> day)
                then dayStartMin cfg else c) in *.
  set (ch := chain s start (listOf bySection s)) in *.
  destruct (decide (S i < length ch)%nat) as [Hlt|Hge].
  - rewrite lookup_app_l in H1, H2 by lia. by eapply chain_adjacent.
  - destruct (decide (i < length ch)%nat) as [Hi|Hi].
    + exfalso. rewrite lookup_app_l in H1 by lia.
      rewrite lookup_app_r in H2 by lia.
      pose proof (chain_sectionId s start (listOf bySection s)) as Hch.
      rewrite Forall_forall in Hch.
      specialize (Hch r1 (list_elem_of_lookup_2 _ _ _ H1)).
      pose proof (sectionsRows_sectionId cfg bySection
                    (default day (dayNumber s))
                    (start + total (listOf bySection s)) ss) as Hrest.
      rewrite Forall_forall in Hrest.
      destruct (Hrest r2 (list_elem_of_lookup_2 _ _ _ H2)) as (k & Hk & Hin).
      apply Hs. rewrite Hsame, Hk in Hch. by injection Hch as <-.
    + rewrite lookup_app_r in H1, H2 by lia.
      replace (S i - length ch)%nat with (S (i - length ch)) in H2 by lia.
      by eapply IH.
Qed.

(** C8: [buildScheduleFromActivities] returns the rows of the sections in
    walk order, from [dayStartMin] on: a section whose day number differs
    from the tracked day starts at [dayStartMin] and its day becomes the
    tracked day; any other section starts at the running clock; inside a
    section every activity starts where the one before it ended, whatever
    [dayEndMin]. The rows are activity rows only, none of them computed, one
    for every activity of a listed section in walk order; with distinct
    section ids, two rows in a row of the same section are back to back;
    neither [dayEndMin] nor [numberOfDays] has any effect on the result. *)
Theorem walk_never_rolls_over (cfg : DayConfig) (secs : list AgendaSection)
  (acts : list Activity) :
  let ordered := orderSectionsByDay secs in
  let bySection := groupBySection ordered acts in
  let out := buildScheduleFromActivities cfg secs acts in
  out = sectionsRows cfg bySection (firstDay ordered) (dayStartMin cfg)
          ordered /\
  Forall (fun r => row_type r = TActivity /\ computed r = false) out /\
  omap placed out = visit <$> walkOrder ordered acts /\
  (NoDup (ids secs) ->
   forall i r1 r2,
     out !! i = Some r1 -> out !! S i = Some r2 ->
     row_sectionId r1 = row_sectionId r2 ->
     startMin r2 = endMin r1) /\
  (forall dayEnd days,
     buildScheduleFromActivities
       {| dayStartMin := dayStartMin cfg; dayEndMin := dayEnd;
          numberOfDays := days;
          breakIntervalMin := breakIntervalMin cfg;
          breakDurationMin := breakDurationMin cfg;
          lunchTargetMin := lunchTargetMin cfg;
          lunchDurationMin := lunchDurationMin cfg |} secs acts = out).
Proof.
  intros ordered bySection out.
  assert (Hout : out = sectionsRows cfg bySection (firstDay ordered)
                         (dayStartMin cfg) ordered).
  { subst out. unfold buildScheduleFromActivities.
    fold ordered. fold bySection. by rewrite walk_sectionsRows. }
  destruct (walk_rows cfg bySection ordered (init cfg ordered)) as [H1 H2];
    [done|].
  split; [exact Hout|]. split; [|split; [|split]].
  - eapply Forall_impl; [exact H1|]. simpl. tauto.
  - exact H2.
  - intros Hnd i r1 r2. rewrite Hout.
    apply sectionsRows_adjacent.
    unfold ids, ordered, orderSectionsByDay.
    by rewrite (fmap_Permutation _ _ _ (sortBy_perm _ secs)).
  - intros dayEnd days. done.
Qed.

(** An activity that runs past the end of day 1, and two sections of
    day 2. *)
Definition overtimeSections : list AgendaSection :=
  [sec "s1" 1 (Some 1); sec "s2" 2 (Some 2); sec "s3" 3 (Some 2)].

Definition overtimeActivities : list Activity :=
  [act "a1" 500 "s1"; act "a2" 30 "s1"; act "b1" 60 "s2"; act "c1" 30 "s3"].

Lemma walk_never_rolls_over_witness :
  let out :=
    buildScheduleFromActivities cfgBreaks overtimeSections
      overtimeActivities in
  let s1 := sec "s1" 1 (Some 1) in
  let r1 := activityRow s1 (act "a1" 500 "s1") 540 in
  let r2 := activityRow s1 (act "a2" 30 "s1") 1040 in
  NoDup (ids overtimeSections) /\
  out !! 0%nat = Some r1 /\ out !! 1%nat = Some r2 /\
  startMin r2 = endMin r1 /\
  dayEndMin cfgBreaks < endMin r1 /\
  map span out =
  [(TActivity, 540, 1040); (TActivity, 1040, 1070); (TActivity, 540, 600);
   (TActivity, 600, 630)].
Proof.
  intros out s1 r1 r2.
  assert (Hnd : NoDup (ids overtimeSections)).
  { apply (bool_decide_unpack _). by vm_compute. }
  destruct (walk_never_rolls_over cfgBreaks overtimeSections
              overtimeActivities) as (_ & _ & _ & Hadj & _).
  split; [exact Hnd|]. split; [reflexivity|]. split; [reflexivity|].
  split; [apply (Hadj Hnd 0%nat); reflexivity|].
  split; [reflexivity|reflexivity].
Defined.

(** *** Durations and order of the rows *)

Lemma buildScheduleFromActivities_durations cfg secs acts :
  Forall durationOk (buildScheduleFromActivities cfg secs acts).
Proof.
  unfold buildScheduleFromActivities.
  destruct (walk_rows cfg
              (groupBySection (orderSectionsByDay secs) acts)
              (orderSectionsByDay secs)
              (init cfg (orderSectionsByDay secs))) as [H1 _]; [done|].
  eapply Forall_impl; [exact H1|]. simpl. tauto.
Qed.

Lemma behind_chain s c l rs :
  Forall (fun a => 0 <= durationMin a) l ->
  behind c rs -> behind (c + total l) (rs ++ chain s c l).
Proof.
  revert c rs. induction l as [|a l IH]; intros c rs Hl Hb; simpl.
  - rewrite app_nil_r, Z.add_0_r. done.
  - apply Forall_cons in Hl as [Ha Hl].
    rewrite cons_middle, app_assoc, Z.add_assoc. apply IH; [done|].
    eapply behind_snoc; [done|done|lia].
Qed.

(** A section of day [day], where a missing day number counts as day 1,
    leaves the tracked day [day] as it is. *)
Lemma same_day_tracked (s : AgendaSection) (day : Z) :
  default 1 (dayNumber s) = day -> default day (dayNumber s) = day.
Proof. by destruct (dayNumber s). Qed.

(** With no negative duration and every section on the same day, a missing
    day number counting as day 1, the rows are in non-decreasing order of
    [startMin]. *)
Lemma buildScheduleFromActivities_order cfg secs acts day :
  Forall (fun a => 0 <= durationMin a) acts ->
  Forall (fun s => default 1 (dayNumber s) = day) secs ->
  nonDecreasing (buildScheduleFromActivities cfg secs acts).
Proof.
  intros Hacts Hday. unfold buildScheduleFromActivities.
  set (ordered := orderSectionsByDay secs).
  set (bySection := groupBySection ordered acts).
  assert (Hord : Forall (fun s => default 1 (dayNumber s) = day /\
                                  s ∈ ordered) ordered).
  { apply Forall_forall. intros s Hs. split; [|done].
    rewrite Forall_forall in Hday. apply Hday.
    subst ordered. unfold orderSectionsByDay in Hs.
    by apply sortBy_elem_of in Hs. }
  assert (Hinit : currentDayNumber (init cfg ordered) = day \/
                  ordered = []).
  { destruct ordered as [|s0 ?]; [by right|left]. simpl.
    by apply Forall_cons in Hord as [[-> _] _]. }
  assert (Hgen : forall ss st,
             Forall (fun s => default 1 (dayNumber s) = day /\
                              s ∈ ordered) ss ->
             currentDayNumber st = day ->
             behind (clock st) (rows st) ->
             nonDecreasing (rows (foldl (walkSection cfg bySection) st ss))).
  { induction ss as [|s ss IH]; intros st Hss Hcur Hb; simpl.
    - apply Hb.
    - apply Forall_cons in Hss as [[Hs Hin] Hss].
      apply same_day_tracked in Hs.
      assert (Hstart : sectionStart cfg s st = clock st).
      { unfold sectionStart. rewrite Hcur, Hs.
        by rewrite decide_False by auto. }
      apply IH; [done| |].
      + unfold walkSection.
        destruct (foldl_placeActivity s (listOf bySection s)
                    (enterSection cfg s st)) as (_ & _ & ->).
        unfold enterSection. rewrite Hcur, Hs.
        by rewrite decide_False by auto.
      + rewrite walkSection_rows, walkSection_clock, Hstart.
        apply behind_chain; [|done].
        apply Forall_forall. intros a Ha. subst bySection.
        rewrite listOf_groupBySection in Ha by done.
        apply list_elem_of_filter in Ha as [_ Ha].
        rewrite Forall_forall in Hacts. by apply Hacts. }
  destruct Hinit as [Hinit|Hnil].
  - apply Hgen; [done|done|apply behind_nil].
  - rewrite Hnil. simpl. apply nonDecreasing_nil.
Qed.

(** An activity of no listed section changes nothing. *)
Lemma buildScheduleFromActivities_orphan cfg secs l1 a l2 :
  sectionId a ∉ ids secs ->
  buildScheduleFromActivities cfg secs (l1 ++ a :: l2) =
  buildScheduleFromActivities cfg secs (l1 ++ l2).
Proof.
  intros Hno. unfold buildScheduleFromActivities.
  rewrite groupBySection_orphan; [done|]. by rewrite orderSectionsByDay_ids.
Qed.

End DayWalkFacts.

(** ** Injection Renderer *)

Module RendererFacts.

Import Renderer.

Section WithLocale.

Variable localeCompare : string -> string -> Z.

Definition inSection (k : option ID) (inj : Injection) : Prop :=
  inj_sectionId inj = k.

Definition anchoredAt (a : Activity) (inj : Injection) : Prop :=
  anchorBeforeActivityId inj = activity_id a.

#[local] Instance inSection_dec k inj : Decision (inSection k inj).
Proof. unfold inSection. apply _. Defined.

#[local] Instance anchoredAt_dec a inj : Decision (anchoredAt a inj).
Proof. unfold anchoredAt. apply _. Defined.

Lemma pushInjection_lookup m inj k :
  default [] (pushInjection m inj !! k) =
  default [] (m !! k) ++ filter (inSection k) [inj].
Proof.
  unfold pushInjection, inSection. rewrite filter_cons, filter_nil.
  destruct (decide (inj_sectionId inj = k)) as [<-|Hne].
  - rewrite lookup_insert_eq. simpl.
    destruct (m !! inj_sectionId inj) eqn:E; [by rewrite E|].
    by rewrite lookup_insert_eq.
  - rewrite lookup_insert_ne, app_nil_r by done.
    destruct (m !! inj_sectionId inj); [done|].
    by rewrite lookup_insert_ne.
Qed.

Lemma foldl_pushInjection injs m k :
  default [] (foldl pushInjection m injs !! k) =
  default [] (m !! k) ++ filter (inSection k) injs.
Proof.
  revert m. induction injs as [|inj injs IH]; intros m; cbn [foldl].
  - by rewrite filter_nil, app_nil_r.
  - rewrite IH, pushInjection_lookup, <- app_assoc. f_equal.
    by rewrite <- filter_app.
Qed.

(** The injections that the renderer holds for a section: those of the
    section, sorted by anchor. *)
Lemma sectionInjOf_buildInjMap injs s :
  sectionInjOf (buildInjMap localeCompare injs) s =
  sortBy (fun a b => localeCompare (anchorBeforeActivityId a)
                                   (anchorBeforeActivityId b))
    (filter (inSection (Some (section_id s))) injs).
Proof.
  unfold sectionInjOf, buildInjMap. rewrite lookup_fmap.
  pose proof (foldl_pushInjection injs ∅ (Some (section_id s))) as H.
  rewrite lookup_empty in H. simpl in H. rewrite <- H.
  by destruct (foldl pushInjection ∅ injs !! Some (section_id s)).
Qed.

Lemma anchoredTo_elem_of injs s a inj :
  inj ∈ anchoredTo (sectionInjOf (buildInjMap localeCompare injs) s) a -> inj ∈ injs.
Proof.
  unfold anchoredTo. rewrite sectionInjOf_buildInjMap.
  intros [_ H]%list_elem_of_filter.
  apply sortBy_elem_of in H. by apply list_elem_of_filter in H as [_ ?].
Qed.

(** *** The walk as one loop *)

Definition turn (cfg : DayConfig) (injMap : gmap (option ID) (list Injection))
  (p : AgendaSection * Activity)
  : state -> outcome state (list ComputedRow) :=
  step cfg p.1 (sectionInjOf injMap p.1) p.2.

Lemma renderer_turns cfg (bySection : gmap ID (list Activity)) injMap
  ss st :
  walkSections cfg bySection injMap ss st =
  forEach (turn cfg injMap) (pairs (listOf bySection) ss) st.
Proof.
  unfold walkSections.
  apply (forEach_nested (listOf bySection)
           (fun s => step cfg s (sectionInjOf injMap s))).
Qed.

(** *** What one turn does to the rows *)

Lemma rollOrStop_cases cfg s dur st :
  (rollOrStop cfg s dur st = Continue st /\ clock st + dur <= dayEndMin cfg) \/
  (rollOrStop cfg s dur st =
     Continue {| rows := rows st; dayIndex := dayIndex st + 1;
                 clock := dayStartMin cfg |} /\
   dayEndMin cfg < clock st + dur /\ dayIndex st + 1 < numDays cfg) \/
  (rollOrStop cfg s dur st =
     Return (rows st ++ [overflowRow cfg s (clock st) dur]) /\
   dayEndMin cfg < clock st + dur /\ numDays cfg <= dayIndex st + 1).
Proof.
  unfold rollOrStop.
  destruct (Z.ltb_spec (dayEndMin cfg) (clock st + dur)); [|by left].
  destruct (Z.leb_spec (numDays cfg) (dayIndex st + 1)); right; [right|left];
    done.
Qed.

Lemma placeInjection_cases cfg s inj st :
  match placeInjection cfg s inj st with
  | Continue st' =>
      exists st1,
        rollOrStop cfg s (inj_durationMin inj) st = Continue st1 /\
        st' = {| rows := rows st1 ++ [injectionRow s inj (clock st1)];
                 dayIndex := dayIndex st1;
                 clock := clock st1 + inj_durationMin inj |}
  | Return r => rollOrStop cfg s (inj_durationMin inj) st = Return r
  end.
Proof.
  unfold placeInjection.
  destruct (rollOrStop cfg s (inj_durationMin inj) st) as [st1|r]; [|done].
  by exists st1.
Qed.

(** *** Durations *)

Definition rowsOk (st : state) : Prop := Forall durationOk (rows st).

Lemma rollOrStop_durations cfg s dur st :
  rowsOk st ->
  match rollOrStop cfg s dur st with
  | Continue st' => rowsOk st'
  | Return r => Forall durationOk r
  end.
Proof.
  intros H.
  destruct (rollOrStop_cases cfg s dur st) as [[-> _]|[[-> _]|[-> _]]];
    try done.
  rewrite Forall_app, Forall_singleton. split; [done|].
  by apply durationOk_other.
Qed.

Lemma placeInjection_durations cfg s inj st :
  rowsOk st ->
  match placeInjection cfg s inj st with
  | Continue st' => rowsOk st'
  | Return r => Forall durationOk r
  end.
Proof.
  intros H. pose proof (rollOrStop_durations cfg s (inj_durationMin inj) st H)
    as Hroll.
  pose proof (placeInjection_cases cfg s inj st) as Hc.
  destruct (placeInjection cfg s inj st) as [st'|r].
  - destruct Hc as (st1 & E & ->). rewrite E in Hroll.
    unfold rowsOk. simpl. rewrite Forall_app, Forall_singleton.
    split; [done|]. apply durationOk_other. simpl.
    by destruct (inj_type inj).
  - by rewrite Hc in Hroll.
Qed.

Lemma step_durations cfg s sectionInj a st :
  rowsOk st ->
  match step cfg s sectionInj a st with
  | Continue st' => rowsOk st'
  | Return r => Forall durationOk r
  end.
Proof.
  intros H. unfold step.
  pose proof (rollOrStop_durations cfg s (durationMin a) st H) as Hroll.
  destruct (rollOrStop cfg s (durationMin a) st) as [st1|r]; [|done].
  pose proof (forEach_post (placeInjection cfg s) rowsOk (Forall durationOk)
                (anchoredTo sectionInj a) st1
                (fun inj st _ => placeInjection_durations cfg s inj st)
                Hroll) as Hinj.
  destruct (forEach (placeInjection cfg s) (anchoredTo sectionInj a) st1)
    as [st2|r]; [|done].
  unfold rowsOk. simpl. rewrite Forall_app, Forall_singleton.
  split; [done|]. apply durationOk_activityRow.
Qed.

Lemma buildScheduleWithInjections_durations cfg secs acts injs :
  Forall durationOk
    (buildScheduleWithInjections localeCompare cfg secs acts injs).
Proof.
  unfold buildScheduleWithInjections. rewrite renderer_turns.
  pose proof (forEach_post (turn cfg (buildInjMap localeCompare injs))
                rowsOk (Forall durationOk)
                (pairs (listOf (groupBySection (orderSections secs) acts))
                   (orderSections secs))
                (init cfg)
                (fun p st _ => step_durations cfg _ _ _ st)) as H.
  match type of H with ?A -> _ => assert (HA : A) by constructor end.
  specialize (H HA).
  by destruct (forEach _ _ _).
Qed.

(** *** Order, for a single day *)

(** The state of a single-day rendering: the rows are in order, none starts
    after the clock or after the end of the day, and no day was added. *)
Definition inOrder (cfg : DayConfig) (st : state) : Prop :=
  behind (clock st) (rows st) /\
  Forall (fun r => startMin r <= dayEndMin cfg) (rows st) /\
  0 <= dayIndex st.

Lemma rollOrStop_order cfg s dur st :
  numDays cfg = 1 -> inOrder cfg st ->
  match rollOrStop cfg s dur st with
  | Continue st' => st' = st /\ clock st + dur <= dayEndMin cfg
  | Return r => nonDecreasing r
  end.
Proof.
  intros Hone (Hb & Hend & Hidx).
  destruct (rollOrStop_cases cfg s dur st)
    as [[-> ?]|[(-> & _ & ?)|(-> & _)]]; [done|lia|].
  apply nonDecreasing_snoc; [apply Hb|done].
Qed.

Lemma placeInjection_order cfg s inj st :
  numDays cfg = 1 -> 0 <= inj_durationMin inj ->
  inOrder cfg st /\ clock st <= dayEndMin cfg ->
  match placeInjection cfg s inj st with
  | Continue st' => inOrder cfg st' /\ clock st' <= dayEndMin cfg
  | Return r => nonDecreasing r
  end.
Proof.
  intros Hone Hdur [Hin _].
  pose proof (rollOrStop_order cfg s (inj_durationMin inj) st Hone Hin)
    as Hroll.
  pose proof (placeInjection_cases cfg s inj st) as Hc.
  destruct (placeInjection cfg s inj st) as [st'|r].
  - destruct Hc as (st1 & E & ->). rewrite E in Hroll.
    destruct Hroll as [-> Hle]. destruct Hin as (Hb & Hend & Hidx).
    split; [|done]. split; [|split]; simpl; [| |done].
    + eapply behind_snoc; [done|done|lia].
    + rewrite Forall_app, Forall_singleton. split; [done|]. simpl. lia.
  - by rewrite Hc in Hroll.
Qed.

Lemma step_order cfg s sectionInj a st :
  numDays cfg = 1 -> 0 <= durationMin a ->
  Forall (fun inj => 0 <= inj_durationMin inj) (anchoredTo sectionInj a) ->
  inOrder cfg st ->
  match step cfg s sectionInj a st with
  | Continue st' => inOrder cfg st'
  | Return r => nonDecreasing r
  end.
Proof.
  intros Hone Hdur Hinjs Hin. unfold step.
  pose proof (rollOrStop_order cfg s (durationMin a) st Hone Hin) as Hroll.
  destruct (rollOrStop cfg s (durationMin a) st) as [st1|r]; [|done].
  destruct Hroll as [-> Hle].
  rewrite Forall_forall in Hinjs.
  pose proof (forEach_post (placeInjection cfg s)
                (fun st => inOrder cfg st /\ clock st <= dayEndMin cfg)
                nonDecreasing
                (anchoredTo sectionInj a) st
                (fun inj st Hi => placeInjection_order cfg s inj st Hone
                                    (Hinjs inj Hi))) as Hinj.
  match type of Hinj with ?A -> _ => assert (HA : A) by (split; [done|lia]) end.
  specialize (Hinj HA).
  destruct (forEach (placeInjection cfg s) (anchoredTo sectionInj a) st)
    as [st2|r]; [|done].
  destruct Hinj as [(Hb & Hend & Hidx) Hc].
  split; [|split]; simpl; [| |done].
  - eapply behind_snoc; [done|done|lia].
  - rewrite Forall_app, Forall_singleton. split; [done|]. simpl. lia.
Qed.

(** With a single day and no negative duration, the rows, the overflow row
    included, are in non-decreasing order of [startMin]. *)
Lemma buildScheduleWithInjections_order cfg secs acts injs :
  numDays cfg = 1 ->
  Forall (fun a => 0 <= durationMin a) acts ->
  Forall (fun inj => 0 <= inj_durationMin inj) injs ->
  nonDecreasing (buildScheduleWithInjections localeCompare cfg secs acts injs).
Proof.
  intros Hone Hacts Hinjs. unfold buildScheduleWithInjections.
  rewrite renderer_turns. fold (walkOrder (orderSections secs) acts).
  pose proof (forEach_post (turn cfg (buildInjMap localeCompare injs))
                (inOrder cfg) nonDecreasing
                (walkOrder (orderSections secs) acts) (init cfg)) as H.
  match type of H with ?A -> ?B -> _ =>
    assert (HA : A); [|assert (HB : B); [|specialize (H HA HB)]] end.
  - intros [s a] st Hp Hin. unfold turn. simpl.
    apply walkOrder_elem_of in Hp as (_ & Ha & _).
    rewrite Forall_forall in Hacts. rewrite Forall_forall in Hinjs.
    apply step_order; [done|by apply Hacts| |done].
    apply Forall_forall. intros inj Hinj. apply Hinjs.
    by eapply anchoredTo_elem_of.
  - split; [apply behind_nil|]. split; [done|]. simpl. lia.
  - destruct (forEach _ _ _) as [st|r]; [apply H|done].
Qed.

(** *** Activities and injections that match nothing *)

(** An activity of no listed section changes nothing. *)
Lemma buildScheduleWithInjections_orphan cfg secs l1 a l2 injs :
  sectionId a ∉ ids secs ->
  buildScheduleWithInjections localeCompare cfg secs (l1 ++ a :: l2) injs =
  buildScheduleWithInjections localeCompare cfg secs (l1 ++ l2) injs.
Proof.
  intros Hno. unfold buildScheduleWithInjections.
  rewrite groupBySection_orphan; [done|]. by rewrite orderSections_ids.
Qed.

Hypothesis localeCompare_refl : forall s, localeCompare s s = 0.

(** The injections placed before an activity: those of its section that
    are anchored to it, in the order of the injection list. The sort by
    anchor does not show. *)
Lemma anchoredTo_buildInjMap injs s a :
  anchoredTo (sectionInjOf (buildInjMap localeCompare injs) s) a =
  filter (anchoredAt a) (filter (inSection (Some (section_id s))) injs).
Proof.
  unfold anchoredTo. rewrite sectionInjOf_buildInjMap.
  apply (filter_sortBy _ (anchoredAt a)).
  intros x y Hx Hy. unfold anchoredAt in *.
  rewrite Hx, Hy, localeCompare_refl. done.
Qed.

(** C7: an injection whose anchor is the id of no activity of the activity
    list adds no row and raises nothing: the rows are those rendered from
    the injection list without it. [localeCompare] is any comparison that
    finds a string equal to itself. *)
Theorem dangling_injection_dropped (cfg : DayConfig)
  (secs : list AgendaSection) (acts : list Activity)
  (before after : list Injection) (inj : Injection) :
  (forall a, a ∈ acts -> activity_id a <> anchorBeforeActivityId inj) ->
  buildScheduleWithInjections localeCompare cfg secs acts
    (before ++ inj :: after) =
  buildScheduleWithInjections localeCompare cfg secs acts (before ++ after).
Proof.
  intros Hdangling. unfold buildScheduleWithInjections.
  rewrite !renderer_turns.
  fold (walkOrder (orderSections secs) acts).
  rewrite (forEach_ext
             (turn cfg (buildInjMap localeCompare (before ++ inj :: after)))
             (turn cfg (buildInjMap localeCompare (before ++ after))));
    [done|].
  intros [s a] st Hp. unfold turn, step. simpl.
  apply walkOrder_elem_of in Hp as (_ & Ha & _).
  rewrite !anchoredTo_buildInjMap.
  rewrite !filter_app, !(filter_cons (inSection _)).
  destruct (decide (inSection (Some (section_id s)) inj)); [|done].
  rewrite filter_cons_False; [done|].
  unfold anchoredAt. intros Heq. by apply (Hdangling a).
Qed.

End WithLocale.

(** A comparison to run the renderer with: the order of the character
    codes. *)
Definition codeUnitCompare (a b : string) : Z :=
  match String.compare a b with
  | Eq => 0
  | Lt => -1
  | Gt => 1
  end.

Lemma codeUnitCompare_refl (s : string) : codeUnitCompare s s = 0.
Proof.
  unfold codeUnitCompare. pose proof (String.compare_antisym s s) as H.
  by destruct (String.compare s s).
Qed.

Definition breakAt (id anchor : ID) : Injection :=
  {| inj_id := id; inj_type := IBreak; inj_label := "Break";
     inj_sectionId := Some "s1"%string; inj_durationMin := 15;
     anchorBeforeActivityId := anchor |}.

Lemma dangling_injection_dropped_witness :
  let s := sec "s1" 1 None in
  let a := act "a1" 30 "s1" in
  let gone := breakAt "inj-break-zz" "zz" in
  let kept := breakAt "inj-break-a1" "a1" in
  (forall x, x ∈ [a] -> activity_id x <> anchorBeforeActivityId gone) /\
  map span
    (buildScheduleWithInjections codeUnitCompare cfgBreaks [s] [a]
       [gone; kept]) =
  [(TBreak, 540, 555); (TActivity, 555, 585)].
Proof.
  intros s a gone kept.
  assert (Hd : forall x, x ∈ [a] ->
                         activity_id x <> anchorBeforeActivityId gone).
  { intros x Hx. apply list_elem_of_singleton in Hx as ->. done. }
  split; [exact Hd|].
  change [gone; kept] with ([] ++ gone :: [kept]).
  rewrite (dangling_injection_dropped codeUnitCompare codeUnitCompare_refl
             cfgBreaks [s] [a] [] [kept] gone Hd).
  reflexivity.
Defined.

End RendererFacts.

(** ** Injection Planner *)

Module PlannerFacts.

Import Planner.































(** *** The whole run *)

Definition turn (cfg : DayConfig) (p : AgendaSection * Activity)
  : state -> outcome state state :=
  step cfg p.1 p.2.

Lemma planner_turns cfg (bySection : gmap ID (list Activity)) ss st :
  walkSections cfg bySection ss st =
  forEach (turn cfg) (pairs (listOf bySection) ss) st.
Proof. unfold walkSections. apply forEach_nested. Qed.






(** An activity of no listed section changes nothing. *)
Lemma plan_orphan cfg secs l1 a l2 :
  sectionId a ∉ ids secs ->
  plan cfg secs (l1 ++ a :: l2) = plan cfg secs (l1 ++ l2).
Proof.
  intros Hno. unfold plan.
  rewrite groupBySection_orphan by by rewrite orderSections_ids.
  destruct (orderSections secs) as [|s0 ss] eqn:Eo.
  - simpl. unfold forcedLunch. simpl.
    by rewrite !andb_false_r.
  - destruct (walkSections _ _ _ _) as [st|r]; [|done].
    unfold finalPostBreak.
    destruct (last (s0 :: ss)) as [lastS|] eqn:Elast; [done|].
    by apply last_None in Elast.
Qed.



(** *** Where the break after a lunch is anchored *)

Section Located.

Context (cfg : DayConfig) (secs : list AgendaSection) (acts : list Activity).

Let ordered := orderSections secs.
Let walk := walkOrder ordered acts.





















End Located.









End PlannerFacts.

(** ** Time codec *)

Module TimeFacts.

Import TimeCodec.

#[local] Instance result_eq_dec : EqDecision result.
Proof. solve_decision. Defined.

Definition digits : list ascii :=
  ["0"; "1"; "2"; "3"; "4"; "5"; "6"; "7"; "8"; "9"]%char.

Lemma isDigit_digits (c : ascii) : isDigit c = true -> In c digits.
Proof.
  destruct c as [[] [] [] [] [] [] [] []]; vm_compute; intros H;
    try discriminate; tauto.
Qed.

(** The text [h1 h2 : m1 m2]. *)
Definition hhmm (h1 h2 m1 m2 : ascii) : string :=
  String h1 (String h2 (String ":" (String m1 (String m2 EmptyString)))).

(** The text [h : m1 m2]. *)
Definition hmm (h m1 m2 : ascii) : string :=
  String h (String ":" (String m1 (String m2 EmptyString))).

Definition twoDigits (a b : ascii) : Z := 10 * digitVal a + digitVal b.

Definition checkHHMM : bool :=
  forallb (fun h1 => forallb (fun h2 => forallb (fun m1 => forallb (fun m2 =>
    bool_decide (parseTimeToMin (hhmm h1 h2 m1 m2) =
                 Minutes (twoDigits h1 h2 * 60 + twoDigits m1 m2)))
    digits) digits) digits) digits.

Definition checkHMM : bool :=
  forallb (fun h => forallb (fun m1 => forallb (fun m2 =>
    bool_decide (parseTimeToMin (hmm h m1 m2) =
                 Minutes (digitVal h * 60 + twoDigits m1 m2)))
    digits) digits) digits.

Lemma parse_hhmm (h1 h2 m1 m2 : ascii) :
  isDigit h1 = true -> isDigit h2 = true ->
  isDigit m1 = true -> isDigit m2 = true ->
  parseTimeToMin (hhmm h1 h2 m1 m2) =
  Minutes (twoDigits h1 h2 * 60 + twoDigits m1 m2).
Proof.
  intros H1 H2 H3 H4.
  assert (Hall : checkHHMM = true) by (vm_compute; reflexivity).
  unfold checkHHMM in Hall.
  rewrite forallb_forall in Hall.
  specialize (Hall h1 (isDigit_digits _ H1)).
  rewrite forallb_forall in Hall.
  specialize (Hall h2 (isDigit_digits _ H2)).
  rewrite forallb_forall in Hall.
  specialize (Hall m1 (isDigit_digits _ H3)).
  rewrite forallb_forall in Hall.
  specialize (Hall m2 (isDigit_digits _ H4)).
  by apply bool_decide_eq_true in Hall.
Qed.

Lemma parse_hmm (h m1 m2 : ascii) :
  isDigit h = true -> isDigit m1 = true -> isDigit m2 = true ->
  parseTimeToMin (hmm h m1 m2) =
  Minutes (digitVal h * 60 + twoDigits m1 m2).
Proof.
  intros H1 H3 H4.
  assert (Hall : checkHMM = true) by (vm_compute; reflexivity).
  unfold checkHMM in Hall.
  rewrite forallb_forall in Hall.
  specialize (Hall h (isDigit_digits _ H1)).
  rewrite forallb_forall in Hall.
  specialize (Hall m1 (isDigit_digits _ H3)).
  rewrite forallb_forall in Hall.
  specialize (Hall m2 (isDigit_digits _ H4)).
  by apply bool_decide_eq_true in Hall.
Qed.

Example parseTimeToMin_examples :
  parseTimeToMin <$>
    ["08:30"; "8:30"; "23:59"; "12:30:45"; " 7 : 5 "; "-1:30"; "25:99";
     "830"; "a:30"; "8:"; ":"; "1e2:00"; "0x10:00"]%string =
  [Minutes 510; Minutes 510; Minutes 1439; Minutes 750; Minutes 425;
   Minutes (-30); Minutes 1599; Null; Null; Minutes 480; Minutes 0;
   Unmodelled; Unmodelled].
Proof. reflexivity. Qed.

Example Number_examples :
  Number <$>
    [EmptyString; "  "; "12"; "+7"; "-7"; "1.5"; "."; "1e"; "0x"; "-0x10";
     "12px"; "Infinity"; "infinity"]%string =
  [Exact 0; Exact 0; Exact 12; Exact 7; Exact (-7); OtherNumber; NaN; NaN; NaN;
   NaN; NaN; OtherNumber; NaN].
Proof. reflexivity. Qed.

(** The text has a colon. *)
Fixpoint hasColon (s : string) : bool :=
  match s with
  | EmptyString => false
  | String c s' => Ascii.eqb c ":" || hasColon s'
  end.

Lemma split_nonempty s : split s <> [].
Proof.
  destruct s as [|c s]; simpl; [done|].
  destruct (Ascii.eqb c ":"); [done|]. by destruct (split s).
Qed.

Lemma split_one s : (exists p, split s = [p]) <-> hasColon s = false.
Proof.
  induction s as [|c s IH]; simpl.
  - split; [done|]. by exists EmptyString.
  - destruct (Ascii.eqb c ":"); simpl.
    + split; [|done]. intros [p H]. injection H as _ H.
      by apply split_nonempty in H.
    + rewrite <- IH. pose proof (split_nonempty s).
      destruct (split s) as [|p [|q ps]]; [done| |].
      * split; intros _; eexists; done.
      * split; intros [r Hr]; discriminate.
Qed.

(** The first two parts of a text with a colon. *)
Definition parts (s : string) : option (string * string) :=
  match split s with
  | p0 :: p1 :: _ => Some (p0, p1)
  | _ => None
  end.

Lemma parts_None s : parts s = None <-> hasColon s = false.
Proof.
  rewrite <- split_one. unfold parts. pose proof (split_nonempty s).
  destruct (split s) as [|p [|q ps]]; [done| |].
  - split; [by eexists|done].
  - split; [done|]. intros [r Hr]. discriminate.
Qed.

Lemma minutes_not_Null h m : minutes h m <> Null.
Proof.
  unfold minutes. destruct (safe (h * 60)); try done.
  by destruct (safe (z + m)).
Qed.

(** C9 (as amended): on text whose code units are all below 256,
    [parseTimeToMin] is total. On [H:MM] and [HH:MM] text, digits only, it
    returns 60 times the hour plus the minutes. It returns [null] exactly
    when the text is empty, has no colon, or its first or second
    colon-separated part converts to NaN under [Number], which strips TAB,
    LF, VT, FF, CR, SP and U+00A0 from both ends of the part and reads a
    blank part as 0. *)
Theorem parseTimeToMin_spec :
  (forall h1 h2 m1 m2,
     isDigit h1 = true -> isDigit h2 = true ->
     isDigit m1 = true -> isDigit m2 = true ->
     parseTimeToMin (hhmm h1 h2 m1 m2) =
       Minutes (twoDigits h1 h2 * 60 + twoDigits m1 m2) /\
     parseTimeToMin (hmm h2 m1 m2) =
       Minutes (digitVal h2 * 60 + twoDigits m1 m2)) /\
  (forall text,
     parseTimeToMin text = Null <->
     text = EmptyString \/ hasColon text = false \/
     exists p0 p1, parts text = Some (p0, p1) /\
                   (Number p0 = NaN \/ Number p1 = NaN)).
Proof.
  split.
  - intros h1 h2 m1 m2 H1 H2 H3 H4. split.
    + by apply parse_hhmm.
    + by apply parse_hmm.
  - intros text. unfold parseTimeToMin.
    destruct text as [|c s]; [simpl; tauto|].
    cbn [isEmpty]. rewrite <- parts_None. unfold parts.
    destruct (split (String c s)) as [|p0 [|p1 ps]].
    + split; [auto|done].
    + split; [auto|done].
    + split.
      * intros H. right. right. exists p0, p1. split; [done|].
        destruct (Number p0), (Number p1); try tauto; try done.
        by apply minutes_not_Null in H.
      * intros [H|[H|(q0 & q1 & [= <- <-] & [-> | ->])]];
          [done|done|done|].
        by destruct (Number p0).
Qed.

Lemma parseTimeToMin_spec_witness :
  (isDigit "0" = true /\ isDigit "8" = true /\
   isDigit "3" = true /\ isDigit "0" = true) /\
  parseTimeToMin "08:30" = Minutes 510 /\
  parseTimeToMin "8:30" = Minutes 510.
Proof.
  split; [repeat split|].
  destruct parseTimeToMin_spec as [H _].
  destruct (H "0" "8" "3" "0")%char as [H1 H2]; try reflexivity.
  split; [exact H1|exact H2].
Defined.

(** Text with an empty hour part is malformed (it is not [H:MM], and its
    hour part has no digit), yet it is not rejected: [Number] reads the
    empty part as 0. *)
Lemma parseTimeToMin_counterexample :
  split ":30" = [EmptyString; "30"%string] /\
  Number EmptyString = Exact 0 /\
  parseTimeToMin ":30" = Minutes 30 /\
  parseTimeToMin ":30" <> Null.
Proof. repeat split; try reflexivity. discriminate. Qed.

(** A part made of white space only is blank, the no-break space
    included. *)
Example parseTimeToMin_no_break_space :
  let nbsp := ascii_of_N 160 in
  isWhite nbsp = true /\
  trim (String nbsp (String "7" (String nbsp EmptyString))) = "7"%string /\
  parseTimeToMin (String nbsp ":30") = Minutes 30 /\
  parseTimeToMin (String "8" (String ":" (String nbsp "30"))) = Minutes 510 /\
  parseTimeToMin (String (ascii_of_N 133) ":30") = Null.
Proof. repeat split. Qed.

End TimeFacts.

(** ** Properties of all the schedulers *)

Definition cfgTwoDays : DayConfig :=
  {| dayStartMin := 540; dayEndMin := 960; numberOfDays := Some 2;
     breakIntervalMin := Some 60; breakDurationMin := Some 15;
     lunchTargetMin := None; lunchDurationMin := None |}.

Definition twoDaySections : list AgendaSection :=
  [sec "s1" 1 (Some 1); sec "s2" 2 (Some 2)].

Definition twoDayActivities : list Activity :=
  [act "a0" 30 "s1"; act "a1" 375 "s1"; act "a2" 30 "s1"; act "a3" 30 "s2"].

(** C1 (as amended): in the rows of [computeSchedule],
    [buildScheduleWithInjections] and [buildScheduleFromActivities], on
    whole numbers of minutes, every activity row whose [startMin] and
    [endMin] are below 2^53 in magnitude ends its activity's duration after
    it starts. When no activity has a negative duration, the rows are in
    non-decreasing order of [startMin]
    - for [computeSchedule], leaving the overflow row out, when the break
      and lunch durations are not negative;
    - for [buildScheduleWithInjections], when there is a single day and no
      injection has a negative duration;
    - for [buildScheduleFromActivities], when every section is of the same
      day, a missing day number counting as day 1. *)
Theorem rows_durations_and_order (localeCompare : string -> string -> Z)
  (cfg : DayConfig) (secs : list AgendaSection) (acts : list Activity)
  (injs : list Injection) :
  (Forall (fun r => exactRow r -> durationOk r)
     (Direct.computeSchedule cfg secs acts) /\
   Forall (fun r => exactRow r -> durationOk r)
     (Renderer.buildScheduleWithInjections localeCompare cfg secs acts injs) /\
   Forall (fun r => exactRow r -> durationOk r)
     (DayWalk.buildScheduleFromActivities cfg secs acts)) /\
  (Forall (fun a => 0 <= durationMin a) acts ->
   (0 <= get (breakDurationMin cfg) -> 0 <= get (lunchDurationMin cfg) ->
    nonDecreasing
      (filter (fun r => row_type r <> TOverflow)
         (Direct.computeSchedule cfg secs acts))) /\
   (Renderer.numDays cfg = 1 ->
    Forall (fun inj => 0 <= inj_durationMin inj) injs ->
    nonDecreasing
      (Renderer.buildScheduleWithInjections localeCompare cfg secs acts
         injs)) /\
   (forall day, Forall (fun s => default 1 (dayNumber s) = day) secs ->
    nonDecreasing (DayWalk.buildScheduleFromActivities cfg secs acts))).
Proof.
  split; [split; [|split]|].
  - eapply Forall_impl; [apply DirectFacts.computeSchedule_durations|]. auto.
  - eapply Forall_impl;
      [apply RendererFacts.buildScheduleWithInjections_durations|]. auto.
  - eapply Forall_impl;
      [apply DayWalkFacts.buildScheduleFromActivities_durations|]. auto.
  - intros Hacts. split; [|split].
    + intros Hb Hl. by apply DirectFacts.computeSchedule_order.
    + intros Hone Hinjs.
      by apply RendererFacts.buildScheduleWithInjections_order.
    + intros day Hday.
      by eapply DayWalkFacts.buildScheduleFromActivities_order.
Qed.

Lemma rows_durations_and_order_witness :
  let secs := [sec "s1" 1 None; sec "s2" 2 (Some 1); sec "s3" 3 None] in
  let acts := [act "a1" 30 "s1"; act "a2" 45 "s2"; act "a3" 20 "s3"] in
  let out := DayWalk.buildScheduleFromActivities cfgBreaks secs acts in
  Forall (fun a => 0 <= durationMin a) acts /\
  Forall (fun s => default 1 (dayNumber s) = 1) secs /\
  Forall exactRow out /\
  nonDecreasing out /\
  nonDecreasing
    (filter (fun r => row_type r <> TOverflow)
       (Direct.computeSchedule cfgBreaks secs acts)) /\
  Forall durationOk out /\
  (fun r => endMin r - startMin r) <$> out = [30; 45; 20].
Proof.
  intros secs acts out.
  assert (Hacts : Forall (fun a => 0 <= durationMin a) acts)
    by (repeat constructor; simpl; lia).
  assert (Hsecs : Forall (fun s => default 1 (dayNumber s) = 1) secs)
    by (repeat constructor).
  assert (Hexact : Forall exactRow out).
  { repeat constructor; unfold exact; simpl; lia. }
  destruct (rows_durations_and_order RendererFacts.codeUnitCompare cfgBreaks
              secs acts []) as [(_ & _ & Hdur) H].
  destruct (H Hacts) as (Hdirect & _ & Hday).
  split; [exact Hacts|]. split; [exact Hsecs|]. split; [exact Hexact|].
  split; [exact (Hday 1 Hsecs)|]. split; [apply Hdirect; simpl; lia|].
  split; [|reflexivity].
  fold out in Hdur. rewrite Forall_forall in Hdur, Hexact.
  apply Forall_forall. intros r Hr. apply (Hdur r Hr), (Hexact r Hr).
Defined.

(** Two days, no negative duration: none of the three row sequences is in
    non-decreasing order of [startMin]. The day walker restarts the clock
    in the section of day 2, the renderer restarts it when it rolls over to
    day 2, and the overflow row of the direct walker starts at [dayEndMin],
    before the activity that it follows. *)
Lemma rows_order_counterexample :
  let byDay :=
    DayWalk.buildScheduleFromActivities cfgTwoDays twoDaySections
      twoDayActivities in
  let rendered :=
    Renderer.buildScheduleWithInjections RendererFacts.codeUnitCompare
      cfgTwoDays twoDaySections twoDayActivities [] in
  let direct :=
    Direct.computeSchedule cfgTwoDays twoDaySections twoDayActivities in
  Forall (fun a => 0 < durationMin a) twoDayActivities /\
  (startMin <$> byDay = [540; 570; 945; 540] /\ ~ nonDecreasing byDay) /\
  (startMin <$> rendered = [540; 570; 540; 570] /\ ~ nonDecreasing rendered) /\
  (startMin <$> direct = [540; 570; 585; 960; 975; 960] /\
   ~ nonDecreasing direct).
Proof.
  intros byDay rendered direct.
  split; [repeat constructor|].
  split; [|split]; (split; [reflexivity|]); intros H.
  - destruct (byDay !! 2%nat) as [r1|] eqn:E1; [|discriminate].
    destruct (byDay !! 3%nat) as [r2|] eqn:E2; [|discriminate].
    specialize (H 2%nat 3%nat r1 r2 ltac:(lia) E1 E2).
    vm_compute in E1, E2. simplify_eq. simpl in H. lia.
  - destruct (rendered !! 1%nat) as [r1|] eqn:E1; [|discriminate].
    destruct (rendered !! 2%nat) as [r2|] eqn:E2; [|discriminate].
    specialize (H 1%nat 2%nat r1 r2 ltac:(lia) E1 E2).
    vm_compute in E1, E2. simplify_eq. simpl in H. lia.
  - destruct (direct !! 4%nat) as [r1|] eqn:E1; [|discriminate].
    destruct (direct !! 5%nat) as [r2|] eqn:E2; [|discriminate].
    specialize (H 4%nat 5%nat r1 r2 ltac:(lia) E1 E2).
    vm_compute in E1, E2. simplify_eq. simpl in H. lia.
Qed.

(** C10: an activity whose [sectionId] is the id of no section of the list
    is left out by all four functions: with it or without it, the rows, the
    injections and the planner's final state are the same. *)
Theorem orphan_activity_ignored (localeCompare : string -> string -> Z)
  (cfg : DayConfig) (secs : list AgendaSection) (before after : list Activity)
  (a : Activity) (injs : list Injection) :
  sectionId a ∉ ids secs ->
  Direct.computeSchedule cfg secs (before ++ a :: after) =
    Direct.computeSchedule cfg secs (before ++ after) /\
  Planner.planInjections cfg secs (before ++ a :: after) =
    Planner.planInjections cfg secs (before ++ after) /\
  Planner.plan cfg secs (before ++ a :: after) =
    Planner.plan cfg secs (before ++ after) /\
  Renderer.buildScheduleWithInjections localeCompare cfg secs
      (before ++ a :: after) injs =
    Renderer.buildScheduleWithInjections localeCompare cfg secs
      (before ++ after) injs /\
  DayWalk.buildScheduleFromActivities cfg secs (before ++ a :: after) =
    DayWalk.buildScheduleFromActivities cfg secs (before ++ after).
Proof.
  intros Hno. split; [|split; [|split; [|split]]].
  - by apply DirectFacts.computeSchedule_orphan.
  - unfold Planner.planInjections. by rewrite PlannerFacts.plan_orphan.
  - by apply PlannerFacts.plan_orphan.
  - by apply RendererFacts.buildScheduleWithInjections_orphan.
  - by apply DayWalkFacts.buildScheduleFromActivities_orphan.
Qed.

Lemma orphan_activity_ignored_witness :
  let s := sec "s1" 1 None in
  let a1 := act "a1" 20 "s1" in
  let stray := act "x" 500 "nowhere" in
  let a2 := act "a2" 45 "s1" in
  (sectionId stray ∉ ids [s]) /\
  map span (Direct.computeSchedule cfgBreaks [s] [a1; stray; a2]) =
  [(TActivity, 540, 560); (TBreak, 560, 575); (TActivity, 575, 620)].
Proof.
  intros s a1 stray a2.
  assert (Hno : sectionId stray ∉ ids [s]).
  { intros H. apply list_elem_of_singleton in H. discriminate. }
  split; [exact Hno|].
  destruct (orphan_activity_ignored RendererFacts.codeUnitCompare cfgBreaks
              [s] [a1] [a2] stray [] Hno) as [H _].
  simpl app in H. rewrite H. reflexivity.
Defined.

(** * Further code *)

(** ** Time formatting ([src/utils/time.ts], lines 15-35) *)

Module TimeFormat.

(** [s.padStart(targetLength, padChar)] for a one-character pad. *)
Definition padStart (targetLength : nat) (padChar : ascii) (s : string)
  : string :=
  string_of_list_ascii
    (replicate (targetLength - String.length s) padChar) +:+ s.

(** On whole numbers [Math.floor(m / 60)] is [m / 60], [%] is the truncating
    [Z.rem], and [toString] and template interpolation print decimals. The
    double quotient [m / 60] has the same floor as the exact one as long as
    [m] is below 2^53 in magnitude (the rounding error is below 1/60 there);
    beyond that the code's text can differ from this one. *)
Definition formatMin (min : Z) : string :=
  let m := Z.max 0 min in
  let h24 := Z.rem (m / 60) 24 in
  let minutes := Z.rem m 60 in
  let am := h24 <? 12 in
  let h12 := if Z.rem h24 12 =? 0 then 12 else Z.rem h24 12 in
  pretty h12 +:+ ":" +:+ padStart 2 "0" (pretty minutes) +:+ " " +:+
  (if am then "AM" else "PM").

Definition clamp (n min max : Z) : Z := Z.max min (Z.min max n).

(** As [formatMin]: exact on whole numbers below 2^53 in magnitude. *)
Definition formatMin24 (min : Z) : string :=
  let h24 := Z.rem (min / 60) 24 in
  let minutes := Z.rem min 60 in
  padStart 2 "0" (pretty h24) +:+ ":" +:+ padStart 2 "0" (pretty minutes).

End TimeFormat.

Module TimeFormatFacts.

Import TimeCodec TimeFormat.

#[local] Instance parse_result_eq_dec : EqDecision result.
Proof. solve_decision. Defined.

Example formatMin_examples :
  formatMin <$> [0; 5; 60; 719; 720; 780; 1439; 1440; -5] =
  ["12:00 AM"; "12:05 AM"; "1:00 AM"; "11:59 AM"; "12:00 PM"; "1:00 PM";
   "11:59 PM"; "12:00 AM"; "12:00 AM"]%string.
Proof. reflexivity. Qed.

Example formatMin24_examples :
  formatMin24 <$> [0; 5; 510; 1439; 1440; -30] =
  ["00:00"; "00:05"; "08:30"; "23:59"; "00:00"; "-1:-30"]%string.
Proof. reflexivity. Qed.

(** X1: [clamp] never returns less than [min]; with [min <= max] the result
    lies in the range and a value of the range is returned as it is; with
    the bounds inverted the result is [min]. Clamping twice changes
    nothing. *)
Theorem clamp_range (n lo hi : Z) :
  lo <= clamp n lo hi /\
  (lo <= hi -> clamp n lo hi <= hi /\ (lo <= n <= hi -> clamp n lo hi = n)) /\
  (hi < lo -> clamp n lo hi = lo) /\
  clamp (clamp n lo hi) lo hi = clamp n lo hi.
Proof. unfold clamp. repeat split; intros; lia. Qed.

Lemma clamp_range_witness :
  (0 <= 100) /\ clamp 250 0 100 <= 100 /\ clamp 40 0 100 = 40.
Proof.
  destruct (clamp_range 250 0 100) as (_ & H & _).
  destruct (clamp_range 40 0 100) as (_ & H' & _).
  split; [lia|]. split.
  - apply H. lia.
  - apply H'; lia.
Defined.

(** The minute of the day decides the 24-hour text. *)
Lemma formatMin24_mod (m : Z) :
  0 <= m -> formatMin24 m = formatMin24 (m mod 1440).
Proof.
  intros Hm. unfold formatMin24.
  assert (H1 : Z.rem (m / 60) 24 = Z.rem (m mod 1440 / 60) 24).
  { rewrite !Z.rem_mod_nonneg by
      (try apply Z.div_pos; try apply Z.mod_pos_bound; lia).
    pose proof (Z.mod_pos_bound m 1440 ltac:(lia)).
    Z.div_mod_to_equations. lia. }
  assert (H2 : Z.rem m 60 = Z.rem (m mod 1440) 60).
  { pose proof (Z.mod_pos_bound m 1440 ltac:(lia)).
    rewrite !Z.rem_mod_nonneg by lia.
    Z.div_mod_to_equations. lia. }
  by rewrite H1, H2.
Qed.

Lemma parse_formatMin24_day :
  Forall (fun k => parseTimeToMin (formatMin24 k) = Minutes k) (seqZ 0 1440).
Proof. apply (bool_decide_unpack _). by vm_compute. Qed.

(** X2: for a whole number of minutes that is not negative and below 2^53,
    the text that [formatMin24] hands to a time input parses back to the
    minute of the day: the round trip is the identity below 24 hours and
    drops whole days above. *)
Theorem parse_formatMin24 (m : Z) :
  0 <= m -> m < 2 ^ 53 ->
  parseTimeToMin (formatMin24 m) = Minutes (m mod 1440).
Proof.
  intros Hm _. rewrite formatMin24_mod by done.
  pose proof parse_formatMin24_day as H. rewrite Forall_forall in H.
  apply H. apply elem_of_seqZ.
  pose proof (Z.mod_pos_bound m 1440 ltac:(lia)). lia.
Qed.

Lemma parse_formatMin24_witness :
  (0 <= 2000 /\ 2000 < 2 ^ 53) /\
  parseTimeToMin (formatMin24 2000) = Minutes 560.
Proof. split; [lia|]. apply (parse_formatMin24 2000); lia. Defined.

Lemma formatMin_mod (m : Z) : 0 <= m -> formatMin m = formatMin (m mod 1440).
Proof.
  intros Hm. unfold formatMin.
  pose proof (Z.mod_pos_bound m 1440 ltac:(lia)).
  rewrite !Z.max_r by lia.
  assert (H1 : Z.rem (m / 60) 24 = Z.rem (m mod 1440 / 60) 24).
  { rewrite !Z.rem_mod_nonneg by (try apply Z.div_pos; lia).
    Z.div_mod_to_equations. lia. }
  assert (H2 : Z.rem m 60 = Z.rem (m mod 1440) 60).
  { rewrite !Z.rem_mod_nonneg by lia. Z.div_mod_to_equations. lia. }
  by rewrite H1, H2.
Qed.

Lemma formatMin_day_NoDup : NoDup (formatMin <$> seqZ 0 1440).
Proof. apply (bool_decide_unpack _). by vm_compute. Qed.

Lemma NoDup_fmap_inj {A B : Type} (f : A -> B) (l : list A) (x y : A) :
  NoDup (f <$> l) -> x ∈ l -> y ∈ l -> f x = f y -> x = y.
Proof.
  induction l as [|z l IH]; intros Hnd Hx Hy Hf; [by apply elem_of_nil in Hx|].
  rewrite fmap_cons in Hnd. apply NoDup_cons in Hnd as [Hz Hnd].
  apply elem_of_cons in Hx as [->|Hx]; apply elem_of_cons in Hy as [->|Hy].
  - done.
  - exfalso. apply Hz. rewrite Hf. by apply list_elem_of_fmap_2.
  - exfalso. apply Hz. rewrite <- Hf. by apply list_elem_of_fmap_2.
  - by apply IH.
Qed.

(** X3: [formatMin] shows a negative time as midnight, and two whole
    numbers of minutes that are not negative and below 2^53 get the same
    text exactly when they are the same minute of the day. *)
Theorem formatMin_clock (a b : Z) :
  (a <= 0 -> formatMin a = "12:00 AM"%string) /\
  (0 <= a < 2 ^ 53 -> 0 <= b < 2 ^ 53 ->
   (formatMin a = formatMin b <-> a mod 1440 = b mod 1440)).
Proof.
  split.
  - intros Ha. unfold formatMin. by rewrite Z.max_l by done.
  - intros [Ha _] [Hb _]. rewrite (formatMin_mod a), (formatMin_mod b) by done.
    split; [|by intros ->].
    apply (NoDup_fmap_inj formatMin (seqZ 0 1440));
      [apply formatMin_day_NoDup|apply elem_of_seqZ..].
    + pose proof (Z.mod_pos_bound a 1440 ltac:(lia)). lia.
    + pose proof (Z.mod_pos_bound b 1440 ltac:(lia)). lia.
Qed.

Lemma formatMin_clock_witness :
  (0 <= 510 < 2 ^ 53 /\ 0 <= 1950 < 2 ^ 53) /\
  formatMin 510 = formatMin 1950 /\
  formatMin (-7) = "12:00 AM"%string.
Proof.
  destruct (formatMin_clock 510 1950) as [_ H].
  destruct (formatMin_clock (-7) 0) as [H0 _].
  split; [lia|]. split.
  - apply H; [lia|lia|reflexivity].
  - apply H0. lia.
Defined.

End TimeFormatFacts.

(** ** CSV export and line parsing ([src/utils/storage.ts], lines 86-178) *)

Module Csv.

Definition quote : ascii := "034".
Definition comma : ascii := ",".
Definition newline : ascii := "010".
Definition carriageReturn : ascii := "013".

Definition str (ch : ascii) : string := String ch EmptyString.

(** [re.test(val)] for a character class. *)
Fixpoint test (class : ascii -> bool) (val : string) : bool :=
  match val with
  | EmptyString => false
  | String ch rest => class ch || test class rest
  end.

(** [val.replace] of every double quote by two of them. *)
Fixpoint doubleQuotes (val : string) : string :=
  match val with
  | EmptyString => EmptyString
  | String ch rest =>
      if Ascii.eqb ch quote
      then String quote (String quote (doubleQuotes rest))
      else String ch (doubleQuotes rest)
  end.

Definition special (ch : ascii) : bool :=
  Ascii.eqb ch quote || Ascii.eqb ch comma || Ascii.eqb ch newline.

Definition escapeCsv (val : string) : string :=
  let needsQuotes := test special val in
  let v := doubleQuotes val in
  if needsQuotes then str quote +:+ v +:+ str quote else v.

(** The [Map] built from [[id, name]] pairs: a later section with the same
    id replaces the earlier one. *)
Definition sectionNameById (sections : list AgendaSection) : gmap ID string :=
  foldl (fun m s => <[section_id s := name s]> m) ∅ sections.

Definition header : list string :=
  ["Section"; "Title"; "Owner"; "SlideNumber"; "DurationMin"; "Files";
   "Details"; "Notes"]%string.

(** [x ?? ''] for a field that may be undefined. *)
Definition orEmpty (x : option string) : string := default EmptyString x.

(** [String(a.durationMin)] is the plain decimal for a whole number up to
    2^53 in magnitude; the code prints rounded digits beyond that and an
    exponent form from 10^21. *)
Definition row (names : gmap ID string) (a : Activity) : list string :=
  [ escapeCsv (orEmpty (names !! sectionId a));
    escapeCsv (title a);
    escapeCsv (owner a);
    escapeCsv (orEmpty (slideNumber a));
    pretty (durationMin a);
    escapeCsv (orEmpty (files a));
    escapeCsv (orEmpty (details a));
    escapeCsv (orEmpty (notes a)) ].

Definition exportActivitiesToCSV (activities : list Activity)
    (sections : list AgendaSection) : string :=
  let names := sectionNameById sections in
  let lines :=
    foldl (fun lines a => lines ++ [String.concat (str comma) (row names a)])
          [String.concat (str comma) header] activities in
  String.concat (str newline) lines.

(** The character loop of [parseCsvLine]; [line[i + 1]] is the head of the
    rest, and [i++; continue] skips it. *)
Fixpoint parseLoop (inQuotes : bool) (cur : string) (result : list string)
    (line : string) {struct line} : list string :=
  match line with
  | EmptyString => result ++ [cur]
  | String ch rest =>
      if inQuotes then
        if Ascii.eqb ch quote then
          match rest with
          | String next rest' =>
              if Ascii.eqb next quote
              then parseLoop true (cur +:+ str quote) result rest'
              else parseLoop false cur result rest
          | EmptyString => parseLoop false cur result rest
          end
        else parseLoop true (cur +:+ str ch) result rest
      else
        if Ascii.eqb ch quote then parseLoop true cur result rest
        else if Ascii.eqb ch comma
        then parseLoop false EmptyString (result ++ [cur]) rest
        else parseLoop false (cur +:+ str ch) result rest
  end.

Definition parseCsvLine (line : string) : list string :=
  parseLoop false EmptyString [] line.

(** [text.split(/\r?\n/)]: a line ends at a line feed, and a carriage
    return just before it belongs to the separator. *)
Fixpoint splitLoop (cur : string) (out : list string) (text : string)
    {struct text} : list string :=
  match text with
  | EmptyString => out ++ [cur]
  | String ch rest =>
      if Ascii.eqb ch newline then splitLoop EmptyString (out ++ [cur]) rest
      else if Ascii.eqb ch carriageReturn then
        match rest with
        | String next rest' =>
            if Ascii.eqb next newline
            then splitLoop EmptyString (out ++ [cur]) rest'
            else splitLoop (cur +:+ str ch) out rest
        | EmptyString => splitLoop (cur +:+ str ch) out rest
        end
      else splitLoop (cur +:+ str ch) out rest
  end.

Definition splitLines (text : string) : list string :=
  splitLoop EmptyString [] text.

End Csv.

Module CsvFacts.

Import Csv.

Lemma append_cons (c : ascii) (s t : string) :
  String c s +:+ t = String c (s +:+ t).
Proof. reflexivity. Qed.

Lemma append_nil_l (s : string) : EmptyString +:+ s = s.
Proof. reflexivity. Qed.

Lemma append_nil_r (s : string) : s +:+ EmptyString = s.
Proof. induction s as [|c s IH]; [done|]. by rewrite append_cons, IH. Qed.

Lemma append_assoc (s t u : string) : (s +:+ t) +:+ u = s +:+ t +:+ u.
Proof. induction s as [|c s IH]; [done|]. by rewrite !append_cons, IH. Qed.

Lemma append_snoc (s t : string) (c : ascii) :
  (s +:+ str c) +:+ t = s +:+ String c t.
Proof. by rewrite append_assoc. Qed.

Ltac step_loop :=
  rewrite ?append_cons, ?append_nil_l; cbn [parseLoop doubleQuotes].

(** What may follow a cell in a line: the end, or a character that is not a
    double quote. *)
Definition follows (tail : string) : Prop :=
  match tail with
  | EmptyString => True
  | String ch _ => ch <> quote
  end.

(** A cell [c] reads back as the value [f]. *)
Definition reads (c f : string) : Prop :=
  forall cur result tail, follows tail ->
    parseLoop false cur result (c +:+ tail) =
    parseLoop false (cur +:+ f) result tail.

Lemma test_false (class : ascii -> bool) (c : ascii) (s : string) :
  test class (String c s) = false -> class c = false /\ test class s = false.
Proof. simpl. by intros [??]%orb_false_elim. Qed.

Lemma special_false (c : ascii) :
  special c = false ->
  Ascii.eqb c quote = false /\ Ascii.eqb c comma = false /\
  Ascii.eqb c newline = false.
Proof.
  unfold special. intros [[??]%orb_false_elim ?]%orb_false_elim. done.
Qed.

Lemma reads_plain (f : string) :
  test (fun c => Ascii.eqb c quote || Ascii.eqb c comma) f = false ->
  reads f f.
Proof.
  intros Hf cur result tail _. revert cur Hf.
  induction f as [|c f IH]; intros cur Hf.
  - by rewrite append_nil_l, append_nil_r.
  - apply test_false in Hf as [[Hq Hc]%orb_false_elim Hf].
    step_loop. rewrite Hq, Hc, IH by done.
    by rewrite append_snoc.
Qed.

Lemma parseLoop_quoted (f cur : string) (result : list string)
    (tail : string) :
  follows tail ->
  parseLoop true cur result (doubleQuotes f +:+ String quote tail) =
  parseLoop false (cur +:+ f) result tail.
Proof.
  intros Htail. revert cur. induction f as [|c f IH]; intros cur.
  - step_loop.
    rewrite Ascii.eqb_refl, append_nil_r. destruct tail as [|next tail]; [done|].
    simpl in Htail. apply Ascii.eqb_neq in Htail. by rewrite Htail.
  - cbn [doubleQuotes]. destruct (Ascii.eqb c quote) eqn:Hc.
    + apply Ascii.eqb_eq in Hc as ->.
      step_loop. rewrite !Ascii.eqb_refl, IH.
      by rewrite append_snoc.
    + step_loop. rewrite Hc, IH. by rewrite append_snoc.
Qed.

Lemma reads_escapeCsv (f : string) : reads (escapeCsv f) f.
Proof.
  unfold escapeCsv. destruct (test special f) eqn:Hf.
  - intros cur result tail Htail.
    rewrite !append_assoc. unfold str. step_loop.
    rewrite Ascii.eqb_refl. by apply parseLoop_quoted.
  - assert (Hplain : doubleQuotes f = f /\
      test (fun c => Ascii.eqb c quote || Ascii.eqb c comma) f = false).
    { induction f as [|c f IH]; [done|].
      apply test_false in Hf as [(Hq & Hc & _)%special_false Hf].
      destruct (IH Hf) as [IH1 IH2]. simpl. by rewrite Hq, Hc, IH1, IH2. }
    destruct Hplain as [-> Hplain]. by apply reads_plain.
Qed.

Lemma parseLoop_cells (cells values : list string) (c f : string)
    (result : list string) :
  Forall2 reads (c :: cells) (f :: values) ->
  parseLoop false EmptyString result (String.concat (str comma) (c :: cells)) =
  result ++ f :: values.
Proof.
  revert values c f result.
  induction cells as [|c' cells IH]; intros values c f result H.
  - apply Forall2_cons_1 in H as [Hc H]. apply Forall2_nil_inv_l in H as ->.
    cbn [String.concat]. rewrite <- (append_nil_r c), Hc by done. done.
  - apply Forall2_cons_1 in H as [Hc H].
    destruct values as [|f' values]; [by apply Forall2_nil_inv_r in H|].
    change (String.concat (str comma) (c :: c' :: cells))
      with (c +:+ String comma (String.concat (str comma) (c' :: cells))).
    rewrite Hc by (simpl; discriminate).
    step_loop.
    change (Ascii.eqb comma quote) with false.
    change (Ascii.eqb comma comma) with true. cbn match.
    rewrite (IH values c' f') by done. by rewrite <- app_assoc.
Qed.

(** X4: a line written by joining escaped fields with commas parses back to
    exactly those fields, whatever characters they hold, as long as there
    is at least one field. *)
Theorem parseCsvLine_escapeCsv (fields : list string) :
  fields <> [] ->
  parseCsvLine (String.concat (str comma) (escapeCsv <$> fields)) = fields.
Proof.
  intros Hne. destruct fields as [|f fields]; [done|].
  unfold parseCsvLine. rewrite fmap_cons.
  rewrite (parseLoop_cells _ fields _ f); [done|].
  constructor; [apply reads_escapeCsv|].
  apply Forall2_fmap_l, Forall_Forall2_diag, Forall_forall.
  intros ??. apply reads_escapeCsv.
Qed.

Lemma parseCsvLine_escapeCsv_witness :
  let fields := ["Intro, part 1"; String quote "quoted"; "plain"]%string in
  fields <> [] /\
  parseCsvLine (String.concat (str comma) (escapeCsv <$> fields)) = fields.
Proof.
  intros fields. split; [done|].
  apply (parseCsvLine_escapeCsv fields). done.
Defined.

(** No field list is written as the empty line: the empty line reads as one
    empty field. *)
Example parseCsvLine_empty : parseCsvLine EmptyString = [EmptyString].
Proof. reflexivity. Qed.

(** *** The exported text, line by line *)

(** The field values of an activity, in column order. *)
Definition values (names : gmap ID string) (a : Activity) : list string :=
  [ orEmpty (names !! sectionId a); title a; owner a;
    orEmpty (slideNumber a); pretty (durationMin a); orEmpty (files a);
    orEmpty (details a); orEmpty (notes a) ].

Definition lineBreak (ch : ascii) : bool :=
  Ascii.eqb ch newline || Ascii.eqb ch carriageReturn.

Definition oneLine (s : string) : Prop := test lineBreak s = false.

Lemma test_app (class : ascii -> bool) (s t : string) :
  test class (s +:+ t) = test class s || test class t.
Proof.
  induction s as [|c s IH]; [done|].
  rewrite append_cons. cbn [test]. by rewrite IH, orb_assoc.
Qed.

Lemma test_doubleQuotes (class : ascii -> bool) (s : string) :
  test class (doubleQuotes s) = test class s.
Proof.
  induction s as [|c s IH]; [done|]. cbn [doubleQuotes].
  destruct (Ascii.eqb c quote) eqn:Hc.
  - apply Ascii.eqb_eq in Hc as ->. cbn [test]. rewrite IH.
    by destruct (class quote).
  - cbn [test]. by rewrite IH.
Qed.

Lemma oneLine_escapeCsv (s : string) : oneLine s -> oneLine (escapeCsv s).
Proof.
  unfold oneLine, escapeCsv. intros Hs. destruct (test special s).
  - rewrite !test_app, test_doubleQuotes, Hs. done.
  - by rewrite test_doubleQuotes.
Qed.

Lemma oneLine_concat (cells : list string) :
  Forall oneLine cells -> oneLine (String.concat (str comma) cells).
Proof.
  induction 1 as [|c cells Hc Hcells IH]; [done|].
  destruct cells as [|c' cells]; [done|].
  change (String.concat (str comma) (c :: c' :: cells))
    with (c +:+ str comma +:+ String.concat (str comma) (c' :: cells)).
  unfold oneLine in *. by rewrite !test_app, Hc, IH.
Qed.

(** Decimal numerals hold digits and at most a leading minus sign. *)
Lemma pretty_N_char_digit (d : N) : TimeCodec.isDigit (pretty_N_char d) = true.
Proof.
  unfold pretty_N_char. destruct d as [|p]; [done|].
  do 4 (try destruct p as [p|p|]); done.
Qed.

Lemma test_pretty_N_go (class : ascii -> bool) (x : N) (s : string) :
  (forall c, TimeCodec.isDigit c = true -> class c = false) ->
  test class (pretty_N_go x s) = test class s.
Proof.
  intros Hclass. revert s.
  induction (N.lt_wf_0 x) as [x _ IH]; intros s.
  destruct (decide (x = 0)%N) as [->|Hx]; [by rewrite pretty_N_go_0|].
  rewrite pretty_N_go_step by lia.
  rewrite IH by (apply N.div_lt; lia).
  cbn [test]. by rewrite Hclass by apply pretty_N_char_digit.
Qed.

Lemma test_pretty_Z (class : ascii -> bool) (z : Z) :
  (forall c, TimeCodec.isDigit c = true -> class c = false) ->
  class "-"%char = false ->
  test class (pretty z) = false.
Proof.
  intros Hclass Hdash.
  assert (HN : forall n : N, test class (pretty n) = false).
  { intros n. unfold pretty, pretty_N. case_decide.
    - cbn [test]. by rewrite Hclass.
    - by rewrite test_pretty_N_go. }
  destruct z as [|p|p]; unfold pretty, pretty_Z.
  - cbn [test]. by rewrite Hclass.
  - apply HN.
  - rewrite test_app. cbn [test]. rewrite Hdash. apply (HN (N.pos p)).
Qed.

Lemma isDigit_cases (c : ascii) :
  TimeCodec.isDigit c = true ->
  c ∈ ["0"; "1"; "2"; "3"; "4"; "5"; "6"; "7"; "8"; "9"]%char.
Proof.
  unfold TimeCodec.isDigit, TimeCodec.inRange. intros H.
  apply andb_true_iff in H as [Hlo Hhi].
  apply N.leb_le in Hlo, Hhi.
  rewrite <- (ascii_N_embedding c).
  assert (Hn : exists k, (k < 10)%nat /\ N_of_ascii c = (48 + N.of_nat k)%N).
  { exists (N.to_nat (N_of_ascii c - 48)). lia. }
  destruct Hn as (k & Hk & ->).
  do 10 (destruct k as [|k]; [set_solver|]). lia.
Qed.

Lemma digit_plain (c : ascii) :
  TimeCodec.isDigit c = true ->
  Ascii.eqb c quote || Ascii.eqb c comma = false.
Proof.
  intros H%isDigit_cases. set_unfold. by repeat destruct H as [->|H].
Qed.

Lemma digit_oneLine (c : ascii) :
  TimeCodec.isDigit c = true -> lineBreak c = false.
Proof.
  intros H%isDigit_cases. set_unfold. by repeat destruct H as [->|H].
Qed.

Lemma reads_pretty (z : Z) : reads (pretty z) (pretty z).
Proof. apply reads_plain, test_pretty_Z; [apply digit_plain|done]. Qed.

Lemma parseCsvLine_row (names : gmap ID string) (a : Activity) :
  parseCsvLine (String.concat (str comma) (row names a)) = values names a.
Proof.
  unfold parseCsvLine, row, values.
  apply (parseLoop_cells _ _ _ _ []).
  repeat first [apply Forall2_nil_2 | apply Forall2_cons_2];
    first [apply reads_escapeCsv | apply reads_pretty].
Qed.

Lemma oneLine_row (names : gmap ID string) (a : Activity) :
  Forall oneLine (values names a) ->
  oneLine (String.concat (str comma) (row names a)).
Proof.
  intros H. apply oneLine_concat. unfold values in H. unfold row.
  repeat match goal with
  | H : Forall _ (_ :: _) |- _ => apply Forall_cons in H as [? H]
  end.
  repeat constructor; try by apply oneLine_escapeCsv.
  apply test_pretty_Z; [apply digit_oneLine|done].
Qed.

Lemma splitLoop_line (l cur : string) (out : list string) (tail : string) :
  oneLine l ->
  splitLoop cur out (l +:+ tail) = splitLoop (cur +:+ l) out tail.
Proof.
  unfold oneLine. revert cur. induction l as [|c l IH]; intros cur Hl.
  - by rewrite append_nil_l, append_nil_r.
  - apply test_false in Hl as [[Hn Hr]%orb_false_elim Hl].
    rewrite append_cons. cbn [splitLoop]. rewrite Hn, Hr, IH by done.
    by rewrite append_snoc.
Qed.

Lemma splitLoop_lines (l : string) (lines out : list string) :
  Forall oneLine (l :: lines) ->
  splitLoop EmptyString out (String.concat (str newline) (l :: lines)) =
  out ++ l :: lines.
Proof.
  revert l out. induction lines as [|l' lines IH]; intros l out H.
  - apply Forall_cons in H as [Hl _]. cbn [String.concat].
    rewrite <- (append_nil_r l) at 1. by rewrite splitLoop_line.
  - apply Forall_cons in H as [Hl H].
    change (String.concat (str newline) (l :: l' :: lines))
      with (l +:+ String newline (String.concat (str newline) (l' :: lines))).
    rewrite splitLoop_line by done. cbn [splitLoop].
    change (Ascii.eqb newline newline) with true. cbn match.
    rewrite IH by done. by rewrite append_nil_l, <- app_assoc.
Qed.

Lemma foldl_push_lines {A : Type} (f : A -> string) (l : list A)
    (lines : list string) :
  foldl (fun lines a => lines ++ [f a]) lines l = lines ++ (f <$> l).
Proof.
  revert lines. induction l as [|a l IH]; intros lines; simpl.
  - by rewrite app_nil_r.
  - by rewrite IH, <- app_assoc.
Qed.

(** X5: when every duration is a whole number of at most 2^53 in magnitude
    and no exported value holds a line feed or a carriage return, the
    exported text splits at line ends into the header line and one line per
    activity, in order, and each line parses back to the values written:
    the section's name (empty when the section is unknown), title, owner,
    slide number, duration in decimal, files, details and notes. *)
Theorem export_lines (activities : list Activity)
    (sections : list AgendaSection) :
  Forall (fun a => Z.abs (durationMin a) <= 2 ^ 53) activities ->
  Forall (fun a => Forall oneLine (values (sectionNameById sections) a))
         activities ->
  parseCsvLine <$> splitLines (exportActivitiesToCSV activities sections) =
  header :: (values (sectionNameById sections) <$> activities).
Proof.
  intros _ Hone. unfold exportActivitiesToCSV, splitLines.
  set (names := sectionNameById sections) in *.
  rewrite foldl_push_lines. cbn [app].
  rewrite splitLoop_lines.
  - rewrite app_nil_l, fmap_cons, <- list_fmap_compose. f_equal.
    apply list_fmap_ext. intros _ a _. apply parseCsvLine_row.
  - constructor; [done|]. apply Forall_fmap.
    eapply Forall_impl; [exact Hone|]. intros a Ha. by apply oneLine_row.
Qed.

Definition talk : Activity :=
  mkActivity "a1" "Intro, part 1" "Kim" None 15 None
             (Some (String quote "draft")) None "s1" None None None.

Lemma export_lines_witness :
  let secs := [mkSection "s1" "Opening" 1 None] in
  Forall (fun a => Z.abs (durationMin a) <= 2 ^ 53) [talk] /\
  Forall (fun a => Forall oneLine (values (sectionNameById secs) a)) [talk] /\
  parseCsvLine <$> splitLines (exportActivitiesToCSV [talk] secs) =
  header :: (values (sectionNameById secs) <$> [talk]).
Proof.
  intros secs.
  assert (Hd : Forall (fun a => Z.abs (durationMin a) <= 2 ^ 53) [talk]).
  { repeat constructor. simpl. lia. }
  assert (H : Forall (fun a =>
    Forall oneLine (values (sectionNameById secs) a)) [talk]).
  { repeat constructor. }
  split; [exact Hd|]. split; [exact H|].
  apply (export_lines [talk] secs Hd H).
Defined.

(** A value with a line feed is written inside quotes, but the line is
    still cut there. *)
Example export_line_feed :
  let a := mkActivity "a1" "T" "K" None 5 None None
             (Some ("x" +:+ str newline +:+ "y"))%string "s1" None None None in
  length (splitLines (exportActivitiesToCSV [a] [])) = 3%nat.
Proof. reflexivity. Qed.

End CsvFacts.

(** ** Editing the agenda ([App.tsx], lines 140-291) *)

Module App.

(** [{ ...a, sectionId }] *)
Definition withSection (a : Activity) (sid : ID) : Activity :=
  {| activity_id := activity_id a; title := title a; owner := owner a;
     slideNumber := slideNumber a; durationMin := durationMin a;
     files := files a; details := details a; notes := notes a;
     sectionId := sid; isSystem := isSystem a; systemKey := systemKey a;
     completed := completed a |}.

(** [{ ...s, order }] *)
Definition withOrder (s : AgendaSection) (o : Z) : AgendaSection :=
  {| section_id := section_id s; name := name s; order := o;
     dayNumber := dayNumber s |}.

(** [addSection]; [newId] is the value of [uid()]. [Math.max] is only
    called on a list that is not empty. *)
Definition addSection (newId : ID) (nm : string) (prev : list AgendaSection)
  : list AgendaSection :=
  let order :=
    match order <$> prev with
    | [] => 1
    | o :: os => foldl Z.max o os + 1
    end in
  prev ++ [ {| section_id := newId; name := nm; order := order;
               dayNumber := None |} ].

(** [removeSection] updates the sections and the activities. *)
Definition removeSection (id : ID)
    (st : list AgendaSection * list Activity)
  : list AgendaSection * list Activity :=
  (filter (fun s => section_id s <> id) st.1,
   filter (fun a => sectionId a <> id) st.2).

(** The [prev.map] that exchanges the [order] of [a] and [b]. *)
Definition swapOrders (a b : AgendaSection) (prev : list AgendaSection)
  : list AgendaSection :=
  (fun s =>
     if decide (section_id s = section_id a) then withOrder s (order b)
     else if decide (section_id s = section_id b) then withOrder s (order a)
     else s) <$> prev.

(** [findIndex] is [list_find]: the first index that satisfies the test and
    the element there, [None] for [-1]. *)
Definition moveSectionUp (id : ID) (prev : list AgendaSection)
  : list AgendaSection :=
  let sorted := orderSections prev in
  match list_find (fun s => section_id s = id) sorted with
  | None => prev
  | Some (idx, b) =>
      match idx with
      | O => prev
      | S before =>
          match sorted !! before with
          | Some a => swapOrders a b prev
          | None => prev
          end
      end
  end.

Definition moveSectionDown (id : ID) (prev : list AgendaSection)
  : list AgendaSection :=
  let sorted := orderSections prev in
  match list_find (fun s => section_id s = id) sorted with
  | None => prev
  | Some (idx, a) =>
      if (Z.of_nat (length sorted) - 1 <=? Z.of_nat idx) then prev
      else
        match sorted !! S idx with
        | Some b => swapOrders a b prev
        | None => prev
        end
  end.

Definition removeActivity (id : ID) (prev : list Activity) : list Activity :=
  filter (fun a => activity_id a <> id) prev.

(** [!!s] for a string. *)
Definition nonEmpty (s : string) : bool :=
  match s with EmptyString => false | _ => true end.

(** The indices of the activities of a section, in order. *)
Definition indicesInSection (targetSection : ID) (prev : list Activity)
  : list nat :=
  fst <$> filter (fun x => sectionId x.2 = targetSection) (imap pair prev).

(** [next.splice(pos, 0, x)] *)
Definition spliceIn {A : Type} (pos : nat) (x : A) (next : list A) : list A :=
  take pos next ++ x :: drop pos next.

(** The drag-and-drop handler [reorder]. *)
Definition reorder (id : ID) (overId overSectionId : option ID)
    (prev : list Activity) : list Activity :=
  match list_find (fun a => activity_id a = id) prev with
  | None => prev
  | Some (fromIdx, moving) =>
      let targetSection := default (sectionId moving) overSectionId in
      let '(targetIdx, targetSection) :=
        if truthyId overId then
          match list_find (fun a => Some (activity_id a) = overId) prev with
          | Some (overIdx, over) => (overIdx, sectionId over)
          | None => (length prev, targetSection)
          end
        else if nonEmpty targetSection then
          (match last (indicesInSection targetSection prev) with
           | Some i => S i
           | None => length prev
           end, targetSection)
        else (length prev, targetSection) in
      let next := delete fromIdx prev in
      let updated := withSection moving targetSection in
      spliceIn (if (fromIdx <? targetIdx)%nat then (targetIdx - 1)%nat
                else targetIdx)
               updated next
  end.

End App.

Module AppFacts.

Import App.

(** *** Drag and drop *)

Lemma spliceIn_filter {A : Type} (P : A -> Prop) `{!forall x, Decision (P x)}
    (pos : nat) (x : A) (next : list A) :
  ~ P x -> filter P (spliceIn pos x next) = filter P next.
Proof.
  intros Hx. unfold spliceIn.
  rewrite filter_app, filter_cons_False, <- filter_app by done.
  by rewrite take_drop.
Qed.

Lemma spliceIn_perm {A : Type} (pos : nat) (x : A) (next : list A) :
  spliceIn pos x next ≡ₚ x :: next.
Proof.
  unfold spliceIn. rewrite <- Permutation_middle. by rewrite take_drop.
Qed.

Lemma spliceIn_length {A : Type} (pos : nat) (x : A) (next : list A) :
  length (spliceIn pos x next) = S (length next).
Proof. by rewrite spliceIn_perm. Qed.

Lemma spliceIn_lookup {A : Type} (pos : nat) (x : A) (next : list A) :
  (pos <= length next)%nat ->
  spliceIn pos x next !! pos = Some x /\
  spliceIn pos x next !! S pos = next !! pos.
Proof.
  intros Hpos. unfold spliceIn.
  assert (Hlen : length (take pos next) = pos) by (rewrite length_take; lia).
  split.
  - rewrite lookup_app_r by lia. by rewrite Hlen, Nat.sub_diag.
  - rewrite lookup_app_r by lia. rewrite Hlen.
    replace (S pos - pos)%nat with 1%nat by lia.
    change ((x :: drop pos next) !! 1%nat) with (drop pos next !! 0%nat).
    rewrite lookup_drop. f_equal. lia.
Qed.

Lemma delete_found {A : Type} (l : list A) (i : nat) (x : A) :
  l !! i = Some x -> l ≡ₚ x :: delete i l.
Proof.
  intros Hi. rewrite delete_take_drop.
  rewrite <- (take_drop_middle l i x Hi) at 1.
  by rewrite <- Permutation_middle.
Qed.

Lemma delete_filter {A : Type} (P : A -> Prop) `{!forall x, Decision (P x)}
    (l : list A) (i : nat) (x : A) :
  l !! i = Some x -> ~ P x -> filter P (delete i l) = filter P l.
Proof.
  intros Hi Hx. rewrite delete_take_drop.
  rewrite <- (take_drop_middle l i x Hi) at 3.
  by rewrite !filter_app, filter_cons_False.
Qed.

(** X6: a drag and drop loses and invents nothing. The list keeps its
    length and its ids, and the activities other than the dragged id stay
    as they were, in the same relative order. *)
Theorem reorder_keeps_others (id : ID) (overId overSectionId : option ID)
    (prev : list Activity) :
  let next := reorder id overId overSectionId prev in
  length next = length prev /\
  activity_id <$> next ≡ₚ activity_id <$> prev /\
  removeActivity id next = removeActivity id prev.
Proof.
  unfold removeActivity, reorder.
  destruct (list_find _ prev) as [[fromIdx moving]|] eqn:Hfind; [|done].
  apply list_find_Some in Hfind as (Hfrom & Hid & _).
  match goal with
  | |- context [let '(_, _) := ?t in _] => destruct t as [targetIdx section]
  end.
  cbv zeta. repeat split.
  - rewrite spliceIn_length, length_delete by eauto. 
    apply lookup_lt_Some in Hfrom. lia.
  - rewrite spliceIn_perm, fmap_cons.
    rewrite (delete_found prev fromIdx moving Hfrom) at 2.
    by rewrite fmap_cons.
  - rewrite spliceIn_filter by (cbn; intros H; by apply H).
    by rewrite (delete_filter _ prev fromIdx moving Hfrom)
      by (intros H; by apply H).
Qed.

Lemma withSection_same (a : Activity) : withSection a (sectionId a) = a.
Proof. by destruct a. Qed.

(** X7: dropping an activity on another one puts it immediately before
    that one and into that one's section; dropping it on itself changes
    nothing. *)
Theorem reorder_before (id overId : ID) (overSectionId : option ID)
    (prev : list Activity) (i j : nat) (moving over : Activity) :
  nonEmpty overId = true ->
  list_find (fun a => activity_id a = id) prev = Some (i, moving) ->
  list_find (fun a => activity_id a = overId) prev = Some (j, over) ->
  let next := reorder id (Some overId) overSectionId prev in
  (overId = id -> next = prev) /\
  (overId <> id ->
   exists k, next !! k = Some (withSection moving (sectionId over)) /\
             next !! S k = Some over).
Proof.
  intros Hne Hi Hj. unfold reorder. rewrite Hi.
  assert (Hfind : list_find (fun a => Some (activity_id a) = Some overId) prev
                  = Some (j, over)).
  { rewrite <- Hj. apply list_find_ext. intros a. split; congruence. }
  replace (truthyId (Some overId)) with true by (by destruct overId).
  rewrite Hfind. cbv zeta.
  apply list_find_Some in Hi as (Hi & Hid & Hfirst).
  apply list_find_Some in Hj as (Hj & Hover & Hfirst').
  pose proof (lookup_lt_Some _ _ _ Hi) as Hlen.
  split.
  - intros ->.
    assert (i = j) as <-.
    { destruct (Nat.lt_trichotomy i j) as [Hlt|[?|Hlt]]; [|done|].
      - by destruct (Hfirst' _ _ Hi Hlt).
      - by destruct (Hfirst _ _ Hj Hlt). }
    assert (over = moving) as -> by congruence.
    rewrite Nat.ltb_irrefl, withSection_same. unfold spliceIn.
    rewrite delete_take_drop, take_app_length', drop_app_length'
      by (rewrite length_take; lia).
    by apply take_drop_middle.
  - intros Hneq.
    assert (i <> j) by (intros ->; congruence).
    destruct (i <? j)%nat eqn:Hlt.
    + apply Nat.ltb_lt in Hlt. exists (j - 1)%nat.
      destruct (spliceIn_lookup (j - 1) (withSection moving (sectionId over))
                  (delete i prev)) as [H1 H2].
      { rewrite length_delete by eauto. apply lookup_lt_Some in Hj. lia. }
      split; [done|]. rewrite H2, list_lookup_delete_ge by lia.
      by replace (S (j - 1)) with j by lia.
    + apply Nat.ltb_ge in Hlt. exists j.
      destruct (spliceIn_lookup j (withSection moving (sectionId over))
                  (delete i prev)) as [H1 H2].
      { rewrite length_delete by eauto. lia. }
      split; [done|]. by rewrite H2, list_lookup_delete_lt by lia.
Qed.

Lemma reorder_before_witness :
  let prev := [act "a" 10 "s1"; act "b" 10 "s1"; act "c" 10 "s2"] in
  reorder "c" (Some "a"%string) None prev =
  [act "c" 10 "s1"; act "a" 10 "s1"; act "b" 10 "s1"] /\
  exists k, reorder "c" (Some "a"%string) None prev !! k =
              Some (withSection (act "c" 10 "s2") "s1") /\
            reorder "c" (Some "a"%string) None prev !! S k =
              Some (act "a" 10 "s1").
Proof.
  intros prev. split; [reflexivity|].
  refine (proj2 (reorder_before "c" "a" None prev 2 0 (act "c" 10 "s2")
                   (act "a" 10 "s1") _ _ _) _); done.
Defined.

(** The place after the last activity of a section: no activity of the
    section sits there or later. *)
Definition afterSection (sid : ID) (prev : list Activity) : nat :=
  match last (indicesInSection sid prev) with
  | Some i => S i
  | None => length prev
  end.

Lemma indicesInSection_snoc (sid : ID) (l : list Activity) (a : Activity) :
  indicesInSection sid (l ++ [a]) =
  indicesInSection sid l ++
  (if decide (sectionId a = sid) then [length l] else []).
Proof.
  unfold indicesInSection. rewrite imap_app, filter_app, fmap_app.
  f_equal. cbn [imap]. rewrite Nat.add_0_r.
  rewrite filter_cons, filter_nil. cbn [snd]. by case_decide.
Qed.

Lemma afterSection_spec (sid : ID) (prev : list Activity) :
  (afterSection sid prev <= length prev)%nat /\
  forall j a, prev !! j = Some a -> sectionId a = sid ->
              (j < afterSection sid prev)%nat.
Proof.
  unfold afterSection.
  induction prev as [|a prev IH] using rev_ind; [by split|].
  rewrite indicesInSection_snoc, length_app. cbn [length].
  destruct IH as [IH1 IH2]. case_decide as Ha.
  - rewrite last_snoc. split; [lia|].
    intros j b Hj _. apply lookup_lt_Some in Hj.
    rewrite length_app in Hj. cbn in Hj. lia.
  - rewrite app_nil_r. split.
    + destruct (last _); lia.
    + intros j b Hj Hb. apply lookup_snoc_Some in Hj as [[Hlt Hj]|[_ ->]];
        [|done].
      specialize (IH2 j b Hj Hb). destruct (last _); lia.
Qed.

Lemma filter_none {A : Type} (P : A -> Prop) `{!forall x, Decision (P x)}
    (l : list A) :
  (forall i x, l !! i = Some x -> ~ P x) -> filter P l = [].
Proof.
  induction l as [|x l IH]; intros Hl; [done|].
  rewrite filter_cons_False by (apply (Hl 0%nat); done).
  apply IH. intros i y Hy. by apply (Hl (S i)).
Qed.

(** X8: dropping an activity on a section, not on an activity, makes it
    the last activity of the section it lands in: the section named by the
    drop, or its own section when none is named. The other activities of
    that section keep their order before it. *)
Theorem reorder_into_section (id : ID) (overSectionId : option ID)
    (prev : list Activity) (i : nat) (moving : Activity) :
  list_find (fun a => activity_id a = id) prev = Some (i, moving) ->
  let sid := default (sectionId moving) overSectionId in
  filter (fun a => sectionId a = sid) (reorder id None overSectionId prev) =
  filter (fun a => sectionId a = sid) (delete i prev) ++
  [withSection moving sid].
Proof.
  intros Hfind sid. unfold reorder. rewrite Hfind. cbn [truthyId].
  fold sid. apply list_find_Some in Hfind as (Hi & _ & _).
  pose proof (lookup_lt_Some _ _ _ Hi) as Hlen.
  assert (Hgen : forall t : nat,
    (t <= length prev)%nat ->
    (forall j a, prev !! j = Some a -> sectionId a = sid -> (j < t)%nat) ->
    filter (fun a => sectionId a = sid)
      (spliceIn (if (i <? t)%nat then (t - 1)%nat else t)
         (withSection moving sid) (delete i prev)) =
    filter (fun a => sectionId a = sid) (delete i prev) ++
    [withSection moving sid]).
  { intros t Ht Hlast. unfold spliceIn.
    set (pos := if (i <? t)%nat then (t - 1)%nat else t).
    assert (Hdrop : filter (fun a => sectionId a = sid)
                      (drop pos (delete i prev)) = []).
    { apply filter_none. intros k a Hk Ha. rewrite lookup_drop in Hk.
      subst pos. destruct (i <? t)%nat eqn:Hlt.
      - apply Nat.ltb_lt in Hlt.
        rewrite list_lookup_delete_ge in Hk by lia.
        specialize (Hlast _ _ Hk Ha). lia.
      - apply Nat.ltb_ge in Hlt.
        destruct (decide (t + k < i)%nat).
        + rewrite list_lookup_delete_lt in Hk by lia.
          specialize (Hlast _ _ Hk Ha). lia.
        + rewrite list_lookup_delete_ge in Hk by lia.
          specialize (Hlast _ _ Hk Ha). lia. }
    rewrite filter_app, filter_cons_True, Hdrop by done.
    rewrite <- (take_drop pos (delete i prev)) at 2.
    by rewrite filter_app, Hdrop, app_nil_r. }
  destruct (nonEmpty sid).
  - destruct (afterSection_spec sid prev) as [H1 H2].
    apply (Hgen (afterSection sid prev) H1 H2).
  - apply Hgen; [done|]. intros j a Hj _. by apply lookup_lt_Some in Hj.
Qed.

Lemma reorder_into_section_witness :
  let prev := [act "a" 10 "s1"; act "b" 10 "s2"; act "c" 10 "s1"; act "d" 10 "s2"] in
  list_find (fun a => activity_id a = "b"%string) prev
    = Some (1%nat, act "b" 10 "s2") /\
  filter (fun a => sectionId a = "s1"%string)
         (reorder "b" None (Some "s1"%string) prev) =
  [act "a" 10 "s1"; act "c" 10 "s1"; act "b" 10 "s1"].
Proof.
  intros prev. split; [reflexivity|].
  exact (reorder_into_section "b" (Some "s1"%string) prev 1 (act "b" 10 "s2")
           eq_refl).
Defined.


(** *** Sections *)

Definition byOrder (a b : AgendaSection) : Z := order a - order b.

Lemma insertBy_snoc {A : Type} (cmp : A -> A -> Z) (x n : A) (l : list A) :
  cmp x n <= 0 -> insertBy cmp x (l ++ [n]) = insertBy cmp x l ++ [n].
Proof.
  intros Hx. induction l as [|y l IH]; cbn [app insertBy].
  - by rewrite (proj2 (Z.leb_le _ _) Hx).
  - destruct (cmp x y <=? 0); [done|]. by rewrite IH.
Qed.

Lemma sortBy_snoc {A : Type} (cmp : A -> A -> Z) (n : A) (l : list A) :
  Forall (fun x => cmp x n <= 0) l ->
  sortBy cmp (l ++ [n]) = sortBy cmp l ++ [n].
Proof.
  unfold sortBy. induction 1 as [|x l Hx Hl IH]; [done|].
  cbn [app foldr]. by rewrite IH, insertBy_snoc.
Qed.

Lemma foldl_max_le (o : Z) (os : list Z) :
  Forall (fun x => x <= foldl Z.max o os) (o :: os).
Proof.
  assert (Hmono : forall os o, o <= foldl Z.max o os).
  { clear. induction os as [|x os IH]; intros o; cbn [foldl]; [lia|].
    specialize (IH (Z.max o x)). lia. }
  constructor; [apply Hmono|].
  revert o. induction os as [|x os IH]; intros o; [done|].
  cbn [foldl]. constructor; [|apply IH].
  specialize (Hmono os (Z.max o x)). lia.
Qed.

Lemma addSection_order (newId : ID) (nm : string) (prev : list AgendaSection) :
  exists o, addSection newId nm prev = prev ++ [mkSection newId nm o None] /\
            Forall (fun s => order s < o) prev.
Proof.
  unfold addSection. destruct prev as [|s prev]; [by eexists|].
  eexists. split; [done|].
  rewrite fmap_cons.
  pose proof (foldl_max_le (order s) (order <$> prev)) as H.
  rewrite <- fmap_cons, Forall_fmap in H.
  eapply Forall_impl; [exact H|]. intros x Hx. cbn in Hx. lia.
Qed.

(** X9: a section that is added is displayed last: sorting the sections by
    their order puts the new one after all the others, whose display order
    does not change. *)
Theorem addSection_last (newId : ID) (nm : string)
    (prev : list AgendaSection) :
  exists s,
    section_id s = newId /\ name s = nm /\ dayNumber s = None /\
    addSection newId nm prev = prev ++ [s] /\
    orderSections (addSection newId nm prev) = orderSections prev ++ [s].
Proof.
  destruct (addSection_order newId nm prev) as (o & -> & Hlt).
  exists (mkSection newId nm o None). split_and!; try done.
  unfold orderSections. apply sortBy_snoc.
  eapply Forall_impl; [exact Hlt|]. intros x Hx. cbn in *. lia.
Qed.

(** Sections as the editor keeps them: no two share an id or an order. *)
Definition distinct (secs : list AgendaSection) : Prop :=
  NoDup (section_id <$> secs) /\ NoDup (order <$> secs).

Lemma insertBy_sorted (x : AgendaSection) (l : list AgendaSection) :
  StronglySorted (fun a b => order a <= order b) l ->
  StronglySorted (fun a b => order a <= order b) (insertBy byOrder x l).
Proof.
  induction 1 as [|y l Hl IH Hy]; cbn [insertBy].
  - repeat constructor.
  - unfold byOrder at 1. destruct (order x - order y <=? 0) eqn:Hc.
    + apply Z.leb_le in Hc. constructor; [by constructor|].
      constructor; [lia|]. eapply Forall_impl; [exact Hy|].
      intros z Hz. cbn in Hz. lia.
    + apply Z.leb_gt in Hc. constructor; [done|].
      rewrite (insertBy_perm byOrder x l). constructor; [lia|done].
Qed.

Lemma orderSections_sorted (secs : list AgendaSection) :
  StronglySorted (fun a b => order a <= order b) (orderSections secs).
Proof.
  unfold orderSections. fold byOrder. unfold sortBy.
  induction secs as [|s secs IH]; cbn [foldr]; [constructor|].
  by apply insertBy_sorted.
Qed.

Lemma sorted_strict (l : list AgendaSection) :
  StronglySorted (fun a b => order a <= order b) l ->
  NoDup (order <$> l) ->
  StronglySorted (fun a b => order a < order b) l.
Proof.
  induction 1 as [|x l Hl IH Hx]; [constructor|].
  rewrite fmap_cons. intros [Hnotin Hnd]%NoDup_cons.
  constructor; [by apply IH|].
  rewrite Forall_forall in Hx. apply Forall_forall. intros y Hy.
  specialize (Hx y Hy). cbn in Hx.
  assert (order x <> order y).
  { intros Heq. apply Hnotin. rewrite Heq. by apply list_elem_of_fmap_2. }
  lia.
Qed.

Lemma strict_keys (l : list AgendaSection) :
  StronglySorted (fun a b => order a < order b) l <->
  StronglySorted Z.lt (order <$> l).
Proof.
  induction l as [|x l IH]; [split; constructor|].
  rewrite fmap_cons, !StronglySorted_cons, IH, Forall_fmap. done.
Qed.

Lemma strict_orders (l1 l2 : list AgendaSection) :
  order <$> l1 = order <$> l2 ->
  StronglySorted (fun a b => order a < order b) l1 ->
  StronglySorted (fun a b => order a < order b) l2.
Proof. rewrite !strict_keys. by intros ->. Qed.

#[local] Instance strict_antisymm :
  AntiSymm (=) (fun a b : AgendaSection => order a < order b).
Proof. intros a b ??. lia. Qed.

Lemma orderSections_unique (secs sorted : list AgendaSection) :
  NoDup (order <$> secs) ->
  sorted ≡ₚ secs ->
  StronglySorted (fun a b => order a < order b) sorted ->
  orderSections secs = sorted.
Proof.
  intros Hnd Hperm Hsorted.
  apply (StronglySorted_unique (fun a b => order a < order b)); [|done|].
  - apply sorted_strict; [apply orderSections_sorted|].
    unfold orderSections. by rewrite sortBy_perm.
  - unfold orderSections. by rewrite sortBy_perm.
Qed.

Definition swap (a b s : AgendaSection) : AgendaSection :=
  if decide (section_id s = section_id a) then withOrder s (order b)
  else if decide (section_id s = section_id b) then withOrder s (order a)
  else s.

Lemma swap_others (a b : AgendaSection) (l : list AgendaSection) :
  section_id a ∉ section_id <$> l -> section_id b ∉ section_id <$> l ->
  swap a b <$> l = l.
Proof.
  intros Ha Hb. induction l as [|s l IH]; [done|].
  rewrite fmap_cons in Ha, Hb. apply not_elem_of_cons in Ha as [Ha Ha'].
  apply not_elem_of_cons in Hb as [Hb Hb'].
  rewrite fmap_cons, IH by done. unfold swap.
  by rewrite !decide_False by done.
Qed.

(** Exchanging the orders of two neighbours of the display order exchanges
    the two in the display and leaves the rest in place. *)
Lemma swapOrders_neighbours (prev l1 l2 : list AgendaSection)
    (a b : AgendaSection) :
  distinct prev ->
  orderSections prev = l1 ++ a :: b :: l2 ->
  orderSections (swapOrders a b prev) =
  l1 ++ withOrder b (order a) :: withOrder a (order b) :: l2 /\
  distinct (swapOrders a b prev).
Proof.
  intros [Hids Hords] Hsorted.
  assert (Hperm : prev ≡ₚ l1 ++ a :: b :: l2).
  { rewrite <- Hsorted. unfold orderSections. by rewrite sortBy_perm. }
  assert (Hids' : NoDup (section_id <$> l1 ++ a :: b :: l2))
    by (by rewrite <- Hperm).
  rewrite fmap_app, !fmap_cons in Hids'.
  apply NoDup_app in Hids' as (_ & Hl1 & Hab).
  apply NoDup_cons in Hab as [Ha Hab]. apply NoDup_cons in Hab as [Hb _].
  apply not_elem_of_cons in Ha as [Hne Ha].
  assert (Hswap : swapOrders a b prev ≡ₚ
                  l1 ++ withOrder b (order a) :: withOrder a (order b) :: l2).
  { change (swapOrders a b prev) with (swap a b <$> prev).
    rewrite Hperm, fmap_app, !fmap_cons.
    rewrite !swap_others; try done.
    - unfold swap at 1 2. rewrite decide_True by done.
      rewrite decide_False, decide_True by done.
      apply Permutation_app_head, perm_swap.
    - intros H. apply (Hl1 _ H). repeat constructor.
    - intros H. apply (Hl1 _ H). repeat constructor. }
  assert (Hkeys : order <$> l1 ++ withOrder b (order a) ::
                    withOrder a (order b) :: l2 =
                  order <$> l1 ++ a :: b :: l2).
  { by rewrite !fmap_app, !fmap_cons. }
  assert (Hords' : NoDup (order <$> swapOrders a b prev)).
  { by rewrite Hswap, Hkeys, <- Hperm. }
  split; [|split; [|done]].
  - apply orderSections_unique; [done|by symmetry|].
    apply (strict_orders (l1 ++ a :: b :: l2)); [done|].
    rewrite <- Hsorted. apply sorted_strict; [apply orderSections_sorted|].
    unfold orderSections. by rewrite sortBy_perm.
  - rewrite Hswap, fmap_app, !fmap_cons. cbn [section_id withOrder].
    rewrite Hperm, fmap_app, !fmap_cons in Hids.
    assert (Hp : (section_id <$> l1) ++ section_id b :: section_id a ::
                   (section_id <$> l2) ≡ₚ
                 (section_id <$> l1) ++ section_id a :: section_id b ::
                   (section_id <$> l2))
      by apply Permutation_app_head, perm_swap.
    by rewrite Hp.
Qed.

Lemma find_by_id (sorted l1 l2 : list AgendaSection) (s : AgendaSection) :
  NoDup (section_id <$> sorted) ->
  sorted = l1 ++ s :: l2 ->
  list_find (fun x => section_id x = section_id s) sorted =
  Some (length l1, s).
Proof.
  intros Hnd ->. apply list_find_Some. split; [|split; [done|]].
  - by apply list_lookup_middle.
  - intros j y Hj Hlt Hy. rewrite lookup_app_l in Hj by done.
    rewrite fmap_app, fmap_cons in Hnd.
    apply NoDup_app in Hnd as (_ & Hnd & _).
    apply (Hnd (section_id s)); [|left].
    rewrite <- Hy. apply list_elem_of_fmap_2. by eapply list_elem_of_lookup_2.
Qed.

Lemma distinct_sorted (prev : list AgendaSection) :
  distinct prev -> NoDup (section_id <$> orderSections prev).
Proof. intros [H _]. unfold orderSections. by rewrite sortBy_perm. Qed.

(** X10: with distinct ids and orders, moving a section up exchanges it
    with the section displayed just before it, and nothing else moves; the
    ids and orders stay distinct. *)
Theorem moveSectionUp_swaps (prev l1 l2 : list AgendaSection)
    (a b : AgendaSection) :
  distinct prev ->
  orderSections prev = l1 ++ a :: b :: l2 ->
  let next := moveSectionUp (section_id b) prev in
  orderSections next =
  l1 ++ withOrder b (order a) :: withOrder a (order b) :: l2 /\
  distinct next.
Proof.
  intros Hd Hsorted. unfold moveSectionUp.
  rewrite (find_by_id _ (l1 ++ [a]) l2 b (distinct_sorted _ Hd))
    by (by rewrite Hsorted, <- app_assoc).
  rewrite length_app, Nat.add_comm. cbn [length Nat.add].
  rewrite Hsorted, list_lookup_middle by done. cbv zeta.
  by apply swapOrders_neighbours.
Qed.

Definition threeSections : list AgendaSection :=
  [mkSection "s2" "Two" 20 None; mkSection "s1" "One" 10 None;
   mkSection "s3" "Three" 30 None].

Lemma moveSectionUp_swaps_witness :
  section_id <$> orderSections threeSections = ["s1"; "s2"; "s3"]%string /\
  section_id <$> orderSections (moveSectionUp "s3" threeSections) =
  ["s1"; "s3"; "s2"]%string.
Proof.
  split; [reflexivity|].
  assert (Hd : distinct threeSections).
  { split; apply (bool_decide_unpack _); reflexivity. }
  destruct (moveSectionUp_swaps threeSections
              [mkSection "s1" "One" 10 None] []
              (mkSection "s2" "Two" 20 None) (mkSection "s3" "Three" 30 None)
              Hd eq_refl) as [H _].
  cbn [section_id] in H. rewrite H. reflexivity.
Defined.

(** X11: moving a section down exchanges it with the section displayed
    just after it. *)
Theorem moveSectionDown_swaps (prev l1 l2 : list AgendaSection)
    (a b : AgendaSection) :
  distinct prev ->
  orderSections prev = l1 ++ a :: b :: l2 ->
  let next := moveSectionDown (section_id a) prev in
  orderSections next =
  l1 ++ withOrder b (order a) :: withOrder a (order b) :: l2 /\
  distinct next.
Proof.
  intros Hd Hsorted. unfold moveSectionDown.
  rewrite (find_by_id _ l1 (b :: l2) a (distinct_sorted _ Hd)) by done.
  rewrite Hsorted, length_app. cbn [length].
  replace (_ <=? _) with false by (symmetry; apply Z.leb_gt; lia).
  change (l1 ++ a :: b :: l2) with (l1 ++ [a] ++ b :: l2).
  rewrite app_assoc.
  replace (S (length l1)) with (length (l1 ++ [a]))
    by (rewrite length_app; cbn; lia).
  rewrite list_lookup_middle by done.
  by apply swapOrders_neighbours.
Qed.

Lemma moveSectionDown_swaps_witness :
  section_id <$> orderSections (moveSectionDown "s1" threeSections) =
  ["s2"; "s1"; "s3"]%string.
Proof.
  assert (Hd : distinct threeSections).
  { split; apply (bool_decide_unpack _); reflexivity. }
  destruct (moveSectionDown_swaps threeSections []
              [mkSection "s3" "Three" 30 None]
              (mkSection "s1" "One" 10 None) (mkSection "s2" "Two" 20 None)
              Hd eq_refl) as [H _].
  cbn [section_id] in H. rewrite H. reflexivity.
Defined.

(** X12: the first displayed section cannot move up, the last cannot move
    down, and an unknown id moves nothing: the sections are returned as
    they are. *)
Theorem moveSection_at_the_ends (id : ID) (prev : list AgendaSection) :
  NoDup (section_id <$> prev) ->
  (section_id <$> head (orderSections prev) = Some id ->
   moveSectionUp id prev = prev) /\
  (section_id <$> last (orderSections prev) = Some id ->
   moveSectionDown id prev = prev) /\
  (id ∉ section_id <$> prev ->
   moveSectionUp id prev = prev /\ moveSectionDown id prev = prev).
Proof.
  intros Hnd.
  assert (Hnd' : NoDup (section_id <$> orderSections prev)).
  { unfold orderSections. by rewrite sortBy_perm. }
  split; [|split; [|intros Hnew; split]].
  - intros Hhead. unfold moveSectionUp.
    destruct (orderSections prev) as [|s sorted] eqn:Hs; [done|].
    cbn in Hhead. injection Hhead as <-.
    by rewrite (find_by_id (s :: sorted) [] sorted s Hnd').
  - intros Hlast. unfold moveSectionDown.
    destruct (last (orderSections prev)) as [s|] eqn:Hl; [|done].
    cbn in Hlast. injection Hlast as <-.
    apply last_Some in Hl as [l' Hl].
    rewrite (find_by_id _ l' [] s Hnd' Hl).
    rewrite Hl, length_app. cbn [length].
    by replace (_ <=? _) with true by (symmetry; apply Z.leb_le; lia).
  - unfold moveSectionUp.
    destruct (list_find _ _) as [[idx s]|] eqn:Hf; [|done].
    apply list_find_Some in Hf as (Hs & Hid & _). exfalso. apply Hnew.
    rewrite <- Hid. apply list_elem_of_fmap_2.
    apply (sortBy_elem_of (fun a b => order a - order b)).
    by eapply list_elem_of_lookup_2.
  - unfold moveSectionDown.
    destruct (list_find _ _) as [[idx s]|] eqn:Hf; [|done].
    apply list_find_Some in Hf as (Hs & Hid & _). exfalso. apply Hnew.
    rewrite <- Hid. apply list_elem_of_fmap_2.
    apply (sortBy_elem_of (fun a b => order a - order b)).
    by eapply list_elem_of_lookup_2.
Qed.

Lemma moveSection_at_the_ends_witness :
  moveSectionUp "s1" threeSections = threeSections /\
  moveSectionDown "s3" threeSections = threeSections.
Proof.
  assert (Hnd : NoDup (section_id <$> threeSections)).
  { apply (bool_decide_unpack _). reflexivity. }
  destruct (moveSection_at_the_ends "s1" threeSections Hnd) as (H1 & _ & _).
  destruct (moveSection_at_the_ends "s3" threeSections Hnd) as (_ & H2 & _).
  split; [apply H1|apply H2]; reflexivity.
Defined.

Lemma NoDup_fmap_filter {A B : Type} (f : A -> B) (P : A -> Prop)
    `{!forall x, Decision (P x)} (l : list A) :
  NoDup (f <$> l) -> NoDup (f <$> filter P l).
Proof.
  induction l as [|x l IH]; [done|].
  rewrite fmap_cons. intros [Hx Hnd]%NoDup_cons.
  rewrite filter_cons. case_decide; [|by apply IH].
  rewrite fmap_cons. apply NoDup_cons. split; [|by apply IH].
  intros (y & Hy & Hin%list_elem_of_filter)%list_elem_of_fmap.
  apply Hx. rewrite Hy. apply list_elem_of_fmap_2. tauto.
Qed.

(** X13: adding a section under a fresh id and removing a section keep
    ids and orders distinct. *)
Theorem distinct_kept (newId id : ID) (nm : string)
    (prev : list AgendaSection) (acts : list Activity) :
  distinct prev ->
  (newId ∉ section_id <$> prev -> distinct (addSection newId nm prev)) /\
  distinct (removeSection id (prev, acts)).1.
Proof.
  intros [Hids Hords]. split.
  - intros Hfresh.
    destruct (addSection_order newId nm prev) as (o & -> & Hlt).
    split; rewrite fmap_app; apply NoDup_app; (split; [done|]);
      cbn [fmap list_fmap section_id order];
      (split; [|apply NoDup_singleton]).
    + intros x Hx Heq%list_elem_of_singleton. by subst x.
    + intros x (s & Hx & Hs)%list_elem_of_fmap Heq%list_elem_of_singleton.
      rewrite Forall_forall in Hlt. specialize (Hlt s Hs). cbn in Hlt. lia.
  - cbn [removeSection fst]. split.
    + by apply NoDup_fmap_filter.
    + by apply NoDup_fmap_filter.
Qed.

Lemma distinct_kept_witness :
  distinct threeSections /\
  distinct (addSection "s4" "Four" threeSections) /\
  distinct (removeSection "s2" (threeSections, [])).1.
Proof.
  assert (Hd : distinct threeSections).
  { split; apply (bool_decide_unpack _); reflexivity. }
  destruct (distinct_kept "s4" "s2" "Four" threeSections [] Hd) as [H1 H2].
  split; [exact Hd|]. split; [|exact H2].
  apply H1. apply (bool_decide_unpack _). reflexivity.
Defined.

(** X14: removing a section removes its activities with it. If every
    activity belonged to a listed section before, the same holds
    afterwards, and nothing refers to the removed id any more. *)
Theorem removeSection_no_orphans (id : ID) (secs : list AgendaSection)
    (acts : list Activity) :
  Forall (fun a => sectionId a ∈ section_id <$> secs) acts ->
  let next := removeSection id (secs, acts) in
  (id ∉ section_id <$> next.1) /\
  Forall (fun a => sectionId a <> id /\
                   sectionId a ∈ section_id <$> next.1) next.2.
Proof.
  intros Hacts. cbn [removeSection fst snd]. split.
  - intros (s & -> & [Hs _]%list_elem_of_filter)%list_elem_of_fmap. done.
  - apply Forall_forall. intros a [Ha Hin]%list_elem_of_filter.
    split; [done|]. rewrite Forall_forall in Hacts.
    apply Hacts in Hin as (s & Hs & Hin)%list_elem_of_fmap.
    rewrite Hs. apply list_elem_of_fmap_2, list_elem_of_filter.
    split; [congruence|done].
Qed.

Lemma removeSection_no_orphans_witness :
  let acts := [act "a" 10 "s1"; act "b" 10 "s2"; act "c" 10 "s1"] in
  Forall (fun a => sectionId a ∈ section_id <$> threeSections) acts /\
  (removeSection "s1" (threeSections, acts)).2 = [act "b" 10 "s2"] /\
  Forall (fun a => sectionId a <> "s1"%string /\
            sectionId a ∈
              section_id <$> (removeSection "s1" (threeSections, acts)).1)
         (removeSection "s1" (threeSections, acts)).2.
Proof.
  intros acts.
  assert (H : Forall (fun a => sectionId a ∈ section_id <$> threeSections)
                acts).
  { apply (bool_decide_unpack _). reflexivity. }
  split; [exact H|]. split; [reflexivity|].
  apply (removeSection_no_orphans "s1" threeSections acts H).
Defined.

End AppFacts.

(** ** The three schedulers on a plain agenda *)

Module Agreement.

Import DayWalkFacts.

(** The rows of a walk that never pauses: section after section, each as
    one chain from the running clock. *)
Fixpoint chains (bySection : gmap ID (list Activity)) (c : Z)
    (ss : list AgendaSection) : list ComputedRow :=
  match ss with
  | [] => []
  | s :: ss' =>
      chain s c (listOf bySection s) ++
      chains bySection (c + total (listOf bySection s)) ss'
  end.

(** The minutes of the activities that a walk over [ss] shows. *)
Fixpoint shownMinutes (bySection : gmap ID (list Activity))
    (ss : list AgendaSection) : Z :=
  match ss with
  | [] => 0
  | s :: ss' => total (listOf bySection s) + shownMinutes bySection ss'
  end.

Definition breaksOff (cfg : DayConfig) : Prop :=
  truthy (breakIntervalMin cfg) && truthy (breakDurationMin cfg) = false.

Definition lunchOff (cfg : DayConfig) : Prop :=
  truthy (lunchTargetMin cfg) && truthy (lunchDurationMin cfg) = false.

Lemma total_nonneg (l : list Activity) :
  Forall (fun a => 0 <= durationMin a) l -> 0 <= total l.
Proof. induction 1; cbn [total]; lia. Qed.

Lemma shownMinutes_nonneg bySection (ss : list AgendaSection) :
  (forall s, Forall (fun a => 0 <= durationMin a) (listOf bySection s)) ->
  0 <= shownMinutes bySection ss.
Proof.
  intros H. induction ss as [|s ss IH]; cbn [shownMinutes]; [lia|].
  pose proof (total_nonneg _ (H s)). lia.
Qed.

(** *** Direct Walker *)

Lemma direct_step cfg s (a : Activity) (st : Direct.state) :
  breaksOff cfg -> lunchOff cfg ->
  Direct.clock st + durationMin a <= dayEndMin cfg ->
  Direct.step cfg s a st = Continue (Direct.placeActivity s a st).
Proof.
  intros Hb Hl Hfit.
  unfold Direct.step, Direct.beforeActivity, Direct.crossesLunch,
    Direct.needBreak.
  unfold breaksOff in Hb. unfold lunchOff in Hl. rewrite Hb, Hl.
  cbn [andb Direct.placeActivity Direct.clock Direct.rows].
  by destruct (Z.ltb_spec (dayEndMin cfg) (Direct.clock st + durationMin a));
    [lia|].
Qed.

Lemma direct_section cfg s (l : list Activity) (st : Direct.state) :
  breaksOff cfg -> lunchOff cfg ->
  Forall (fun a => 0 <= durationMin a) l ->
  Direct.clock st + total l <= dayEndMin cfg ->
  forEach (Direct.step cfg s) l st =
  Continue
    {| Direct.rows := Direct.rows st ++ chain s (Direct.clock st) l;
       Direct.clock := Direct.clock st + total l;
       Direct.minutesSinceBreak := Direct.minutesSinceBreak st + total l;
       Direct.lunchInserted := Direct.lunchInserted st |}.
Proof.
  intros Hb Hl Hnn. revert st.
  induction Hnn as [|a l Ha Hnn IH]; intros st Hfit; cbn [forEach chain total].
  - destruct st. cbn. by rewrite app_nil_r, !Z.add_0_r.
  - pose proof (total_nonneg _ Hnn) as Ht. cbn [total] in Hfit.
    rewrite direct_step by (try done; lia).
    rewrite IH by (cbn; lia). cbn.
    rewrite <- app_assoc. do 2 f_equal; lia.
Qed.

Lemma direct_sections cfg bySection (ss : list AgendaSection)
    (st : Direct.state) :
  breaksOff cfg -> lunchOff cfg ->
  (forall s, Forall (fun a => 0 <= durationMin a) (listOf bySection s)) ->
  Direct.clock st + shownMinutes bySection ss <= dayEndMin cfg ->
  Direct.walkSections cfg bySection ss st =
  Continue
    {| Direct.rows := Direct.rows st ++ chains bySection (Direct.clock st) ss;
       Direct.clock := Direct.clock st + shownMinutes bySection ss;
       Direct.minutesSinceBreak :=
         Direct.minutesSinceBreak st + shownMinutes bySection ss;
       Direct.lunchInserted := Direct.lunchInserted st |}.
Proof.
  intros Hb Hl Hnn. unfold Direct.walkSections. revert st.
  induction ss as [|s ss IH]; intros st Hfit;
    cbn [forEach chains shownMinutes].
  - destruct st. cbn. by rewrite app_nil_r, !Z.add_0_r.
  - cbn [shownMinutes] in Hfit.
    pose proof (shownMinutes_nonneg bySection ss Hnn).
    rewrite direct_section by (try done; lia).
    rewrite IH by (cbn; lia). cbn.
    rewrite <- app_assoc. do 2 f_equal; lia.
Qed.

(** *** Injection Renderer without injections *)

Lemma renderer_step cfg s (a : Activity) (st : Renderer.state) :
  Renderer.clock st + durationMin a <= dayEndMin cfg ->
  Renderer.step cfg s [] a st = Continue (Renderer.placeActivity s a st).
Proof.
  intros Hfit. unfold Renderer.step, Renderer.rollOrStop.
  by destruct (Z.ltb_spec (dayEndMin cfg) (Renderer.clock st + durationMin a));
    [lia|].
Qed.

Lemma renderer_section cfg s (l : list Activity) (st : Renderer.state) :
  Forall (fun a => 0 <= durationMin a) l ->
  Renderer.clock st + total l <= dayEndMin cfg ->
  forEach (Renderer.step cfg s []) l st =
  Continue
    {| Renderer.rows := Renderer.rows st ++ chain s (Renderer.clock st) l;
       Renderer.dayIndex := Renderer.dayIndex st;
       Renderer.clock := Renderer.clock st + total l |}.
Proof.
  intros Hnn. revert st.
  induction Hnn as [|a l Ha Hnn IH]; intros st Hfit; cbn [forEach chain total].
  - destruct st. cbn. by rewrite app_nil_r, !Z.add_0_r.
  - pose proof (total_nonneg _ Hnn) as Ht. cbn [total] in Hfit.
    rewrite renderer_step by lia.
    rewrite IH by (cbn; lia). cbn.
    rewrite <- app_assoc. do 2 f_equal; lia.
Qed.

Lemma renderer_sections cfg bySection injMap (ss : list AgendaSection)
    (st : Renderer.state) :
  (forall s, Renderer.sectionInjOf injMap s = []) ->
  (forall s, Forall (fun a => 0 <= durationMin a) (listOf bySection s)) ->
  Renderer.clock st + shownMinutes bySection ss <= dayEndMin cfg ->
  Renderer.walkSections cfg bySection injMap ss st =
  Continue
    {| Renderer.rows :=
         Renderer.rows st ++ chains bySection (Renderer.clock st) ss;
       Renderer.dayIndex := Renderer.dayIndex st;
       Renderer.clock := Renderer.clock st + shownMinutes bySection ss |}.
Proof.
  intros Hno Hnn. unfold Renderer.walkSections. revert st.
  induction ss as [|s ss IH]; intros st Hfit;
    cbn [forEach chains shownMinutes].
  - destruct st. cbn. by rewrite app_nil_r, !Z.add_0_r.
  - cbn [shownMinutes] in Hfit.
    pose proof (shownMinutes_nonneg bySection ss Hnn).
    rewrite Hno, renderer_section by (try done; lia).
    rewrite IH by (cbn; lia). cbn.
    rewrite <- app_assoc. do 2 f_equal; lia.
Qed.

(** *** Day-Partitioned Walker on one day *)

Lemma daywalk_sections cfg bySection day (ss : list AgendaSection)
    (st : DayWalk.state) :
  Forall (fun s => dayNumber s = day) ss ->
  DayWalk.currentDayNumber st = default 1 day ->
  DayWalk.rows (foldl (DayWalk.walkSection cfg bySection) st ss) =
  DayWalk.rows st ++ chains bySection (DayWalk.clock st) ss.
Proof.
  intros Hday. revert st.
  induction Hday as [|s ss Hs Hday IH]; intros st Hcur; cbn [foldl chains].
  - by rewrite app_nil_r.
  - assert (Hstart : sectionStart cfg s st = DayWalk.clock st).
    { unfold sectionStart. rewrite Hs, Hcur.
      rewrite decide_False; [done|]. destruct day; cbn; auto. }
    rewrite IH.
    + rewrite walkSection_rows, walkSection_clock, Hstart.
      by rewrite <- app_assoc.
    + unfold DayWalk.walkSection.
      destruct (foldl_placeActivity s (listOf bySection s)
                  (DayWalk.enterSection cfg s st)) as (_ & _ & ->).
      unfold DayWalk.enterSection. rewrite Hs, Hcur.
      rewrite decide_False; [done|]. destruct day; cbn; auto.
Qed.

Lemma insertBy_ext {A : Type} (cmp1 cmp2 : A -> A -> Z) (x : A) (l : list A) :
  (forall y, y ∈ l -> cmp1 x y = cmp2 x y) ->
  insertBy cmp1 x l = insertBy cmp2 x l.
Proof.
  induction l as [|y l IH]; intros H; [done|]. cbn [insertBy].
  rewrite (H y) by by left. rewrite IH; [done|].
  intros z Hz. apply H. by right.
Qed.

Lemma sortBy_ext {A : Type} (cmp1 cmp2 : A -> A -> Z) (l : list A) :
  (forall x y, x ∈ l -> y ∈ l -> cmp1 x y = cmp2 x y) ->
  sortBy cmp1 l = sortBy cmp2 l.
Proof.
  unfold sortBy. induction l as [|x l IH]; intros H; [done|]. cbn [foldr].
  rewrite IH by (intros y z Hy Hz; apply H; by right).
  apply insertBy_ext. intros y Hy. apply H; [by left|right].
  by apply (sortBy_elem_of cmp2).
Qed.

(** On one day the day-wise order is the display order. *)
Lemma orderSectionsByDay_one_day (secs : list AgendaSection) day :
  Forall (fun s => dayNumber s = day) secs ->
  DayWalk.orderSectionsByDay secs = orderSections secs.
Proof.
  intros Hday. rewrite Forall_forall in Hday.
  apply sortBy_ext. intros x y Hx Hy. cbv zeta.
  rewrite (Hday x Hx), (Hday y Hy). by rewrite decide_False by auto.
Qed.

(** X15: an agenda on one day, with no negative duration, whose shown
    activities fit between the start and the end of the day, gets the same
    rows from the Injection Renderer given no injections as from the
    Day-Partitioned Walker, and from the Direct Walker too when breaks and
    lunch are not configured: the activities of each displayed section back
    to back from the start of the day. *)
Theorem schedulers_agree (localeCompare : string -> string -> Z)
    (cfg : DayConfig) (secs : list AgendaSection) (acts : list Activity)
    (day : option Z) :
  let bySection := groupBySection (orderSections secs) acts in
  let plain := chains bySection (dayStartMin cfg) (orderSections secs) in
  Forall (fun s => dayNumber s = day) secs ->
  Forall (fun a => 0 <= durationMin a) acts ->
  dayStartMin cfg + shownMinutes bySection (orderSections secs)
    <= dayEndMin cfg ->
  DayWalk.buildScheduleFromActivities cfg secs acts = plain /\
  Renderer.buildScheduleWithInjections localeCompare cfg secs acts [] = plain /\
  (breaksOff cfg -> lunchOff cfg ->
   Direct.computeSchedule cfg secs acts = plain).
Proof.
  intros bySection plain Hday Hnn Hfit.
  assert (Hlists : forall s,
            Forall (fun a => 0 <= durationMin a) (listOf bySection s)).
  { intros s. unfold listOf, bySection. rewrite groupBySection_lookup.
    case_decide; [|done]. cbn. apply Forall_forall.
    intros a [_ Ha]%list_elem_of_filter.
    rewrite Forall_forall in Hnn. by apply Hnn. }
  split; [|split].
  - unfold DayWalk.buildScheduleFromActivities.
    rewrite (orderSectionsByDay_one_day secs day Hday).
    fold bySection.
    assert (Hord : Forall (fun s => dayNumber s = day) (orderSections secs)).
    { apply Forall_forall. intros s Hs. rewrite Forall_forall in Hday.
      apply Hday. unfold orderSections in Hs. by apply sortBy_elem_of in Hs. }
    destruct (orderSections secs) as [|s0 ss] eqn:Hss; [done|].
    rewrite (daywalk_sections cfg bySection day); [done|done|].
    cbn. by apply Forall_cons in Hord as [-> _].
  - unfold Renderer.buildScheduleWithInjections. fold bySection.
    rewrite renderer_sections; [done| |done|done].
    intros s. unfold Renderer.sectionInjOf, Renderer.buildInjMap.
    cbn [foldl]. by rewrite fmap_empty, lookup_empty.
  - intros Hb Hl. unfold Direct.computeSchedule. fold bySection.
    rewrite direct_sections by done.
    unfold Direct.finish, Direct.lunchAtEnd. unfold lunchOff in Hl.
    by rewrite Hl.
Qed.

Definition plainCfg : DayConfig :=
  {| dayStartMin := 540; dayEndMin := 1020; numberOfDays := None;
     breakIntervalMin := None; breakDurationMin := None;
     lunchTargetMin := None; lunchDurationMin := None |}.

Lemma schedulers_agree_witness :
  let secs := [sec "s2" 2 None; sec "s1" 1 None] in
  let acts := [act "a" 30 "s2"; act "b" 45 "s1"; act "c" 15 "s2"] in
  Direct.computeSchedule plainCfg secs acts =
  DayWalk.buildScheduleFromActivities plainCfg secs acts /\
  startMin <$> Direct.computeSchedule plainCfg secs acts = [540; 585; 615].
Proof.
  intros secs acts.
  assert (H1 : Forall (fun s => dayNumber s = None) secs)
    by (by repeat constructor).
  assert (H2 : Forall (fun a => 0 <= durationMin a) acts)
    by (by repeat constructor).
  destruct (schedulers_agree (fun _ _ => 0) plainCfg secs acts None H1 H2)
    as (Hw & _ & Hd).
  { vm_compute. discriminate. }
  rewrite Hw, Hd by reflexivity. split; reflexivity.
Defined.

End Agreement.

(** ** More about the rows and the plan *)

Module RowFacts.

Import Agreement.

Definition isLunch (r : ComputedRow) : Prop := row_type r = TLunch.
Definition isOverflow (r : ComputedRow) : Prop := row_type r = TOverflow.

#[local] Instance isLunch_dec r : Decision (isLunch r).
Proof. unfold isLunch. apply _. Defined.
#[local] Instance isOverflow_dec r : Decision (isOverflow r).
Proof. unfold isOverflow. apply _. Defined.

Definition lunches (l : list ComputedRow) : nat := length (filter isLunch l).

Lemma lunches_app l1 l2 : lunches (l1 ++ l2) = (lunches l1 + lunches l2)%nat.
Proof. unfold lunches. by rewrite filter_app, length_app. Qed.

Lemma lunches_lunch r : row_type r = TLunch -> lunches [r] = 1%nat.
Proof. intros Hr. unfold lunches. by rewrite filter_cons_True. Qed.

Lemma lunches_other r : row_type r <> TLunch -> lunches [r] = 0%nat.
Proof. intros Hr. unfold lunches. by rewrite filter_cons_False. Qed.

(** *** Direct Walker: one lunch at most *)

(** Until the flag is set there is no lunch row; afterwards there is one. *)
Definition lunchFlag (st : Direct.state) : Prop :=
  lunches (Direct.rows st) = if Direct.lunchInserted st then 1%nat else 0%nat.

Lemma direct_before_lunchFlag cfg s a st :
  lunchFlag st -> lunchFlag (Direct.beforeActivity cfg s a st).
Proof.
  unfold lunchFlag. intros Hst.
  rewrite DirectFacts.beforeActivity_rows,
    DirectFacts.beforeActivity_lunchInserted, lunches_app, Hst.
  unfold DirectFacts.inserted.
  destruct (Direct.crossesLunch cfg st a) eqn:Hc.
  - unfold Direct.crossesLunch in Hc.
    destruct (Direct.lunchInserted st);
      [by rewrite !andb_false_r, ?andb_false_l in Hc|].
    by rewrite lunches_lunch.
  - rewrite orb_false_r. destruct (Direct.needBreak cfg st a).
    + rewrite lunches_other by done. lia.
    + cbn. lia.
Qed.

Lemma direct_step_lunchFlag cfg s a st :
  lunchFlag st ->
  match Direct.step cfg s a st with
  | Continue st' => lunchFlag st'
  | Return r => (lunches r <= 1)%nat
  end.
Proof.
  intros Hst. unfold Direct.step.
  pose proof (direct_before_lunchFlag cfg s a st Hst) as Hb.
  set (st1 := Direct.beforeActivity cfg s a st) in *.
  assert (Hp : lunchFlag (Direct.placeActivity s a st1)).
  { unfold lunchFlag in *. cbn [Direct.placeActivity Direct.rows
      Direct.lunchInserted].
    rewrite lunches_app, Hb, lunches_other by done. lia. }
  destruct (_ <? _); [|done].
  rewrite lunches_app, lunches_other by done.
  unfold lunchFlag in Hp. rewrite Hp.
  destruct (Direct.lunchInserted _); lia.
Qed.

(** X16: the Direct Walker shows at most one lunch row, whatever the
    agenda and the configuration. *)
Theorem computeSchedule_one_lunch (cfg : DayConfig)
    (secs : list AgendaSection) (acts : list Activity) :
  (lunches (Direct.computeSchedule cfg secs acts) <= 1)%nat.
Proof.
  unfold Direct.computeSchedule.
  set (ordered := orderSections secs).
  set (bySection := groupBySection ordered acts).
  pose proof (forEach_post
    (fun s => forEach (Direct.step cfg s) (listOf bySection s))
    lunchFlag (fun r => (lunches r <= 1)%nat) ordered (Direct.init cfg)) as H.
  unfold Direct.walkSections.
  destruct (forEach _ ordered (Direct.init cfg)) as [st|r].
  - assert (Hst : lunchFlag st).
    { apply H; [|done]. intros s st0 _ Hst0.
      apply (forEach_post (Direct.step cfg s) lunchFlag
               (fun r => (lunches r <= 1)%nat)); [|done].
      intros a st1 _ Hst1. by apply direct_step_lunchFlag. }
    unfold Direct.finish, Direct.lunchAtEnd. unfold lunchFlag in Hst.
    destruct (Direct.lunchInserted st) eqn:Hl.
    + rewrite !andb_false_r, ?andb_false_l. cbn. lia.
    + destruct (_ && _); [|lia].
      cbn [Direct.pushBreak Direct.rows].
      rewrite lunches_app, Hst, lunches_lunch by done. lia.
  - apply H; [|done]. intros s st0 _ Hst0.
    apply (forEach_post (Direct.step cfg s) lunchFlag
             (fun r => (lunches r <= 1)%nat)); [|done].
    intros a st1 _ Hst1. by apply direct_step_lunchFlag.
Qed.

(** *** Injection Renderer: the overflow row ends the rows *)

Definition noOverflow (l : list ComputedRow) : Prop :=
  Forall (fun r => ~ isOverflow r) l.

(** The rows of a walk cut short: rows without overflow, and one overflow
    row that starts at the end of the day. *)
Definition cutShort (cfg : DayConfig) (l : list ComputedRow) : Prop :=
  exists front o,
    l = front ++ [o] /\ noOverflow front /\ isOverflow o /\
    startMin o = dayEndMin cfg /\ dayEndMin cfg < endMin o.

Lemma renderer_rollOrStop_overflow cfg s dur st :
  noOverflow (Renderer.rows st) ->
  match Renderer.rollOrStop cfg s dur st with
  | Continue st' => noOverflow (Renderer.rows st')
  | Return r => cutShort cfg r
  end.
Proof.
  intros Hst. unfold Renderer.rollOrStop.
  destruct (Z.ltb_spec (dayEndMin cfg) (Renderer.clock st + dur)); [|done].
  destruct (_ <=? _); [|done].
  eexists _, _. split; [done|]. repeat split; done.
Qed.

Lemma renderer_placeInjection_overflow cfg s inj st :
  noOverflow (Renderer.rows st) ->
  match Renderer.placeInjection cfg s inj st with
  | Continue st' => noOverflow (Renderer.rows st')
  | Return r => cutShort cfg r
  end.
Proof.
  intros Hst. unfold Renderer.placeInjection.
  pose proof (renderer_rollOrStop_overflow cfg s (inj_durationMin inj) st Hst)
    as H.
  destruct (Renderer.rollOrStop _ _ _ _) as [st1|r]; [|done].
  cbn [Renderer.rows]. apply Forall_app. split; [done|].
  apply Forall_singleton. unfold isOverflow. cbn.
  by destruct (inj_type inj).
Qed.

Lemma renderer_step_overflow cfg s sectionInj a st :
  noOverflow (Renderer.rows st) ->
  match Renderer.step cfg s sectionInj a st with
  | Continue st' => noOverflow (Renderer.rows st')
  | Return r => cutShort cfg r
  end.
Proof.
  intros Hst. unfold Renderer.step.
  pose proof (renderer_rollOrStop_overflow cfg s (durationMin a) st Hst) as H.
  destruct (Renderer.rollOrStop _ _ _ _) as [st1|r]; [|done].
  pose proof (forEach_post (Renderer.placeInjection cfg s)
    (fun st => noOverflow (Renderer.rows st)) (cutShort cfg)
    (Renderer.anchoredTo sectionInj a) st1) as H2.
  destruct (forEach _ _ st1) as [st2|r].
  - cbn [Renderer.placeActivity Renderer.rows]. apply Forall_app.
    split; [|by apply Forall_singleton].
    apply H2; [|done]. intros inj st0 _ Hst0.
    by apply renderer_placeInjection_overflow.
  - apply H2; [|done]. intros inj st0 _ Hst0.
    by apply renderer_placeInjection_overflow.
Qed.

(** X17: in the rows of the Injection Renderer an overflow row can only be
    the last row: either no row is an overflow row, or the rows are rows
    without overflow followed by a single overflow row, which starts at the
    end of the day and ends after it. *)
Theorem renderer_overflow_last (localeCompare : string -> string -> Z)
    (cfg : DayConfig) (secs : list AgendaSection) (acts : list Activity)
    (injs : list Injection) :
  let out :=
    Renderer.buildScheduleWithInjections localeCompare cfg secs acts injs in
  noOverflow out \/ cutShort cfg out.
Proof.
  unfold Renderer.buildScheduleWithInjections, Renderer.walkSections.
  set (ordered := orderSections secs).
  set (bySection := groupBySection ordered acts).
  set (injMap := Renderer.buildInjMap localeCompare injs).
  pose proof (forEach_post
    (fun s => forEach (Renderer.step cfg s (Renderer.sectionInjOf injMap s))
                (listOf bySection s))
    (fun st => noOverflow (Renderer.rows st)) (cutShort cfg)
    ordered (Renderer.init cfg)) as H.
  cbv zeta.
  destruct (forEach _ ordered (Renderer.init cfg)) as [st|r]; [left|right];
    (apply H; [|by constructor]); intros s st0 _ Hst0;
    (apply (forEach_post (Renderer.step cfg s _)
              (fun st => noOverflow (Renderer.rows st)) (cutShort cfg));
       [|done]);
    intros a st1 _ Hst1; by apply renderer_step_overflow.
Qed.

End RowFacts.

Module PlanFacts.

Import Planner Agreement.

(** *** Where the planned injections are anchored *)

(** The injection is anchored before the activity [a] of section [s]: it
    names [a], and it names [s] too unless it is the break that is planned
    afterwards for the time after lunch. *)
Definition anchoredBefore (s : AgendaSection) (a : Activity) (inj : Injection)
  : Prop :=
  anchorBeforeActivityId inj = activity_id a /\
  (inj_sectionId inj = Some (section_id s) \/
   (inj_type inj = IBreak /\
    inj_id inj = "inj-break-post-" +:+ activity_id a)).

Definition anchoredIn (l : list (AgendaSection * Activity))
    (inj : Injection) : Prop :=
  exists s a, (s, a) ∈ l /\ anchoredBefore s a inj.

Record anchors (l : list (AgendaSection * Activity)) (st : state) : Prop := {
  anchors_injections : Forall (anchoredIn l) (injections st);
  anchors_last : forall id,
    lastActivityIdAfterLunch st = Some id ->
    exists s a, (s, a) ∈ l /\ activity_id a = id
}.

Lemma anchoredIn_mono l l' inj :
  l ⊆ l' -> anchoredIn l inj -> anchoredIn l' inj.
Proof. intros Hl (s & a & Hin & H). exists s, a. split; [by apply Hl|done]. Qed.

Lemma anchors_mono l l' st : l ⊆ l' -> anchors l st -> anchors l' st.
Proof.
  intros Hl [H1 H2]. split.
  - eapply Forall_impl; [exact H1|]. intros inj. by apply anchoredIn_mono.
  - intros id Hid. destruct (H2 id Hid) as (s & a & Hin & Ha).
    exists s, a. split; [by apply Hl|done].
Qed.

Lemma anchors_push l inj st :
  anchors l st -> anchoredIn l inj -> anchors l (push inj st).
Proof.
  intros [H1 H2] Hinj. split; [|done].
  cbn [push injections]. apply Forall_app. split; [done|].
  by apply Forall_singleton.
Qed.

Lemma anchors_backfill l cfg sid st :
  anchors l st -> anchors l (backfill cfg sid st).
Proof.
  intros Hst. unfold backfill.
  destruct (postBreakOwed cfg st) eqn:Howed; [|done].
  unfold postBreakOwed in Howed.
  destruct (lastActivityIdAfterLunch st) as [id|] eqn:Hid;
    [|by rewrite !andb_false_r, ?andb_false_l in Howed].
  destruct (anchors_last _ _ Hst id Hid) as (s & a & Hin & Ha).
  assert (Hpush : anchors l (push (breakInj "inj-break-post-" sid cfg id) st)).
  { apply anchors_push; [done|]. exists s, a. split; [done|].
    split; [by rewrite Ha|]. right. by rewrite Ha. }
  destruct Hpush as [H1 H2]. split; done.
Qed.

Lemma anchors_turn l cfg s a st st' :
  anchors l st -> step cfg s a st = Continue st' ->
  anchors (l ++ [(s, a)]) st'.
Proof.
  intros Hst. unfold step, rollover.
  assert (Hhere : (s, a) ∈ l ++ [(s, a)])
    by (apply elem_of_app; right; by apply list_elem_of_singleton).
  assert (Hsub : l ⊆ l ++ [(s, a)])
    by (intros x Hx; apply elem_of_app; by left).
  assert (Hplan : forall st1, anchors l st1 ->
            anchors (l ++ [(s, a)]) (advance a (planBefore cfg s a st1))).
  { intros st1 Hst1. apply (anchors_mono _ _ _ Hsub) in Hst1.
    assert (Hbefore : anchors (l ++ [(s, a)]) (planBefore cfg s a st1)).
    { unfold planBefore.
      destruct (crossesLunch cfg st1 a).
      - assert (Hpre : anchors (l ++ [(s, a)]) (preLunchBreak cfg s a st1)).
        { unfold preLunchBreak. destruct (_ && _); [|done].
          destruct Hst1 as [H1 H2]. split; [|done].
          cbn [push injections]. apply Forall_app. split; [done|].
          apply Forall_singleton. exists s, a. split; [done|].
          split; [done|by left]. }
        destruct Hpre as [H1 H2]. split.
        + cbn [planLunch push injections]. apply Forall_app. split; [done|].
          apply Forall_singleton. exists s, a. split; [done|].
          split; [done|by left].
        + intros id Hid. done.
      - destruct (crossesBreak cfg st1 a); [|done].
        destruct Hst1 as [H1 H2]. split; [|done].
        cbn [planBreak push injections]. apply Forall_app. split; [done|].
        apply Forall_singleton. exists s, a. split; [done|].
        split; [done|by left]. }
    destruct Hbefore as [H1 H2]. split; [done|].
    cbn [advance lastActivityIdAfterLunch]. intros id Hid.
    destruct (afterLunchStarted _); [|by apply H2].
    injection Hid as <-. by exists s, a. }
  destruct (_ <? _).
  - destruct (_ <=? _); [done|]. intros [= <-].
    pose proof (anchors_backfill l cfg (Some (section_id s)) st Hst) as Hb.
    apply Hplan. destruct Hb as [H1 _]. split; [done|]. done.
  - intros [= <-]. by apply Hplan.
Qed.

Lemma anchors_walk cfg secs acts :
  let l := walkOrder (orderSections secs) acts in
  match walkSections cfg (groupBySection (orderSections secs) acts)
          (orderSections secs) init with
  | Continue st => anchors l st
  | Return r => anchors l r
  end.
Proof.
  intros l. rewrite PlannerFacts.planner_turns.
  fold (walkOrder (orderSections secs) acts). fold l.
  assert (Hturns : forall l1 p st st',
            p ∈ l -> anchors l1 st ->
            PlannerFacts.turn cfg p st = Continue st' ->
            anchors (l1 ++ [p]) st').
  { intros l1 [s a] st st' _ Hst Hturn. by eapply anchors_turn. }
  pose proof (forEach_prefix_inv (PlannerFacts.turn cfg) anchors l Hturns
                [] init) as H.
  destruct (forEach (PlannerFacts.turn cfg) l init) as [st|r].
  - apply H. split; [done|]. intros id Hid. done.
  - destruct H as (l1 & [s a] & l2 & st1 & Hl & Hst1 & Hturn).
    { split; [done|]. intros id Hid. done. }
    cbn [app] in Hst1.
    assert (Hsub : l1 ⊆ l).
    { rewrite Hl. intros x Hx. apply elem_of_app. by left. }
    apply (anchors_mono _ _ _ Hsub) in Hst1.
    unfold PlannerFacts.turn, step, rollover in Hturn. cbn [fst snd] in Hturn.
    destruct (_ <? _); [|done].
    destruct (_ <=? _); [|done]. injection Hturn as <-.
    by apply anchors_backfill.
Qed.

(** X18: every injection that [planInjections] plans is anchored before an
    activity of the agenda that belongs to a listed section. A lunch names
    the section of that activity, and so does a break, except the break
    planned afterwards for the time after lunch, which may name a later
    section. *)
Theorem planInjections_anchors (cfg : DayConfig) (secs : list AgendaSection)
    (acts : list Activity) (inj : Injection) :
  inj ∈ planInjections cfg secs acts ->
  exists a,
    a ∈ acts /\ sectionId a ∈ ids secs /\
    anchorBeforeActivityId inj = activity_id a /\
    (inj_sectionId inj = Some (sectionId a) \/
     (inj_type inj = IBreak /\
      inj_id inj = "inj-break-post-" +:+ activity_id a)).
Proof.
  intros Hin.
  assert (Hall : Forall (anchoredIn (walkOrder (orderSections secs) acts))
                   (planInjections cfg secs acts)).
  { unfold planInjections, plan.
    pose proof (anchors_walk cfg secs acts) as Hwalk. cbv zeta in Hwalk.
    destruct (walkSections _ _ _ _) as [st|r]; [|apply Hwalk].
    set (l := walkOrder (orderSections secs) acts) in *.
    set (ordered := orderSections secs) in *.
    set (bySection := groupBySection ordered acts) in *.
    assert (Hforced : anchors l (forcedLunch cfg ordered bySection st)).
    { unfold forcedLunch. destruct (_ && _); [|done].
      destruct (last ordered) as [lastS|] eqn:Hlast; [|done].
      destruct (listOf bySection lastS) as [|a0 rest] eqn:Hlist; [done|].
      apply anchors_push; [done|]. exists lastS, a0. split.
      - apply pairs_elem_of. split; [by apply last_Some_elem_of|].
        fold bySection. rewrite Hlist. by left.
      - split; [done|by left]. }
    unfold finalPostBreak.
    destruct (postBreakOwed cfg _) eqn:Howed; [|apply Hforced].
    unfold postBreakOwed in Howed.
    destruct (lastActivityIdAfterLunch _) as [id|] eqn:Hid;
      [|by rewrite !andb_false_r, ?andb_false_l in Howed].
    destruct (anchors_last _ _ Hforced id Hid) as (s & a & Hsa & Ha).
    cbn [push injections]. apply Forall_app.
    split; [apply Hforced|]. apply Forall_singleton.
    exists s, a. split; [done|]. split; [by rewrite Ha|].
    right. by rewrite Ha. }
  rewrite Forall_forall in Hall.
  destruct (Hall inj Hin) as (s & a & Hsa & Hanchor & Hsec).
  apply walkOrder_elem_of in Hsa as (Hs & Ha & Heq).
  exists a. split; [done|]. split.
  - rewrite Heq. apply orderSections_ids. by apply list_elem_of_fmap_2.
  - split; [done|]. by rewrite Heq.
Qed.

Definition cfgLunchBreaks : DayConfig :=
  {| dayStartMin := 540; dayEndMin := 1020; numberOfDays := Some 2;
     breakIntervalMin := Some 90; breakDurationMin := Some 15;
     lunchTargetMin := Some 720; lunchDurationMin := Some 60 |}.

Lemma planInjections_anchors_witness :
  let secs := [sec "s1" 1 None] in
  let acts := [act "a" 120 "s1"; act "b" 120 "s1"] in
  exists inj a,
    inj ∈ planInjections cfgLunchBreaks secs acts /\
    inj_type inj = ILunch /\
    a ∈ acts /\ anchorBeforeActivityId inj = activity_id a.
Proof.
  intros secs acts.
  set (inj := lunchInj "s1" cfgLunchBreaks "b").
  assert (Hin : inj ∈ planInjections cfgLunchBreaks secs acts).
  { vm_compute. do 2 right. left. }
  destruct (planInjections_anchors cfgLunchBreaks secs acts inj Hin)
    as (a & Ha & _ & Hanchor & _).
  exists inj, a. done.
Defined.

(** The break planned afterwards can name a section other than the one of
    its anchor: lunch falls in the first section, the day ends in the
    second. *)
Example post_break_other_section :
  let secs := [sec "s1" 1 None; sec "s2" 2 None] in
  let acts := [act "a" 80 "s1"; act "b" 150 "s1"; act "c" 300 "s2"] in
  (fun inj => (inj_id inj, inj_sectionId inj, anchorBeforeActivityId inj))
    <$> planInjections cfgLunchBreaks secs acts =
  [("inj-break-pre-b", Some "s1", "b"); ("inj-lunch-b", Some "s1", "b");
   ("inj-break-post-b", Some "s2", "b");
   ("inj-break-pre-c", Some "s2", "c"); ("inj-lunch-c", Some "s2", "c");
   ("inj-break-post-c", Some "s2", "c")]%string.
Proof. reflexivity. Qed.

(** *** Nothing configured, nothing planned *)

Lemma step_plans_nothing cfg s a st :
  breaksOff cfg -> lunchOff cfg ->
  injections st = [] ->
  match step cfg s a st with
  | Continue st' => injections st' = []
  | Return r => injections r = []
  end.
Proof.
  unfold breaksOff, lunchOff. intros Hb Hl Hst.
  assert (Hback : forall sid, backfill cfg sid st = st).
  { intros sid. unfold backfill, postBreakOwed.
    rewrite <- !andb_assoc, (andb_comm (truthy (breakDurationMin cfg))), Hb.
    by rewrite !andb_false_r. }
  unfold step, rollover. rewrite Hback.
  assert (Hplan : forall st1, injections st1 = [] ->
            injections (advance a (planBefore cfg s a st1)) = []).
  { intros st1 Hst1. cbn [advance injections].
    unfold planBefore, crossesLunch, crossesBreak. by rewrite Hb, Hl. }
  destruct (_ <? _); [|by apply Hplan].
  destruct (_ <=? _); [done|]. by apply Hplan.
Qed.

(** X19: with breaks and lunch not configured, [planInjections] plans
    nothing, whatever the agenda. *)
Theorem planInjections_nothing (cfg : DayConfig) (secs : list AgendaSection)
    (acts : list Activity) :
  breaksOff cfg -> lunchOff cfg ->
  planInjections cfg secs acts = [].
Proof.
  intros Hb Hl. unfold planInjections, plan, walkSections.
  set (ordered := orderSections secs).
  set (bySection := groupBySection ordered acts).
  pose proof (forEach_post
    (fun s => forEach (step cfg s) (listOf bySection s))
    (fun st => injections st = []) (fun r => injections r = [])
    ordered init) as H.
  destruct (forEach _ ordered init) as [st|r].
  - assert (Hst : injections st = []).
    { apply H; [|done]. intros s st0 _ Hst0.
      apply (forEach_post (step cfg s) (fun st => injections st = [])
               (fun r => injections r = [])); [|done].
      intros a st1 _ Hst1. by apply step_plans_nothing. }
    unfold finalPostBreak, postBreakOwed, forcedLunch.
    unfold breaksOff in Hb. unfold lunchOff in Hl. rewrite Hl. cbn [andb].
    rewrite <- !andb_assoc, (andb_comm (truthy (breakDurationMin cfg))), Hb.
    by rewrite !andb_false_r.
  - apply H; [|done]. intros s st0 _ Hst0.
    apply (forEach_post (step cfg s) (fun st => injections st = [])
             (fun r => injections r = [])); [|done].
    intros a st1 _ Hst1. by apply step_plans_nothing.
Qed.

Lemma planInjections_nothing_witness :
  planInjections plainCfg [sec "s1" 1 None]
    [act "a" 300 "s1"; act "b" 300 "s1"] = [].
Proof. apply planInjections_nothing; reflexivity. Defined.

End PlanFacts.

(** ** What the views show ([PrintView.tsx], [AgendaTable.tsx]) *)

Module View.

(** [computed.filter((r) => r.sectionId === section.id)] *)
Definition sectionRows (computed : list ComputedRow) (section : AgendaSection)
  : list ComputedRow :=
  filter (fun r => row_sectionId r = Some (section_id section)) computed.

(** The sections in display order, each with its rows. *)
Definition printView (sections : list AgendaSection)
    (computed : list ComputedRow)
  : list (AgendaSection * list ComputedRow) :=
  (fun section => (section, sectionRows computed section))
    <$> orderSections sections.

End View.

Module ViewFacts.

Import View DayWalkFacts.

Lemma placed_filter (k : option ID) (l : list ComputedRow) :
  Forall (fun r => row_type r = TActivity /\ durationOk r) l ->
  omap placed (filter (fun r => row_sectionId r = k) l) =
  filter (fun p => p.1 = k) (omap placed l).
Proof.
  induction 1 as [|r l [Hr Hd] Hl IH]; [done|].
  destruct (Hd Hr) as (a & Ha & _).
  assert (Hp : placed r = Some (row_sectionId r, a)).
  { unfold placed. by rewrite Hr, Ha. }
  rewrite filter_cons. cbn [omap list_omap]. rewrite Hp.
  rewrite filter_cons. cbn [fst]. case_decide.
  - cbn [omap list_omap]. by rewrite Hp, IH.
  - done.
Qed.

Lemma visits_of_section (f : AgendaSection -> list Activity)
    (ss : list AgendaSection) (s : AgendaSection) :
  NoDup (ids ss) -> s ∈ ss ->
  filter (fun p => p.1 = Some (section_id s)) (visit <$> pairs f ss) =
  (fun a => (Some (section_id s), a)) <$> f s.
Proof.
  assert (Hnone : forall ss, section_id s ∉ ids ss ->
            filter (fun p => p.1 = Some (section_id s))
                   (visit <$> pairs f ss) = []).
  { clear. intros ss Hs. apply AppFacts.filter_none.
    intros i p Hp Heq. apply list_elem_of_lookup_2 in Hp.
    apply list_elem_of_fmap in Hp as ([s' a] & -> & Hin).
    apply pairs_elem_of in Hin as [Hin _]. cbn in Heq.
    injection Heq as Heq. apply Hs. rewrite <- Heq.
    by apply list_elem_of_fmap_2. }
  assert (Hall : forall s' (l : list Activity),
            section_id s' = section_id s ->
            filter (fun p => p.1 = Some (section_id s))
                   (visit <$> (pair s' <$> l)) =
            (fun a => (Some (section_id s), a)) <$> l).
  { clear. intros s' l Heq. induction l as [|a l IH]; [done|].
    rewrite !fmap_cons, filter_cons_True by (cbn; by rewrite Heq).
    rewrite IH. unfold visit. cbn. by rewrite Heq. }
  induction ss as [|s' ss IH]; intros Hnd Hin; [by apply elem_of_nil in Hin|].
  unfold ids in Hnd. rewrite fmap_cons in Hnd.
  apply NoDup_cons in Hnd as [Hs' Hnd].
  unfold pairs. rewrite bind_cons, fmap_app, filter_app.
  fold (pairs f ss).
  apply elem_of_cons in Hin as [->|Hin].
  - rewrite Hall, Hnone by done. by rewrite app_nil_r.
  - rewrite (IH Hnd Hin).
    assert (Hne : section_id s' <> section_id s).
    { intros Heq. apply Hs'. rewrite Heq. by apply list_elem_of_fmap_2. }
    rewrite AppFacts.filter_none; [done|].
    intros i p Hp Heq. apply list_elem_of_lookup_2 in Hp.
    apply list_elem_of_fmap in Hp as (q & -> & Hq).
    apply list_elem_of_fmap in Hq as (a & -> & _).
    cbn in Heq. by injection Heq.
Qed.

(** X20: when no two sections share an id, the views show under each
    section exactly the activities of that section, once each and in the
    order of the activity list, as activity rows of the Day-Partitioned
    Walker; the sections come in the order of their [order]. *)
Theorem view_shows_agenda (cfg : DayConfig) (secs : list AgendaSection)
    (acts : list Activity) :
  NoDup (ids secs) ->
  let computed := DayWalk.buildScheduleFromActivities cfg secs acts in
  (printView secs computed).*1 = orderSections secs /\
  Forall (fun v =>
            Forall (fun r => row_type r = TActivity) v.2 /\
            omap placed v.2 =
            (fun a => (Some (section_id v.1), a)) <$>
              filter (fun a => sectionId a = section_id v.1) acts)
         (printView secs computed).
Proof.
  intros Hnd computed. split.
  { unfold printView. rewrite <- list_fmap_compose. apply list_fmap_id. }
  apply Forall_fmap, Forall_forall. intros s Hs.
  unfold compose. cbn [fst snd].
  assert (Hin : s ∈ DayWalk.orderSectionsByDay secs).
  { unfold DayWalk.orderSectionsByDay. apply sortBy_elem_of.
    unfold orderSections in Hs. by apply sortBy_elem_of in Hs. }
  assert (Hnd' : NoDup (ids (DayWalk.orderSectionsByDay secs))).
  { unfold ids, DayWalk.orderSectionsByDay. by rewrite sortBy_perm. }
  subst computed. unfold DayWalk.buildScheduleFromActivities.
  destruct (walk_rows cfg
              (groupBySection (DayWalk.orderSectionsByDay secs) acts)
              (DayWalk.orderSectionsByDay secs)
              (DayWalk.init cfg (DayWalk.orderSectionsByDay secs)))
    as [H1 H2]; [done|].
  cbn [DayWalk.init DayWalk.rows omap list_omap app] in H2.
  split.
  - unfold sectionRows. apply Forall_forall.
    intros r [_ Hr]%list_elem_of_filter.
    rewrite Forall_forall in H1. by destruct (H1 r Hr).
  - unfold sectionRows. rewrite placed_filter.
    + rewrite H2, visits_of_section by done.
      by rewrite listOf_groupBySection.
    + eapply Forall_impl; [exact H1|]. cbn. tauto.
Qed.

Lemma view_shows_agenda_witness :
  let secs := [sec "s2" 2 None; sec "s1" 1 None] in
  let acts := [act "a" 30 "s2"; act "b" 45 "s1"; act "c" 15 "s2"] in
  let computed :=
    DayWalk.buildScheduleFromActivities Agreement.plainCfg secs acts in
  NoDup (ids secs) /\
  (printView secs computed).*1 = orderSections secs /\
  (fun v : AgendaSection * list ComputedRow =>
     (section_id v.1, row_id <$> v.2)) <$> printView secs computed
  = [("s1", ["b"]); ("s2", ["a"; "c"])]%string.
Proof.
  intros secs acts computed.
  assert (Hnd : NoDup (ids secs)) by (apply (bool_decide_unpack _); done).
  split; [exact Hnd|].
  destruct (view_shows_agenda Agreement.plainCfg secs acts Hnd) as [H _].
  split; [exact H|reflexivity].
Defined.

(** Two sections with one id: the activities of that id are walked twice,
    and each of the two sections shows both copies. *)
Example view_shared_id :
  let secs := [sec "s" 1 None; sec "s" 2 None] in
  let computed :=
    DayWalk.buildScheduleFromActivities Agreement.plainCfg secs [act "a" 30 "s"] in
  (fun v : AgendaSection * list ComputedRow => startMin <$> v.2)
    <$> printView secs computed =
  [[540; 570]; [540; 570]].
Proof. reflexivity. Qed.

End ViewFacts.

(** ** Undo history ([App.tsx], lines 108-125) *)

Module History.

Section Snapshots.

(** A snapshot is the copy of the state that [pushHistory] takes. *)
Variable Snapshot : Type.

(** [[...prev.slice(-49), snapshot]] *)
Definition pushHistory (snapshot : Snapshot) (prev : list Snapshot)
  : list Snapshot :=
  drop (length prev - 49) prev ++ [snapshot].

(** [undo]: the snapshot that is restored, if any, and the history that is
    left, [prev.slice(0, -1)]. *)
Definition undo (prev : list Snapshot) : option Snapshot * list Snapshot :=
  match last prev with
  | None => (None, prev)
  | Some latest => (Some latest, take (length prev - 1) prev)
  end.

(** X21: the history holds at most 50 snapshots. Undo right after a
    snapshot restores that snapshot and leaves the history as it was before
    it, less its oldest entry when it was full. On an empty history undo
    restores nothing. *)
Theorem undo_pushHistory (snapshot : Snapshot) (prev : list Snapshot) :
  (length (pushHistory snapshot prev) <= 50)%nat /\
  undo (pushHistory snapshot prev) =
    (Some snapshot, drop (length prev - 49) prev) /\
  ((length prev < 50)%nat -> (undo (pushHistory snapshot prev)).2 = prev) /\
  undo [] = (None, []).
Proof.
  unfold pushHistory, undo. rewrite last_snoc, length_app, length_drop.
  cbn [length]. split; [lia|]. split; [|split; [|done]].
  - f_equal. rewrite take_app_length'; [done|]. rewrite length_drop. lia.
  - intros Hlen. cbn [snd].
    rewrite take_app_length' by (rewrite length_drop; lia).
    replace (length prev - 49)%nat with 0%nat by lia. done.
Qed.

End Snapshots.

Lemma undo_pushHistory_witness :
  undo Z (pushHistory Z 3 [1; 2]) = (Some 3, [1; 2]).
Proof.
  destruct (undo_pushHistory Z 3 [1; 2]) as (_ & H & _). exact H.
Defined.

End History.

(** ** CSV import ([src/utils/storage.ts], lines 112-158) *)

Module CsvImport.

Import Csv.

Record CsvImportResult := mkResult {
  sections : list AgendaSection;
  activities : list Activity
}.

(** [line.split(',')] *)
Fixpoint splitComma (line : string) : list string :=
  match line with
  | EmptyString => [EmptyString]
  | String c s' =>
      if Ascii.eqb c comma then EmptyString :: splitComma s'
      else
        match splitComma s' with
        | p :: ps => String c p :: ps
        | [] => [String c EmptyString]
        end
  end.

(** [header.indexOf(name)], [None] for [-1]. *)
Definition indexOf (name : string) (header : list string) : option nat :=
  fst <$> list_find (fun h => h = name) header.

(** [cols[idx] ?? dflt]: [undefined] for the index [-1] and past the end. *)
Definition col (cols : list string) (idx : option nat) (dflt : string)
  : string :=
  default dflt (idx ≫= fun i => cols !! i).

(** [s || undefined] *)
Definition orUndefined (s : string) : option string :=
  if TimeCodec.isEmpty s then None else Some s.

Record columns := mkColumns {
  c_section : option nat; c_title : option nat; c_owner : option nat;
  c_slide : option nat; c_duration : option nat; c_files : option nat;
  c_details : option nat; c_notes : option nat
}.

Definition columnsOf (header : list string) : columns :=
  {| c_section := indexOf "section" header;
     c_title := indexOf "title" header;
     c_owner := indexOf "owner" header;
     c_slide := indexOf "slidenumber" header;
     c_duration := indexOf "durationmin" header;
     c_files := indexOf "files" header;
     c_details := indexOf "details" header;
     c_notes := indexOf "notes" header |}.

(** The locals of the loop. [sectionsMap] is the [Map] keyed by section
    name, as the list of its values in insertion order; [drawn] counts the
    calls of [makeId] so far. *)
Record state := mkState {
  sectionsMap : list AgendaSection;
  imported : list Activity;
  orderCounter : Z;
  drawn : nat
}.

(** [Number(cell) || 0] on the numbers of the embedding: [NaN] and [0] give
    [0]; a number that the embedding does not compute (a fraction such as
    7.5, an exponent or radix form such as 1e3, an infinity, an integer
    beyond 2^53) gives [None], although the code imports it. *)
Definition durationOf (cell : string) : option Z :=
  match TimeCodec.Number cell with
  | TimeCodec.NaN => Some 0
  | TimeCodec.Exact z => Some z
  | TimeCodec.OtherNumber => None
  end.

(** [(cols[i] ?? '').trim()] *)
Definition cell (cols : list string) (idx : option nat) : string :=
  TimeCodec.trim (col cols idx EmptyString).

Definition sectionNameOf (cols : list string) (idx : columns) : string :=
  let t := cell cols (c_section idx) in
  if TimeCodec.isEmpty t then "Imported" else t.

(** [sectionsMap.has(secName)], [set] when absent, and the id that
    [sectionsMap.get(secName)!.id] reads afterwards. *)
Definition sectionFor (makeId : nat -> ID) (secName : string) (st : state)
  : ID * state :=
  match list_find (fun s => name s = secName) (sectionsMap st) with
  | Some (_, s) => (section_id s, st)
  | None =>
      let s := {| section_id := makeId (drawn st); name := secName;
                  order := orderCounter st; dayNumber := None |} in
      (section_id s,
       {| sectionsMap := sectionsMap st ++ [s];
          imported := imported st;
          orderCounter := orderCounter st + 1;
          drawn := S (drawn st) |})
  end.

(** One turn of the loop over the lines after the header. [makeId k] is the
    value of the call number [k] of [makeId]. *)
Definition importLine (makeId : nat -> ID) (idx : columns) (line : string)
    (st : state) : option state :=
  let cols := parseCsvLine line in
  let secName := sectionNameOf cols idx in
  let '(sectionId, st1) := sectionFor makeId secName st in
  match durationOf (TimeCodec.trim (col cols (c_duration idx) "0")) with
  | None => None
  | Some duration =>
      Some
        {| sectionsMap := sectionsMap st1;
           imported := imported st1 ++
             [ {| activity_id := makeId (drawn st1);
                  title := cell cols (c_title idx);
                  owner := cell cols (c_owner idx);
                  slideNumber := orUndefined (cell cols (c_slide idx));
                  durationMin := duration;
                  files := orUndefined (cell cols (c_files idx));
                  details := orUndefined (cell cols (c_details idx));
                  notes := orUndefined (cell cols (c_notes idx));
                  sectionId := sectionId;
                  isSystem := None; systemKey := None; completed := None |} ];
           orderCounter := orderCounter st1;
           drawn := S (drawn st1) |}
  end.

Fixpoint importLines (makeId : nat -> ID) (idx : columns)
    (lines : list string) (st : state) : option state :=
  match lines with
  | [] => Some st
  | line :: rest =>
      match importLine makeId idx line st with
      | Some st' => importLines makeId idx rest st'
      | None => None
      end
  end.

Definition init : state :=
  {| sectionsMap := []; imported := []; orderCounter := 1; drawn := 0 |}.

Definition notBlank (l : string) : Prop :=
  TimeCodec.isEmpty (TimeCodec.trim l) = false.

#[global] Instance notBlank_dec l : Decision (notBlank l).
Proof. unfold notBlank. apply _. Defined.

(** [importActivitiesFromCSV]; [None] when a duration cell holds a number
    that the embedding does not compute: what is proved of this function is
    proved of text in which no duration cell does. *)
Definition importActivitiesFromCSV (makeId : nat -> ID) (text : string)
  : option CsvImportResult :=
  let lines := filter notBlank (splitLines text) in
  match lines with
  | [] | [_] => Some {| sections := []; activities := [] |}
  | first :: rest =>
      let header :=
        (fun h => toLowerCase (TimeCodec.trim h)) <$> splitComma first in
      match importLines makeId (columnsOf header) rest init with
      | Some st =>
          Some {| sections := sectionsMap st; activities := imported st |}
      | None => None
      end
  end.

End CsvImport.

Module CsvImportFacts.

Import Csv CsvImport.

(** What holds of the locals after every turn of the loop. *)
Record linked (st : state) : Prop := mkLinked {
  linked_activities :
    Forall (fun a => exists s, s ∈ sectionsMap st /\ sectionId a = section_id s)
           (imported st);
  linked_sections :
    Forall (fun s => exists a, a ∈ imported st /\ sectionId a = section_id s)
           (sectionsMap st);
  linked_names : NoDup (name <$> sectionsMap st);
  linked_named :
    Forall (fun s => name s <> EmptyString /\ dayNumber s = None)
           (sectionsMap st);
  linked_orders :
    order <$> sectionsMap st = seqZ 1 (Z.of_nat (length (sectionsMap st)));
  linked_counter : orderCounter st = 1 + Z.of_nat (length (sectionsMap st))
}.

Lemma linked_init : linked init.
Proof. split; cbn; try done. apply NoDup_nil_2. Qed.

Lemma sectionNameOf_nonempty cols idx : sectionNameOf cols idx <> EmptyString.
Proof.
  unfold sectionNameOf. destruct (cell cols (c_section idx)); cbn; done.
Qed.

(** The section that an imported line is filed under. *)
Lemma sectionFor_spec makeId secName st :
  secName <> EmptyString ->
  NoDup (name <$> sectionsMap st) ->
  Forall (fun s => name s <> EmptyString /\ dayNumber s = None)
         (sectionsMap st) ->
  order <$> sectionsMap st = seqZ 1 (Z.of_nat (length (sectionsMap st))) ->
  orderCounter st = 1 + Z.of_nat (length (sectionsMap st)) ->
  let '(sid, st1) := sectionFor makeId secName st in
  (exists s, s ∈ sectionsMap st1 /\ section_id s = sid /\ name s = secName) /\
  (exists new, sectionsMap st1 = sectionsMap st ++ new /\
     Forall (fun s => section_id s = sid) new) /\
  imported st1 = imported st /\
  NoDup (name <$> sectionsMap st1) /\
  Forall (fun s => name s <> EmptyString /\ dayNumber s = None)
         (sectionsMap st1) /\
  order <$> sectionsMap st1 = seqZ 1 (Z.of_nat (length (sectionsMap st1))) /\
  orderCounter st1 = 1 + Z.of_nat (length (sectionsMap st1)).
Proof.
  intros Hne Hnd Hnamed Hord Hcount. unfold sectionFor.
  destruct (list_find _ _) as [[i s]|] eqn:Hfind.
  - apply list_find_Some in Hfind as (Hi & Hs & _).
    split; [|split; [|done]].
    + exists s. split; [by eapply list_elem_of_lookup_2|done].
    + exists []. by rewrite app_nil_r.
  - apply list_find_None in Hfind. cbn [sectionsMap imported orderCounter].
    split; [|split; [|split; [done|split; [|split; [|split]]]]].
    + eexists. split; [apply elem_of_app; right; by left|done].
    + eexists. split; [done|]. by apply Forall_singleton.
    + rewrite fmap_app. apply NoDup_app. split; [done|].
      split; [|apply NoDup_singleton].
      intros x (s & -> & Hs)%list_elem_of_fmap Hx%list_elem_of_singleton.
      rewrite Forall_forall in Hfind. by apply (Hfind s Hs).
    + apply Forall_app. split; [done|]. by apply Forall_singleton.
    + rewrite fmap_app, Hord, length_app. cbn [length fmap list_fmap order].
      rewrite Hcount.
      replace (Z.of_nat (length (sectionsMap st) + 1))
        with (Z.of_nat (length (sectionsMap st)) + 1) by lia.
      rewrite seqZ_app by lia. by rewrite Z.add_comm.
    + rewrite length_app. cbn [length]. lia.
Qed.

Lemma linked_push makeId secName st (a : Activity) (n : nat) :
  linked st -> secName <> EmptyString ->
  sectionId a = (sectionFor makeId secName st).1 ->
  let st1 := (sectionFor makeId secName st).2 in
  linked {| sectionsMap := sectionsMap st1; imported := imported st1 ++ [a];
            orderCounter := orderCounter st1; drawn := n |} /\
  length (imported st1 ++ [a]) = S (length (imported st)).
Proof.
  intros [Hacts Hsecs Hnd Hnamed Hord Hcount] Hne Ha.
  pose proof (sectionFor_spec makeId secName st Hne Hnd Hnamed Hord Hcount)
    as H.
  destruct (sectionFor _ _ st) as [sid st1]. cbn [fst snd] in *.
  destruct H as ((s & Hs & Hsid & _) & (new & Hnew & Hnewid) &
                 Himp & Hnd1 & Hnamed1 & Hord1 & Hcount1).
  split; [|rewrite length_app, Himp; cbn; lia].
  split; cbn [sectionsMap imported orderCounter]; try done.
  - apply Forall_app. split.
    + rewrite Himp. eapply Forall_impl; [exact Hacts|].
      intros a0 (s0 & Hs0 & Ha0). exists s0. split; [|done].
      rewrite Hnew. apply elem_of_app. by left.
    + apply Forall_singleton. exists s. by rewrite Ha.
  - rewrite Hnew. apply Forall_app. split.
    + eapply Forall_impl; [exact Hsecs|].
      intros s0 (a0 & Ha0 & Hs0). exists a0. split; [|done].
      apply elem_of_app. left. by rewrite Himp.
    + eapply Forall_impl; [exact Hnewid|]. intros s0 Hs0. cbn in Hs0.
      exists a. split; [apply elem_of_app; right; by left|].
      by rewrite Ha.
Qed.

(** The duration cell of a line, as the loop reads it under the columns
    [idx]. *)
Definition durationCell (idx : columns) (line : string) : string :=
  TimeCodec.trim (col (parseCsvLine line) (c_duration idx) "0").

(** The columns named by the first line. *)
Definition columnsIn (first : string) : columns :=
  columnsOf ((fun h => toLowerCase (TimeCodec.trim h)) <$> splitComma first).

(** A cell that is blank, not numeric, or a whole number of at most 2^53 in
    magnitude. *)
Definition plain (cell : string) : Prop :=
  TimeCodec.Number cell <> TimeCodec.OtherNumber.

#[global] Instance plain_dec cell : Decision (plain cell).
Proof.
  unfold plain. destruct (TimeCodec.Number cell);
    [left|left|right]; congruence.
Defined.

Lemma importLine_linked makeId idx line st :
  linked st -> plain (durationCell idx line) ->
  exists st', importLine makeId idx line st = Some st' /\
    linked st' /\ length (imported st') = S (length (imported st)).
Proof.
  intros Hst Hplain. unfold importLine.
  pose proof (fun a n => linked_push makeId
                (sectionNameOf (parseCsvLine line) idx) st a n Hst
                (sectionNameOf_nonempty _ _)) as H.
  destruct (sectionFor _ _ st) as [sid st1]. cbn [fst snd] in H.
  unfold plain, durationCell in Hplain. unfold durationOf.
  destruct (TimeCodec.Number _) eqn:Hnum; [| |done].
  - eexists. split; [done|]. by apply H.
  - eexists. split; [done|]. by apply H.
Qed.

Lemma importLines_linked makeId idx lines st :
  linked st -> Forall (fun line => plain (durationCell idx line)) lines ->
  exists st', importLines makeId idx lines st = Some st' /\
    linked st' /\
    length (imported st') = (length (imported st) + length lines)%nat.
Proof.
  revert st. induction lines as [|line lines IH]; intros st Hst Hplain;
    cbn [importLines].
  - exists st. split; [done|]. split; [done|]. cbn. lia.
  - apply Forall_cons in Hplain as [Hline Hplain].
    destruct (importLine_linked makeId idx line st Hst Hline)
      as (st1 & -> & Hst1 & Hlen).
    destruct (IH st1 Hst1 Hplain) as (st2 & -> & Hst2 & Hlen2).
    exists st2. split; [done|]. split; [done|]. cbn [length]. lia.
Qed.

(** X22: for text of code units below 256 in which the duration cell of
    every non-blank line after the first is blank, not numeric, or a whole
    number of at most 2^53 in magnitude, and whatever the ids drawn: the
    import files every activity under an imported section and imports no
    section without an activity; the sections have distinct non-empty
    names, no day number and the orders 1, 2, ... in the order of import;
    there is one activity per non-blank line after the first. *)
Theorem import_linked (makeId : nat -> ID) (text : string) :
  let lines := filter notBlank (splitLines text) in
  Forall (fun line => plain (durationCell (columnsIn (hd EmptyString lines))
                                          line))
         (tail lines) ->
  exists res,
    importActivitiesFromCSV makeId text = Some res /\
    Forall (fun a => exists s, s ∈ sections res /\
                               sectionId a = section_id s)
           (activities res) /\
    Forall (fun s => exists a, a ∈ activities res /\
                               sectionId a = section_id s)
           (sections res) /\
    NoDup (name <$> sections res) /\
    Forall (fun s => name s <> EmptyString /\ dayNumber s = None)
           (sections res) /\
    order <$> sections res = seqZ 1 (Z.of_nat (length (sections res))) /\
    length (activities res) = pred (length lines).
Proof.
  intros lines Hplain. unfold importActivitiesFromCSV.
  change (filter notBlank (splitLines text)) with lines.
  clearbody lines.
  destruct lines as [|first [|second rest]];
    [eexists; split; [done|]; repeat split; by try apply NoDup_nil_2..|].
  cbn [hd tail] in Hplain.
  change (columnsOf _) with (columnsIn first).
  destruct (importLines_linked makeId (columnsIn first) (second :: rest) init
              linked_init Hplain) as (st & -> & [H1 H2 H3 H4 H5 H6] & Hlen).
  eexists. split; [done|]. cbn [sections activities].
  repeat split; try done.
Qed.

(** Two lines under one section name, a blank line, a line with no section
    and a duration that is not numeric. *)
Definition sheet : string :=
  "Title,Section,DurationMin" +:+ str newline +:+
  "Intro,Opening,15" +:+ str newline +:+
  str newline +:+
  "Demo, Opening ,20" +:+ str newline +:+
  "Wrap-up,,soon".

Lemma import_linked_witness :
  let makeId := fun k : nat => pretty k in
  let lines := filter notBlank (splitLines sheet) in
  Forall (fun line => plain (durationCell (columnsIn (hd EmptyString lines))
                                          line))
         (tail lines) /\
  exists res,
    importActivitiesFromCSV makeId sheet = Some res /\
    name <$> sections res = ["Opening"; "Imported"]%string /\
    durationMin <$> activities res = [15; 20; 0] /\
    Forall (fun a => exists s, s ∈ sections res /\
                               sectionId a = section_id s)
           (activities res) /\
    length (activities res) = 3%nat.
Proof.
  intros makeId lines.
  assert (Hplain :
    Forall (fun line =>
              plain (durationCell (columnsIn (hd EmptyString lines)) line))
           (tail lines)).
  { apply (bool_decide_unpack _). by vm_compute. }
  split; [exact Hplain|].
  destruct (import_linked makeId sheet Hplain)
    as (res & Hres & Hacts & _ & _ & _ & _ & Hlen).
  exists res. split; [exact Hres|].
  assert (Hrun : importActivitiesFromCSV makeId sheet =
                 Some {| sections :=
                           [mkSection "0" "Opening" 1 None;
                            mkSection "3" "Imported" 2 None];
                         activities :=
                           [mkActivity "1" "Intro" EmptyString None 15 None
                              None None "0" None None None;
                            mkActivity "2" "Demo" EmptyString None 20 None
                              None None "0" None None None;
                            mkActivity "4" "Wrap-up" EmptyString None 0 None
                              None None "3" None None None] |})
    by (vm_compute; reflexivity).
  rewrite Hrun in Hres. injection Hres as <-.
  split; [reflexivity|]. split; [reflexivity|]. split; [exact Hacts|].
  exact Hlen.
Defined.


(** *** Decimal numerals read back *)

Lemma trimStart_id (s : string) :
  test TimeCodec.isWhite s = false -> TimeCodec.trimStart s = s.
Proof.
  destruct s as [|c s]; [done|]. intros [Hc _]%CsvFacts.test_false.
  cbn [TimeCodec.trimStart]. by rewrite Hc.
Qed.

Lemma trimEnd_id (s : string) :
  test TimeCodec.isWhite s = false -> TimeCodec.trimEnd s = s.
Proof.
  induction s as [|c s IH]; [done|]. intros [Hc Hs]%CsvFacts.test_false.
  cbn [TimeCodec.trimEnd]. by rewrite IH, Hc by done.
Qed.

Lemma trim_id (s : string) :
  test TimeCodec.isWhite s = false -> TimeCodec.trim s = s.
Proof.
  intros Hs. unfold TimeCodec.trim. by rewrite trimStart_id, trimEnd_id.
Qed.

Definition notDigit (c : ascii) : bool := negb (TimeCodec.isDigit c).

Lemma notDigit_digit (c : ascii) :
  TimeCodec.isDigit c = true -> notDigit c = false.
Proof. unfold notDigit. by intros ->. Qed.

Lemma digit_not_white (c : ascii) :
  TimeCodec.isDigit c = true -> TimeCodec.isWhite c = false.
Proof.
  intros H%CsvFacts.isDigit_cases. set_unfold. by repeat destruct H as [->|H].
Qed.

Lemma spanDigits_all (s : string) :
  test notDigit s = false -> TimeCodec.spanDigits s = (s, EmptyString).
Proof.
  induction s as [|c s IH]; [done|]. intros [Hc Hs]%CsvFacts.test_false.
  cbn [TimeCodec.spanDigits]. unfold notDigit in Hc.
  apply negb_false_iff in Hc. by rewrite Hc, IH.
Qed.

Lemma digitVal_pretty_N_char (d : N) :
  (d < 10)%N -> TimeCodec.digitVal (pretty_N_char d) = Z.of_N d.
Proof.
  intros Hd. destruct d as [|p]; [done|].
  do 4 (try destruct p as [p|p|]); try done; lia.
Qed.

Lemma digitsValue_pretty_N_go (x : N) (s : string) :
  exists k, forall acc,
    TimeCodec.digitsValue acc (pretty_N_go x s) =
    TimeCodec.digitsValue (acc * k + Z.of_N x) s.
Proof.
  revert s. induction (N.lt_wf_0 x) as [x _ IH]; intros s.
  destruct (decide (x = 0)%N) as [->|Hx].
  - exists 1. intros acc. rewrite pretty_N_go_0. f_equal. lia.
  - rewrite pretty_N_go_step by lia.
    destruct (IH (x `div` 10)%N ltac:(apply N.div_lt; lia)
                (String (pretty_N_char (x `mod` 10)) s)) as [k Hk].
    exists (10 * k). intros acc. rewrite Hk. cbn [TimeCodec.digitsValue].
    rewrite digitVal_pretty_N_char by (apply N.mod_lt; lia).
    f_equal. rewrite (N.div_mod x 10) at 3 by lia.
    rewrite N2Z.inj_add, N2Z.inj_mul. lia.
Qed.

Lemma pretty_N_go_nonempty (x : N) (s : string) :
  s <> EmptyString -> pretty_N_go x s <> EmptyString.
Proof.
  revert s. induction (N.lt_wf_0 x) as [x _ IH]; intros s Hs.
  destruct (decide (x = 0)%N) as [->|Hx]; [by rewrite pretty_N_go_0|].
  rewrite pretty_N_go_step by lia.
  apply IH; [apply N.div_lt; lia|done].
Qed.

(** The numeral of a natural number: digits only, at least one, and its
    value read back. *)
Lemma pretty_N_numeral (n : N) :
  test notDigit (pretty n) = false /\
  pretty n <> EmptyString /\
  TimeCodec.digitsValue 0 (pretty n) = Z.of_N n.
Proof.
  unfold pretty, pretty_N. case_decide as Hn.
  - subst n. done.
  - split; [|split].
    + rewrite CsvFacts.test_pretty_N_go; [done|apply notDigit_digit].
    + rewrite pretty_N_go_step by lia. by apply pretty_N_go_nonempty.
    + destruct (digitsValue_pretty_N_go n EmptyString) as [k Hk].
      rewrite Hk. cbn. lia.
Qed.

Lemma digits_not_Infinity (c : ascii) (s : string) :
  TimeCodec.isDigit c = true -> String.eqb (String c s) "Infinity" = false.
Proof.
  intros H%CsvFacts.isDigit_cases. set_unfold.
  by repeat destruct H as [->|H].
Qed.

Lemma digits_not_radix (s : string) :
  test notDigit s = false -> TimeCodec.nonDecimal s = false.
Proof.
  destruct s as [|z [|k r]]; [done..|].
  intros [_ [Hk _]%CsvFacts.test_false]%CsvFacts.test_false.
  unfold notDigit in Hk. apply negb_false_iff in Hk.
  apply CsvFacts.isDigit_cases in Hk. cbn [TimeCodec.nonDecimal].
  set_unfold. repeat destruct Hk as [->|Hk]; try done;
    by rewrite ?andb_false_r, ?andb_false_l.
Qed.

Lemma unsignedDecimal_pretty (n : N) :
  TimeCodec.unsignedDecimal (pretty n) = TimeCodec.safe (Z.of_N n).
Proof.
  destruct (pretty_N_numeral n) as (Hd & Hne & Hv).
  unfold TimeCodec.unsignedDecimal.
  destruct (pretty n) as [|c s] eqn:Hp; [done|].
  pose proof Hd as [Hc _]%CsvFacts.test_false.
  unfold notDigit in Hc. apply negb_false_iff in Hc.
  rewrite digits_not_Infinity, spanDigits_all by done.
  cbn [TimeCodec.isEmpty]. by rewrite Hv.
Qed.

Lemma test_white_digits (s : string) :
  test notDigit s = false -> test TimeCodec.isWhite s = false.
Proof.
  induction s as [|c s IH]; [done|]. intros [Hc Hs]%CsvFacts.test_false.
  cbn [test]. unfold notDigit in Hc. apply negb_false_iff in Hc.
  by rewrite digit_not_white, IH.
Qed.

(** [Number(String(z))] is [z] for an integer that a double holds. *)
Lemma Number_pretty (z : Z) :
  Z.abs z <= 2 ^ 53 ->
  TimeCodec.trim (pretty z) = pretty z /\
  TimeCodec.Number (pretty z) = TimeCodec.Exact z.
Proof.
  intros Hz.
  assert (HN : forall n : N, Z.of_N n <= 2 ^ 53 ->
            TimeCodec.trim (pretty n) = pretty n /\
            TimeCodec.Number (pretty n) = TimeCodec.Exact (Z.of_N n)).
  { intros n Hn. destruct (pretty_N_numeral n) as (Hd & Hne & Hv).
    assert (Htrim : TimeCodec.trim (pretty n) = pretty n)
      by (by apply trim_id, test_white_digits).
    split; [done|]. unfold TimeCodec.Number. rewrite Htrim.
    pose proof (unsignedDecimal_pretty n) as Hu.
    pose proof (digits_not_radix _ Hd) as Hr.
    destruct (pretty n) as [|c s] eqn:Hp; [done|].
    pose proof Hd as [Hc _]%CsvFacts.test_false.
    unfold notDigit in Hc. apply negb_false_iff in Hc.
    assert (Hsign : Ascii.eqb c "+" = false /\ Ascii.eqb c "-" = false).
    { apply CsvFacts.isDigit_cases in Hc. set_unfold.
      by repeat destruct Hc as [->|Hc]. }
    destruct Hsign as [-> ->]. rewrite Hr, Hu. unfold TimeCodec.safe.
    rewrite (proj2 (Z.leb_le _ _)); [done|lia]. }
  destruct z as [|p|p].
  - done.
  - apply (HN (N.pos p)). lia.
  - destruct (HN (N.pos p)) as [Htrim Hnum]; [lia|].
    destruct (pretty_N_numeral (N.pos p)) as (Hd & Hne & Hv).
    assert (Hneg : pretty (Z.neg p) = String "-" (pretty (N.pos p))) by done.
    assert (Htrim' : TimeCodec.trim (pretty (Z.neg p)) = pretty (Z.neg p)).
    { apply trim_id. rewrite Hneg. cbn [test].
      by rewrite test_white_digits. }
    split; [done|]. unfold TimeCodec.Number. rewrite Htrim', Hneg.
    change (Ascii.eqb "-" "+") with false.
    change (Ascii.eqb "-" "-") with true. cbn match.
    rewrite unsignedDecimal_pretty. unfold TimeCodec.safe.
    rewrite (proj2 (Z.leb_le _ _)); [done|lia].
Qed.

(** *** Importing an exported text *)

Definition headerLine : string := String.concat (str comma) header.

Definition rowLine (names : gmap ID string) (a : Activity) : string :=
  String.concat (str comma) (row names a).

Lemma splitLines_export (activities : list Activity)
    (secs : list AgendaSection) :
  Forall (fun a => Forall CsvFacts.oneLine
                     (CsvFacts.values (sectionNameById secs) a))
         activities ->
  splitLines (exportActivitiesToCSV activities secs) =
  headerLine :: (rowLine (sectionNameById secs) <$> activities).
Proof.
  intros Hone. unfold exportActivitiesToCSV, splitLines.
  rewrite CsvFacts.foldl_push_lines. cbn [app].
  rewrite CsvFacts.splitLoop_lines; [done|].
  constructor; [done|]. apply Forall_fmap.
  eapply Forall_impl; [exact Hone|]. intros a Ha.
  by apply CsvFacts.oneLine_row.
Qed.

Lemma trimStart_nonwhite (s : string) :
  test (fun c => negb (TimeCodec.isWhite c)) s = true ->
  exists c s', TimeCodec.trimStart s = String c s' /\
               TimeCodec.isWhite c = false.
Proof.
  induction s as [|c s IH]; [done|]. cbn [test TimeCodec.trimStart].
  destruct (TimeCodec.isWhite c) eqn:Hc; [apply IH|].
  intros _. by exists c, s.
Qed.

Lemma notBlank_nonwhite (s : string) :
  test (fun c => negb (TimeCodec.isWhite c)) s = true -> notBlank s.
Proof.
  intros (c & s' & Hs & Hc)%trimStart_nonwhite.
  unfold notBlank, TimeCodec.trim. rewrite Hs.
  cbn [TimeCodec.trimEnd]. by rewrite Hc.
Qed.

Lemma notBlank_rowLine (names : gmap ID string) (a : Activity) :
  notBlank (rowLine names a).
Proof.
  apply notBlank_nonwhite. unfold rowLine, row.
  match goal with
  | |- test _ (String.concat _ (?c :: ?cells)) = true =>
      change (String.concat (str comma) (c :: cells))
        with (c +:+ str comma +:+ String.concat (str comma) cells)
  end.
  rewrite !CsvFacts.test_app. cbn [test str]. by rewrite orb_true_r.
Qed.

Definition exportColumns : columns :=
  {| c_section := Some 0%nat; c_title := Some 1%nat; c_owner := Some 2%nat;
     c_slide := Some 3%nat; c_duration := Some 4%nat; c_files := Some 5%nat;
     c_details := Some 6%nat; c_notes := Some 7%nat |}.

Lemma columnsOf_headerLine :
  columnsOf ((fun h => toLowerCase (TimeCodec.trim h))
               <$> splitComma headerLine) = exportColumns.
Proof. reflexivity. Qed.

(** The name of the section that an exported activity is imported under. *)
Definition nameFor (names : gmap ID string) (a : Activity) : string :=
  let t := TimeCodec.trim (orEmpty (names !! sectionId a)) in
  if TimeCodec.isEmpty t then "Imported" else t.

(** An activity as it comes back: trimmed, empty optional fields absent. *)
Definition comesBack (a : Activity) (sid id : ID) : Activity :=
  {| activity_id := id;
     title := TimeCodec.trim (title a);
     owner := TimeCodec.trim (owner a);
     slideNumber := orUndefined (TimeCodec.trim (orEmpty (slideNumber a)));
     durationMin := durationMin a;
     files := orUndefined (TimeCodec.trim (orEmpty (files a)));
     details := orUndefined (TimeCodec.trim (orEmpty (details a)));
     notes := orUndefined (TimeCodec.trim (orEmpty (notes a)));
     sectionId := sid;
     isSystem := None; systemKey := None; completed := None |}.

(** The turn of the loop for the line of the activity [a]. *)
Definition fileUnder (makeId : nat -> ID) (names : gmap ID string)
    (st : state) (a : Activity) : state :=
  let st1 := (sectionFor makeId (nameFor names a) st).2 in
  {| sectionsMap := sectionsMap st1;
     imported := imported st1 ++
       [comesBack a (sectionFor makeId (nameFor names a) st).1
          (makeId (drawn st1))];
     orderCounter := orderCounter st1;
     drawn := S (drawn st1) |}.

Lemma importLine_rowLine makeId names (a : Activity) st :
  Z.abs (durationMin a) <= 2 ^ 53 ->
  importLine makeId exportColumns (rowLine names a) st =
  Some (fileUnder makeId names st a).
Proof.
  intros Hd. unfold importLine, rowLine.
  rewrite CsvFacts.parseCsvLine_row.
  change (sectionNameOf (CsvFacts.values names a) exportColumns)
    with (nameFor names a).
  unfold fileUnder. destruct (sectionFor _ _ st) as [sid st1].
  change (col (CsvFacts.values names a) (c_duration exportColumns) "0")
    with (pretty (durationMin a)).
  destruct (Number_pretty (durationMin a) Hd) as [-> Hnum].
  unfold durationOf. by rewrite Hnum.
Qed.

Lemma importLines_rowLines makeId names (acts : list Activity) st :
  Forall (fun a => Z.abs (durationMin a) <= 2 ^ 53) acts ->
  importLines makeId exportColumns (rowLine names <$> acts) st =
  Some (foldl (fileUnder makeId names) st acts).
Proof.
  intros Hacts. revert st.
  induction Hacts as [|a acts Ha Hacts IH]; intros st; [done|].
  rewrite fmap_cons. cbn [importLines foldl].
  by rewrite importLine_rowLine.
Qed.

(** The imported activity [imp] is the activity [a] come back, filed under
    a section of [secs] of the right name. *)
Definition cameBack (names : gmap ID string) (secs : list AgendaSection)
    (imp a : Activity) : Prop :=
  (exists id, imp = comesBack a (sectionId imp) id) /\
  exists s, s ∈ secs /\ section_id s = sectionId imp /\
            name s = nameFor names a.

Lemma fileUnder_cameBack makeId names (acts : list Activity) st :
  linked st ->
  let st' := foldl (fileUnder makeId names) st acts in
  linked st' /\
  exists new back,
    sectionsMap st' = sectionsMap st ++ new /\
    imported st' = imported st ++ back /\
    Forall2 (cameBack names (sectionsMap st')) back acts.
Proof.
  revert st. induction acts as [|a acts IH]; intros st Hst; cbn [foldl].
  - split; [done|]. exists [], []. by rewrite !app_nil_r.
  - assert (Hname : nameFor names a <> EmptyString).
    { unfold nameFor. by destruct (TimeCodec.trim _). }
    set (st2 := fileUnder makeId names st a).
    assert (Hst2 : linked st2).
    { by apply (linked_push makeId (nameFor names a) st). }
    assert (Hfields :
      sectionsMap st2 = sectionsMap (sectionFor makeId (nameFor names a) st).2
      /\ imported st2 =
         imported (sectionFor makeId (nameFor names a) st).2 ++
         [comesBack a (sectionFor makeId (nameFor names a) st).1
            (makeId (drawn (sectionFor makeId (nameFor names a) st).2))])
      by done.
    destruct Hfields as [Hsecs2 Himp2].
    pose proof (sectionFor_spec makeId (nameFor names a) st Hname
                  (linked_names _ Hst) (linked_named _ Hst)
                  (linked_orders _ Hst) (linked_counter _ Hst)) as Hfor.
    destruct (sectionFor makeId (nameFor names a) st) as [sid st1].
    cbn [fst snd] in Hsecs2, Himp2.
    destruct Hfor as ((s & Hs & Hsid & Hsname) & (new1 & Hnew1 & _) &
                      Himp1 & _).
    destruct (IH st2 Hst2) as (Hst' & new & back & Hsecs & Himp & Hback).
    split; [done|].
    exists (new1 ++ new), (comesBack a sid (makeId (drawn st1)) :: back).
    split; [by rewrite Hsecs, Hsecs2, Hnew1, app_assoc|].
    split; [by rewrite Himp, Himp2, Himp1, <- app_assoc|].
    constructor; [|done]. split; [by eexists|].
    exists s. split; [|done].
    rewrite Hsecs, Hsecs2. apply elem_of_app. by left.
Qed.

(** X23: on strings of code units below 256, exporting an agenda and
    importing the text brings every activity back, in order, when no
    exported value holds a line break and every duration is a whole number
    of at most 2^53 in magnitude. Each activity comes back with its title,
    owner and optional fields trimmed of TAB, LF, VT, FF, CR, SP and U+00A0
    at both ends (an empty one absent), its duration unchanged and a new
    id, filed under an imported section that bears the trimmed name of its
    old section, or ['Imported'] when that name is blank or the section
    unknown. *)
Theorem import_export (makeId : nat -> ID) (acts : list Activity)
    (secs : list AgendaSection) :
  let names := sectionNameById secs in
  Forall (fun a => Forall CsvFacts.oneLine (CsvFacts.values names a) /\
                   Z.abs (durationMin a) <= 2 ^ 53) acts ->
  exists res,
    importActivitiesFromCSV makeId (exportActivitiesToCSV acts secs)
      = Some res /\
    Forall2 (cameBack names (sections res)) (activities res) acts.
Proof.
  intros names Hacts.
  assert (Hone : Forall (fun a => Forall CsvFacts.oneLine
                                    (CsvFacts.values names a)) acts).
  { eapply Forall_impl; [exact Hacts|]. cbn. tauto. }
  assert (Hdur : Forall (fun a => Z.abs (durationMin a) <= 2 ^ 53) acts).
  { eapply Forall_impl; [exact Hacts|]. cbn. tauto. }
  unfold importActivitiesFromCSV.
  rewrite (splitLines_export acts secs Hone). fold names.
  rewrite filter_cons_True by done.
  rewrite filter_all
    by (apply Forall_fmap, Forall_forall; intros a _; apply notBlank_rowLine).
  destruct acts as [|a acts].
  { eexists. split; [done|]. constructor. }
  rewrite fmap_cons.
  rewrite columnsOf_headerLine.
  rewrite <- fmap_cons, (importLines_rowLines makeId names (a :: acts))
    by done.
  destruct (fileUnder_cameBack makeId names (a :: acts) init linked_init)
    as (_ & new & back & Hsecs & Himp & Hback).
  eexists. split; [done|]. cbn [sections activities].
  cbn [init imported app] in Himp. by rewrite Himp.
Qed.

Definition roundTripIds (k : nat) : ID := "id" +:+ pretty k.

Lemma import_export_witness :
  let secs := [sec "s1" 1 None; sec "s2" 2 None] in
  let acts := [act "a" 30 "s2"; act "b" 45 "s1"; act "c" 15 "zz"] in
  Forall (fun a =>
            Forall CsvFacts.oneLine
              (CsvFacts.values (sectionNameById secs) a) /\
            Z.abs (durationMin a) <= 2 ^ 53) acts /\
  exists res,
    importActivitiesFromCSV roundTripIds (exportActivitiesToCSV acts secs)
      = Some res /\
    name <$> sections res = ["s2"; "s1"; "Imported"]%string /\
    Forall2 (cameBack (sectionNameById secs) (sections res))
            (activities res) acts.
Proof.
  intros secs acts.
  assert (H : Forall (fun a =>
            Forall CsvFacts.oneLine
              (CsvFacts.values (sectionNameById secs) a) /\
            Z.abs (durationMin a) <= 2 ^ 53) acts).
  { repeat constructor; cbn; lia. }
  split; [exact H|].
  destruct (import_export roundTripIds acts secs H) as (res & Hres & Hback).
  exists res. split; [done|]. split; [|done].
  vm_compute in Hres. by injection Hres as <-.
Defined.

End CsvImportFacts.
